(** * Verification of elgato_prompter_text_cli

    A shallow embedding of [restarter.py] (the application restart
    orchestrator) and of the slug / settings helpers of
    [elgato_prompter_text.py], with the properties of the specification
    stated and proved over it.

    Conventions of the embedding.
    - The text that the operating system hands back, and the text of
      [PrompterText] and [PrompterStore], is a list of [ascii] characters
      read as the code points U+0000..U+00FF.  The builtins of [PyStr] are
      exact on that range unless a comment says otherwise.
    - Where a property ranges over every Python [str], the string is the
      list of its code points ([PyUni], [PrompterUni]): lone surrogates
      exist there, and the case forms of the code points that the program
      cannot tell apart are those of the interpreter's Unicode database,
      a parameter.
    - A Python [int] is a [Z].  The interpreter's limits on the number of
      digits in int/str conversions and on the depth of recursion are not
      modelled.
    - [float] seconds are integer milliseconds: a timeout is finite.
    - The clock does not go back: a system call takes a time that is not
      negative, and every system call returns.
    - The operating system is an oracle ([Os.World]): it answers each
      process spawn and each signal as a function of everything the program
      did before.  Programs are state passing over the log of system calls
      and a clock, with Python exceptions as a result constructor. *)

From Stdlib Require Import ZArith List Ascii String Bool Lia.
From stdpp Require Import gmap list fin_maps.
Import ListNotations.

Set Warnings "-via-type-mismatch,-register-all".

(** ** String literals for [list ascii] *)

Inductive lit_chars := LNil | LCons (a : ascii) (l : lit_chars).

Fixpoint lit_of_bytes (l : list Byte.byte) : lit_chars :=
  match l with
  | [] => LNil
  | b :: l => LCons (ascii_of_byte b) (lit_of_bytes l)
  end.

Fixpoint bytes_of_lit (s : lit_chars) : list Byte.byte :=
  match s with
  | LNil => []
  | LCons a s => byte_of_ascii a :: bytes_of_lit s
  end.

Declare Scope str_scope.
Delimit Scope str_scope with str.
String Notation list lit_of_bytes bytes_of_lit
  (via lit_chars mapping [[nil] => LNil, [cons] => LCons]) : str_scope.
Open Scope str_scope.

Definition str := list ascii.

(** ** Python's [str] builtins *)

Module PyStr.

Definition ord (c : ascii) : nat := nat_of_ascii c.
Definition chr (n : nat) : ascii := ascii_of_nat n.

Definition between (lo hi : nat) (c : ascii) : bool :=
  Nat.leb lo (ord c) && Nat.leb (ord c) hi.

Definition code_is (n : nat) (c : ascii) : bool := Nat.eqb (ord c) n.

(** [str.isspace] per character: TAB..CR, FS..US, SPACE, NEL, NBSP. *)
Definition is_space (c : ascii) : bool :=
  between 9 13 c || between 28 32 c || code_is 133 c || code_is 160 c.

(** Line boundaries of [str.splitlines]. *)
Definition is_linebreak (c : ascii) : bool :=
  between 10 13 c || between 28 30 c || code_is 133 c.

Definition is_decimal (c : ascii) : bool := between 48 57 c.

(** [str.isdigit] per character: the decimals and the superscripts 1, 2, 3. *)
Definition is_digit_char (c : ascii) : bool :=
  is_decimal c || code_is 178 c || code_is 179 c || code_is 185 c.

Definition is_ascii_lower (c : ascii) : bool := between 97 122 c.
Definition is_ascii_upper (c : ascii) : bool := between 65 90 c.
Definition is_ascii_alnum (c : ascii) : bool :=
  is_ascii_lower c || is_ascii_upper c || is_decimal c.

Definition lower_char (c : ascii) : ascii :=
  if is_ascii_upper c || (between 192 222 c && negb (code_is 215 c))
  then chr (ord c + 32) else c.

Definition lower (s : str) : str := map lower_char s.

(** [str.upper].  Sharp s becomes "SS"; the uppercase forms of U+00B5 and
    U+00FF lie outside the modelled range and these two are left as they
    are. *)
Definition upper_char (c : ascii) : str :=
  if is_ascii_lower c || (between 224 254 c && negb (code_is 247 c))
  then [chr (ord c - 32)]
  else if code_is 223 c then "SS" else [c].

Definition upper (s : str) : str := flat_map upper_char s.

Fixpoint lstrip_with {C} (p : C -> bool) (s : list C) : list C :=
  match s with
  | [] => []
  | c :: t => if p c then lstrip_with p t else s
  end.

Definition rstrip_with {C} (p : C -> bool) (s : list C) : list C :=
  rev (lstrip_with p (rev s)).

Definition strip_with {C} (p : C -> bool) (s : list C) : list C :=
  rstrip_with p (lstrip_with p s).

(** [s.strip()] *)
Definition strip (s : str) : str := strip_with is_space s.

Definition char_in (chars : str) (c : ascii) : bool :=
  existsb (fun d => Ascii.eqb c d) chars.

(** [s.strip(chars)] and [s.rstrip(chars)] *)
Definition strip_chars (chars s : str) : str := strip_with (char_in chars) s.
Definition rstrip_chars (chars s : str) : str := rstrip_with (char_in chars) s.

Definition eqb (a b : str) : bool := bool_decide (a = b).

Fixpoint startswith (s p : str) : bool :=
  match p, s with
  | [], _ => true
  | _ :: _, [] => false
  | d :: p', c :: s' => Ascii.eqb c d && startswith s' p'
  end.

Definition endswith (s p : str) : bool := startswith (rev s) (rev p).

(** [sub in s] *)
Fixpoint contains (s sub : str) : bool :=
  startswith s sub ||
  match s with
  | [] => false
  | _ :: t => contains t sub
  end.

(** [s.splitlines()]; [cur] is the current line, reversed. *)
Fixpoint splitlines_from (cur : str) (s : str) : list str :=
  match s with
  | [] => match cur with [] => [] | _ => [rev cur] end
  | c :: t =>
      if is_linebreak c then
        rev cur ::
          match t with
          | d :: t' => if code_is 13 c && code_is 10 d then splitlines_from [] t'
                       else splitlines_from [] t
          | [] => splitlines_from [] t
          end
      else splitlines_from (c :: cur) t
  end.

Definition splitlines (s : str) : list str := splitlines_from [] s.

(** [s.split(sep)] for a separator of one character. *)
Fixpoint split_from (sep : ascii) (cur : str) (s : str) : list str :=
  match s with
  | [] => [rev cur]
  | c :: t => if Ascii.eqb c sep then rev cur :: split_from sep [] t
              else split_from sep (c :: cur) t
  end.

Definition split (sep : ascii) (s : str) : list str := split_from sep [] s.

(** [sep.join(parts)] *)
Fixpoint join (sep : str) (parts : list str) : str :=
  match parts with
  | [] => []
  | [p] => p
  | p :: rest => p ++ sep ++ join sep rest
  end.

(** [s.isdigit()] *)
Definition isdigit (s : str) : bool :=
  match s with
  | [] => false
  | _ => forallb is_digit_char s
  end.

(** [s[:n]] *)
Definition slice_to {C} (s : list C) (n : Z) : list C :=
  if (0 <=? n)%Z then firstn (Z.to_nat n) s
  else firstn (length s - Z.to_nat (- n)) s.

(** [len(s)] *)
Definition len {C} (s : list C) : Z := Z.of_nat (length s).

(** [re.sub(r"[^...]+", rep, s)] for a character class given by [keep]:
    every maximal run of characters outside the class becomes one [rep]. *)
Fixpoint sub_runs {C} (keep : C -> bool) (rep : list C) (in_run : bool) (s : list C)
  : list C :=
  match s with
  | [] => []
  | c :: t =>
      if keep c then c :: sub_runs keep rep false t
      else if in_run then sub_runs keep rep true t
      else rep ++ sub_runs keep rep true t
  end.

(** Decimal digits of [str(n)], most significant first. *)
Fixpoint digits_of_pos (fuel : nat) (n : N) (acc : str) : str :=
  match fuel with
  | O => acc
  | S f =>
      let acc' := chr (48 + N.to_nat (n mod 10)) :: acc in
      if (n <? 10)%N then acc' else digits_of_pos f (n / 10)%N acc'
  end.

(** [str(z)] for an int. *)
Definition str_of_Z (z : Z) : str :=
  let n := Z.abs_N z in
  let ds := digits_of_pos (S (N.to_nat (N.log2 n))) n [] in
  if (z <? 0)%Z then "-" ++ ds else ds.

Definition digit_val (c : ascii) : Z := Z.of_nat (ord c - 48).

Fixpoint int_digits (acc : Z) (prev_digit : bool) (s : str) : option Z :=
  match s with
  | [] => if prev_digit then Some acc else None
  | c :: t =>
      if is_decimal c then int_digits (10 * acc + digit_val c) true t
      else if code_is 95 c && prev_digit then
             match t with
             | [] => None
             | _ => int_digits acc false t
             end
      else None
  end.

(** The white space [int()] skips at both ends: TAB..CR and SPACE, and of
    the code points from U+0080 on NEL and NBSP.  The separators FS..US,
    which [str.strip] removes, are not among them. *)
Definition is_int_space (c : ascii) : bool :=
  between 9 13 c || code_is 32 c || code_is 133 c || code_is 160 c.

(** [int(s)] in base 10: surrounding whitespace, an optional sign, digits
    with single underscores between them.  [None] is ValueError. *)
Definition int (s : str) : option Z :=
  match strip_with is_int_space s with
  | [] => None
  | c :: t =>
      if code_is 45 c then option_map Z.opp (int_digits 0 false t)
      else if code_is 43 c then int_digits 0 false t
      else int_digits 0 false (c :: t)
  end.

End PyStr.

(** ** pathlib, POSIX flavour *)

Module PathLib.
Import PyStr.

Record Path := {
  root : str;
  parts : list str
}.

(** [Path(p)] *)
Definition path_of (p : str) : Path :=
  {| root := if startswith p "/" then
               if startswith p "//" && negb (startswith p "///") then "//" else "/"
             else "";
     parts := List.filter (fun x => negb (eqb x "") && negb (eqb x ".")) (split "/" p) |}.

(** [str(p)] *)
Definition path_str (p : Path) : str :=
  match root p, parts p with
  | [], [] => "."
  | r, ps => r ++ join "/" ps
  end.

(** [p.name] *)
Definition path_name (p : Path) : str := List.last (parts p) "".

(** Position of the first character satisfying [f]. *)
Fixpoint find_index (f : ascii -> bool) (s : str) : option nat :=
  match s with
  | [] => None
  | c :: t => if f c then Some O else option_map S (find_index f t)
  end.

(** [name.rfind(".")]; [None] is -1 *)
Definition rfind_dot (name : str) : option nat :=
  option_map (fun j => (length name - 1 - j)%nat) (find_index (code_is 46) (rev name)).

(** [p.stem] *)
Definition path_stem (p : Path) : str :=
  let name := path_name p in
  match rfind_dot name with
  | Some i => if Nat.ltb 0 i && Nat.ltb i (length name - 1) then firstn i name else name
  | None => name
  end.

(** [p.parent] *)
Definition parent (p : Path) : Path :=
  {| root := root p; parts := removelast (parts p) |}.

(** [p / name] for a name of one component *)
Definition child (p : Path) (name : str) : Path :=
  {| root := root p; parts := parts p ++ [name] |}.

(** [p.with_suffix(suffix)] for a path with a name *)
Definition with_suffix (p : Path) (suffix : str) : Path :=
  {| root := root p; parts := removelast (parts p) ++ [path_stem p ++ suffix] |}.

(** [p.resolve()].  Directories are taken to be absolute and free of
    symbolic links, so resolving changes nothing. *)
Definition resolve (p : Path) : Path := p.

End PathLib.

(** ** The operating system and the interpreter's control flow *)

Module Os.
Import PyStr.

(** The pieces of an f-string: literal text, [{x}] and [{x!r}]. *)
Inductive fpart :=
| Lit (s : str)
| Fmt (s : str)
| Repr (s : str).

(** The exceptions the program raises or catches by class; [OtherError] is
    any other class. *)
Inductive exn :=
| RuntimeError (msg : list fpart)
| FileNotFoundError (program : str)
| ProcessLookupError
| CalledProcessError (returncode : Z) (cmd : list str)
| ValueError (msg : list fpart)
| IndexError
| OtherError (cls msg : str).

(** How a computation ends.  [Diverge] is a polling loop that never leaves. *)
Inductive result (A : Type) :=
| Ok (a : A)
| Raise (e : exn)
| Diverge.
Arguments Ok {A} a.
Arguments Raise {A} e.
Arguments Diverge {A}.

Inductive syscall :=
| Spawn (argv : list str)   (* subprocess.run(argv, ...) *)
| Kill (pid sig : Z)        (* os.kill(pid, sig) *)
| Sleep (ms : Z).           (* time.sleep(ms / 1000) *)

(** What a spawn gives back: an error raised by [subprocess.run] itself, or
    the exit status and the text on stdout; and the time it took. *)
Record spawned := {
  outcome : exn + (Z * str);
  elapsed : N
}.

(** The environment.  Its answers may depend on all earlier system calls. *)
Record World := {
  sys_platform : str;
  spawn : list syscall -> list str -> spawned;
  signal : list syscall -> Z -> Z -> option exn
}.

Record St := {
  log : list syscall;
  clock : Z
}.

Definition M (A : Type) : Type := World -> St -> result A * St.

Definition ret {A} (a : A) : M A := fun _ s => (Ok a, s).

Definition bind {A B} (m : M A) (k : A -> M B) : M B := fun w s =>
  match m w s with
  | (Ok a, s') => k a w s'
  | (Raise e, s') => (Raise e, s')
  | (Diverge, s') => (Diverge, s')
  end.

Definition raise {A} (e : exn) : M A := fun _ s => (Raise e, s).

Definition diverge {A} : M A := fun _ s => (Diverge, s).

(** [try: m  except <classes>: h]: the handler picks the exceptions it
    catches. *)
Definition try_except {A} (m : M A) (h : exn -> option (M A)) : M A := fun w s =>
  match m w s with
  | (Raise e, s') =>
      match h e with
      | Some k => k w s'
      | None => (Raise e, s')
      end
  | r => r
  end.

(** [try: m  finally: return v]: the return in the finally clause discards
    the value or the exception of [m]. *)
Definition try_finally_return {A B} (m : M A) (v : B) : M B := fun w s =>
  match m w s with
  | (Diverge, s') => (Diverge, s')
  | (_, s') => (Ok v, s')
  end.

Declare Scope os_scope.
Delimit Scope os_scope with os.
Notation "x <- c1 ;; c2" := (bind c1 (fun x => c2))
  (at level 100, c1 at next level, right associativity) : os_scope.
Notation "c1 ;; c2" := (bind c1 (fun _ => c2))
  (at level 100, right associativity) : os_scope.
Open Scope os_scope.

(** [subprocess.run(argv, check=check, ...)]: exit status and stdout. *)
Definition subprocess_run (argv : list str) (check : bool) : M (Z * str) := fun w s =>
  let r := spawn w (log s) argv in
  let s' := {| log := log s ++ [Spawn argv];
               clock := clock s + Z.of_N (elapsed r) |} in
  match outcome r with
  | inl e => (Raise e, s')
  | inr (rc, out) =>
      if check && negb (rc =? 0)%Z then (Raise (CalledProcessError rc argv), s')
      else (Ok (rc, out), s')
  end.

(** [os.kill(pid, sig)] *)
Definition os_kill (pid sig : Z) : M unit := fun w s =>
  let s' := {| log := log s ++ [Kill pid sig]; clock := clock s |} in
  match signal w (log s) pid sig with
  | Some e => (Raise e, s')
  | None => (Ok tt, s')
  end.

(** [time.time()], in milliseconds *)
Definition time_time : M Z := fun _ s => (Ok (clock s), s).

(** [time.sleep(ms / 1000)] *)
Definition time_sleep (ms : Z) : M unit := fun _ s =>
  (Ok tt, {| log := log s ++ [Sleep ms]; clock := clock s + ms |}).

(** [sys.platform] *)
Definition platform : M str := fun w s => (Ok (sys_platform w), s).

(** [for x in xs: f(x)] *)
Fixpoint for_each {A} (f : A -> M unit) (xs : list A) : M unit :=
  match xs with
  | [] => ret tt
  | x :: rest => f x ;; for_each f rest
  end.

(** [[x for x in xs if p(x)]] with an effectful test *)
Fixpoint filter_m {A} (p : A -> M bool) (xs : list A) : M (list A) :=
  match xs with
  | [] => ret []
  | x :: rest =>
      b <- p x ;;
      keep <- filter_m p rest ;;
      ret (if b then x :: keep else keep)
  end.

(** [[int(x) for x in xs]] *)
Fixpoint ints_of (xs : list str) : M (list Z) :=
  match xs with
  | [] => ret []
  | x :: rest =>
      match int x with
      | None =>
          raise (ValueError [Lit "invalid literal for int() with base 10: "; Repr x])
      | Some n => ns <- ints_of rest ;; ret (n :: ns)
      end
  end.

End Os.

(** ** restarter.py *)

Module Restarter.
Import PyStr PathLib Os.

Definition dq : str := [chr 34].
Definition nl : str := [chr 10].

(** [s] between double quotes. *)
Definition q (s : str) : str := dq ++ s ++ dq.

(** A raw triple-quoted literal that opens and closes on lines of its own. *)
Definition block (lines : list str) : str := nl ++ flat_map (fun l => l ++ nl) lines.

(** *** Shared helpers *)

Definition run (cmd : list str) (check : bool) : M str :=
  res <- subprocess_run cmd check ;;
  ret (strip (snd res)).

(** *** macOS implementation *)

(** [SPOTLIGHT_QUERY_TEMPLATE.format(q=search)] *)
Definition spotlight_query (search : str) : str :=
  "kMDItemKind == " ++ q "Application" ++ " && " ++
  "(kMDItemDisplayName == " ++ q ("*" ++ search ++ "*") ++
  " || kMDItemCFBundleIdentifier == " ++ q ("*" ++ search ++ "*") ++ ")".

Definition key : Type := Z * Z * Z * Z.

(** [score] of [mac_mdfind_app]; [s] is the lowered search text. *)
Definition score (s : str) (p : Path) : key :=
  let path_str := path_str p in
  let name := lower (path_stem p) in
  (if startswith path_str "/Applications/" || startswith path_str "/System/Applications/"
   then 2 else 0,
   if startswith name s then 2 else 0,
   if contains name s then 1 else 0,
   - len path_str)%Z.

(** Tuples compare lexicographically. *)
Definition key_ltb (a b : key) : bool :=
  let '(a1, a2, a3, a4) := a in
  let '(b1, b2, b3, b4) := b in
  ((a1 <? b1) ||
   ((a1 =? b1) && ((a2 <? b2) ||
   ((a2 =? b2) && ((a3 <? b3) ||
   ((a3 =? b3) && (a4 <? b4)))))))%Z.

(** [l.sort(key=k, reverse=True)]: descending, equal keys keep their order. *)
Fixpoint insert_desc {A} (k : A -> key) (x : A) (l : list A) : list A :=
  match l with
  | [] => [x]
  | y :: t => if key_ltb (k x) (k y) then y :: insert_desc k x t else x :: y :: t
  end.

Definition sort_desc {A} (k : A -> key) (l : list A) : list A :=
  fold_right (insert_desc k) [] l.

(** The lines of [out] that name an application bundle, as paths. *)
Definition bundle_hits (out : str) : list Path :=
  map path_of (List.filter (fun p => endswith p ".app") (splitlines out)).

Definition mac_mdfind_app (search : str) : M (option Path) :=
  let query := spotlight_query search in
  out <- run ["mdfind"; query] false ;;
  let hits := bundle_hits out in
  match hits with
  | [] => ret None
  | _ =>
      let s := lower search in
      match sort_desc (score s) hits with
      | h :: _ => ret (Some h)
      | [] => raise IndexError
      end
  end.

Definition mac_bundle_id_for (app_path : Path) : M str :=
  run ["mdls"; "-name"; "kMDItemCFBundleIdentifier"; "-raw"; path_str app_path] true.

Definition count_script (bundle_id : str) : str :=
  "tell application " ++ q "System Events" ++
  " to count (every process whose bundle identifier is " ++ q bundle_id ++ ")".

Definition mac_count_running_procs (bundle_id : str) : M Z :=
  out <- run ["osascript"; "-e"; count_script bundle_id] false ;;
  match int out with
  | Some n => ret n
  | None => ret 0%Z
  end.

Definition pids_script (bundle_id : str) : str :=
  "tell application " ++ q "System Events" ++
  " to get the unix id of every process whose bundle identifier is " ++ q bundle_id.

Definition mac_pids_for (bundle_id : str) : M (list Z) :=
  out <- run ["osascript"; "-e"; pids_script bundle_id] false ;;
  match out with
  | [] => ret []
  | _ => ints_of (map strip (List.filter (fun x => isdigit (strip x)) (split "," out)))
  end.

Definition quit_script (bundle_id : str) : str :=
  "tell application id " ++ q bundle_id ++ " to quit".

(** The polling loop of [mac_quit_app]; [true] when it returned from inside
    the loop, [false] when the deadline passed. *)
Fixpoint mac_wait_quit (fuel : nat) (deadline : Z) (bundle_id : str) : M bool :=
  now <- time_time ;;
  if (now <? deadline)%Z then
    match fuel with
    | O => diverge
    | S fuel' =>
        n <- mac_count_running_procs bundle_id ;;
        if (n =? 0)%Z then ret true
        else time_sleep 300 ;; mac_wait_quit fuel' deadline bundle_id
    end
  else ret false.

(** [os.kill(pid, 9)] with ProcessLookupError passed over. *)
Definition kill_quietly (pid : Z) : M unit :=
  try_except (os_kill pid 9)
    (fun e => match e with ProcessLookupError => Some (ret tt) | _ => None end).

(** [timeout_ms] is [timeout_s] in milliseconds, a finite number.  An
    infinite [timeout_s], with which the loop has no deadline and runs for
    as long as the application does, and nan are outside the embedding. *)
Definition mac_quit_app (bundle_id : str) (timeout_ms : Z) (force_after_timeout : bool)
  : M unit :=
  subprocess_run ["osascript"; "-e"; quit_script bundle_id] false ;;
  now <- time_time ;;
  let deadline := (now + timeout_ms)%Z in
  returned <- mac_wait_quit (Z.to_nat timeout_ms) deadline bundle_id ;;
  if returned then ret tt
  else if force_after_timeout then
    pids <- mac_pids_for bundle_id ;;
    for_each kill_quietly pids
  else ret tt.

Definition activate_script (bundle_id : str) : str :=
  "tell application id " ++ q bundle_id ++ " to activate".

Definition mac_launch_app (bundle_id : str) : M unit :=
  subprocess_run ["open"; "-b"; bundle_id] true ;;
  subprocess_run ["osascript"; "-e"; activate_script bundle_id] false ;;
  ret tt.

(** *** Windows implementation *)

Definition ps_probe (exe : str) : list str :=
  [exe; "-NoProfile"; "-Command"; "$PSVersionTable.PSVersion"].

Definition ps_try (exe : str) (otherwise : M (list str)) : M (list str) :=
  try_except
    (subprocess_run (ps_probe exe) false ;; ret [exe; "-NoProfile"; "-Command"])
    (fun e => match e with FileNotFoundError _ => Some otherwise | _ => None end).

Definition ps_exe : M (list str) :=
  ps_try "powershell"
    (ps_try "pwsh"
       (raise (RuntimeError [Lit "PowerShell not found in PATH."]))).

Definition ps_run (script : str) (arg : option str) (check : bool) : M str :=
  exe <- ps_exe ;;
  let cmd := exe ++ [script] ++ match arg with Some a => [a] | None => [] end in
  res <- subprocess_run cmd check ;;
  ret (strip (snd res)).

Definition script_find_pids : str := block [
  "$search = $args[0]";
  "$like = " ++ q "*" ++ " + $search + " ++ q "*";
  "(Get-CimInstance Win32_Process |";
  "  Where-Object { $_.Name -like $like -or $_.CommandLine -like $like } |";
  "  Select-Object -ExpandProperty ProcessId) -join " ++ q "`n"
].

Definition win_find_running_pids (search : str) : M (list Z) :=
  out <- ps_run script_find_pids (Some search) false ;;
  ints_of (List.filter (fun x => isdigit (strip x)) (splitlines out)).

Definition script_exec_path : str := block [
  "$pid = [int]$args[0]";
  "try {";
  "  (Get-CimInstance Win32_Process -Filter " ++ q "ProcessId = $pid" ++ ").ExecutablePath";
  "} catch { " ++ q "" ++ " }"
].

Definition win_exec_path_for_pid (pid : Z) : M (option str) :=
  out <- ps_run script_exec_path (Some (str_of_Z pid)) false ;;
  let out := strip out in
  ret (match out with [] => None | _ => Some out end).

Definition script_is_alive : str := block [
  "$pid = [int]$args[0]";
  "try { $null = Get-Process -Id $pid -ErrorAction Stop; " ++ q "1" ++
    " } catch { " ++ q "0" ++ " }"
].

Definition win_is_pid_alive (pid : Z) : M bool :=
  out <- ps_run script_is_alive (Some (str_of_Z pid)) false ;;
  ret (eqb (strip out) "1").

Definition script_close : str := block [
  "param([int[]]$pids)";
  "$pids | ForEach-Object {";
  "  try {";
  "    $p = Get-Process -Id $_ -ErrorAction Stop";
  "    # CloseMainWindow() returns $true when a WM_CLOSE was sent";
  "    $null = $p.CloseMainWindow()";
  "  } catch {}";
  "}"
].

Definition script_kill : str := block [
  "param([int[]]$pids)";
  "$pids | ForEach-Object {";
  "  try { Stop-Process -Id $_ -Force -ErrorAction SilentlyContinue } catch {}";
  "}"
].

(** [",".join(map(str, pids))] *)
Definition pid_list (pids : list Z) : str := join "," (map str_of_Z pids).

(** The polling loop of [win_quit_pids]; [true] when it returned from inside
    the loop, [false] when the deadline passed. *)
Fixpoint win_wait_quit (fuel : nat) (deadline : Z) (pids : list Z) : M bool :=
  now <- time_time ;;
  if (now <? deadline)%Z then
    match fuel with
    | O => diverge
    | S fuel' =>
        alive <- filter_m win_is_pid_alive pids ;;
        match alive with
        | [] => ret true
        | _ => time_sleep 300 ;; win_wait_quit fuel' deadline pids
        end
    end
  else ret false.

(** [timeout_ms] is finite, as in [mac_quit_app]. *)
Definition win_quit_pids (pids : list Z) (timeout_ms : Z) (force_after_timeout : bool)
  : M unit :=
  match pids with
  | [] => ret tt
  | _ =>
      ps_run script_close (Some (pid_list pids)) false ;;
      now <- time_time ;;
      let deadline := (now + timeout_ms)%Z in
      returned <- win_wait_quit (Z.to_nat timeout_ms) deadline pids ;;
      if returned then ret tt
      else if force_after_timeout then
        ps_run script_kill (Some (pid_list pids)) false ;; ret tt
      else ret tt
  end.

Definition script_lnk : str := block [
  "$search = $args[0]";
  "$like = " ++ q "*" ++ " + $search + " ++ q "*";
  "$roots = @(" ++ q "$env:ProgramData\Microsoft\Windows\Start Menu\Programs" ++ ",";
  "           " ++ q "$env:AppData\Microsoft\Windows\Start Menu\Programs" ++ ")";
  "$lnk = Get-ChildItem $roots -Recurse -Filter *.lnk -ErrorAction SilentlyContinue |";
  "         Where-Object { $_.BaseName -like $like } |";
  "         Sort-Object FullName |";
  "         Select-Object -First 1 -ExpandProperty FullName";
  "if ($lnk) {";
  "  $wsh = New-Object -ComObject WScript.Shell";
  "  $target = $wsh.CreateShortcut($lnk).TargetPath";
  "  $target";
  "}"
].

Definition script_uwp : str := block [
  "$search = $args[0]";
  "$like = " ++ q "*" ++ " + $search + " ++ q "*";
  "try {";
  "  $app = Get-StartApps | Where-Object { $_.Name -like $like } | Select-Object -First 1";
  "  if ($app) { $app.AppID }";
  "} catch {}"
].

(** [fallback_from_pid] is tested for truth: [None] and the empty string
    both fail the test. *)
Definition win_resolve_launch_target (search : str) (fallback_from_pid : option str)
  : M (str * str) :=
  match fallback_from_pid with
  | Some (c :: p) => ret ("exe", c :: p)
  | _ =>
      out <- ps_run script_lnk (Some search) false ;;
      let lnk_target := strip out in
      match lnk_target with
      | _ :: _ => ret ("exe", lnk_target)
      | [] =>
          out <- ps_run script_uwp (Some search) false ;;
          let appid := strip out in
          match appid with
          | _ :: _ => ret ("uwp", appid)
          | [] => ret ("alias", search)
          end
      end
  end.

Definition script_launch_exe : str := block [
  "$exe = $args[0]";
  "Start-Process -FilePath $exe | Out-Null"
].

Definition script_launch_uwp : str := block [
  "$appid = $args[0]";
  "Start-Process (" ++ dq ++ "shell:AppsFolder\" ++ dq ++ " + $appid) | Out-Null"
].

Definition script_launch_alias : str := block [
  "$name = $args[0]";
  "Start-Process $name | Out-Null"
].

Definition win_launch (mode value : str) : M unit :=
  if eqb mode "exe" then
    ps_run script_launch_exe (Some value) true ;; ret tt
  else if eqb mode "uwp" then
    ps_run script_launch_uwp (Some value) true ;; ret tt
  else
    ps_run script_launch_alias (Some value) true ;; ret tt.

(** *** Orchestrator *)

(** [self._launch_info]: the tuples ("mac", bundle_id) and
    ("win", mode, target). *)
Inductive launch_info :=
| MacInfo (bundle_id : str)
| WinInfo (mode target : str).

Record AppRestarter := {
  search : str;
  timeout_ms : Z;
  force_after_timeout : bool;
  restart_if_not_running : bool;
  _platform : str;
  _should_restart : bool;
  _launch_info : option launch_info
}.

(** [AppRestarter(search, timeout_s=..., force_after_timeout=...,
    restart_if_not_running=...)] *)
Definition init (search : str) (timeout_ms : Z) (force_after_timeout : bool)
    (restart_if_not_running : bool) : M AppRestarter :=
  p <- platform ;;
  ret {| search := search;
         timeout_ms := timeout_ms;
         force_after_timeout := force_after_timeout;
         restart_if_not_running := restart_if_not_running;
         _platform := if eqb p "darwin" then "mac"
                      else if startswith p "win" then "win" else "other";
         _should_restart := false;
         _launch_info := None |}.

(** The two assignments of [__enter__] to the fields of [self]. *)
Definition entered (self : AppRestarter) (info : launch_info) (should : bool)
  : AppRestarter :=
  {| search := search self;
     timeout_ms := timeout_ms self;
     force_after_timeout := force_after_timeout self;
     restart_if_not_running := restart_if_not_running self;
     _platform := _platform self;
     _should_restart := should;
     _launch_info := Some info |}.

(** The loop of [__enter__] over the pids: the first executable path found. *)
Fixpoint first_exec_path (pids : list Z) : M (option str) :=
  match pids with
  | [] => ret None
  | pid :: rest =>
      path <- win_exec_path_for_pid pid ;;
      match path with
      | Some (c :: p) => ret (Some (c :: p))
      | _ => first_exec_path rest
      end
  end.

(** [__enter__]; the result is [self] after its updates. *)
Definition enter (self : AppRestarter) : M AppRestarter :=
  if eqb (_platform self) "mac" then
    app_path <- mac_mdfind_app (search self) ;;
    match app_path with
    | None =>
        raise (RuntimeError [Lit "[macOS] Could not find any application matching: ";
                             Repr (search self)])
    | Some app_path =>
        bid <- mac_bundle_id_for app_path ;;
        if eqb bid "" || eqb bid "(null)" then
          raise (RuntimeError [Lit "[macOS] Could not determine bundle id for: ";
                               Fmt (path_str app_path)])
        else
          n <- mac_count_running_procs bid ;;
          let was_running := (n >? 0)%Z in
          if was_running then
            mac_quit_app bid (timeout_ms self) (force_after_timeout self) ;;
            ret (entered self (MacInfo bid) true)
          else
            ret (entered self (MacInfo bid) (restart_if_not_running self))
    end
  else if eqb (_platform self) "win" then
    pids <- win_find_running_pids (search self) ;;
    found <- match pids with
             | _ :: _ =>
                 exe_from_running <- first_exec_path pids ;;
                 win_quit_pids pids (timeout_ms self) (force_after_timeout self) ;;
                 ret (exe_from_running, true)
             | [] => ret (None, restart_if_not_running self)
             end ;;
    let '(exe_from_running, should) := found in
    plan <- win_resolve_launch_target (search self) exe_from_running ;;
    let '(mode, target) := plan in
    ret (entered self (WinInfo mode target) should)
  else
    p <- platform ;;
    raise (RuntimeError [Lit "Unsupported platform: "; Fmt p]).

(** [_, bid = self._launch_info] *)
Definition unpack2 (info : launch_info) : M str :=
  match info with
  | MacInfo bid => ret bid
  | WinInfo _ _ => raise (ValueError [Lit "too many values to unpack (expected 2)"])
  end.

(** [_, mode, target = self._launch_info] *)
Definition unpack3 (info : launch_info) : M (str * str) :=
  match info with
  | WinInfo mode target => ret (mode, target)
  | MacInfo _ =>
      raise (ValueError [Lit "not enough values to unpack (expected 3, got 2)"])
  end.

(** [__exit__(exc_type, exc, tb)]; [exc] is the exception of the block, if
    any.  The result [false] tells the interpreter not to suppress it. *)
Definition exit_ (self : AppRestarter) (exc : option exn) : M bool :=
  try_finally_return
    (match _should_restart self, _launch_info self with
     | true, Some info =>
         if eqb (_platform self) "mac" then
           bid <- unpack2 info ;;
           mac_launch_app bid
         else if eqb (_platform self) "win" then
           plan <- unpack3 info ;;
           win_launch (fst plan) (snd plan)
         else ret tt
     | _, _ => ret tt
     end)
    false.

(** [with cm: body].  [Some v] is the value the block returned; [None] is a
    block whose exception [__exit__] suppressed. *)
Definition with_ {A} (cm : AppRestarter) (body : M A) : M (option A) :=
  self <- enter cm ;;
  fun w s =>
    match body w s with
    | (Ok v, s') => (exit_ self None ;; ret (Some v)) w s'
    | (Raise e, s') =>
        (suppress <- exit_ self (Some e) ;;
         if suppress then ret None else raise e) w s'
    | (Diverge, s') => (Diverge, s')
    end.

(** [with AppRestarter(search, ...): body] *)
Definition scope {A} (search : str) (timeout_ms : Z) (force_after_timeout : bool)
    (restart_if_not_running : bool) (body : M A) : M (option A) :=
  cm <- init search timeout_ms force_after_timeout restart_if_not_running ;;
  with_ cm body.

End Restarter.

(** ** elgato_prompter_text.py *)

Module PrompterText.
Import PyStr PathLib Os.

(** The character class [a-z0-9] of the slug pattern. *)
Definition slug_keep (c : ascii) : bool := is_ascii_lower c || is_decimal c.

(** [slugify] on the strings of code points below U+0100.
    [PrompterUni.slugify] is the function on every string; the two agree
    on this range ([SlugAgree.slugify_restricts]). *)
Definition slugify (value : str) (max_len : Z) : str :=
  let value := lower (strip value) in
  let value := sub_runs slug_keep "-" false value in
  let value := strip_chars "-" value in
  let value :=
    if (len value >? max_len)%Z then rstrip_chars "-" (slice_to value max_len)
    else value in
  match value with
  | [] => "prompt"
  | _ => value
  end.

(** [max_len: int = 48] *)
Definition default_max_len : Z := 48.

Definition SETTINGS_KEY : str := "applogic.prompter.libraryList".

(** What [json.load] returns.  A float is kept as the text of its literal. *)
Inductive json :=
| JNull
| JBool (b : bool)
| JInt (n : Z)
| JFloat (literal : str)
| JStr (s : str)
| JList (items : list json)
| JObject (members : gmap str json).

(** The content of a file: a JSON document, or text that is not JSON. *)
Inductive file :=
| Garbage
| Document (v : json).

(** The files, by the string of their path.  Directories and permissions
    are not modelled: creating directories and opening files succeed. *)
Definition Fs : Type := gmap str file.

(** AppSettings.json lives at the parent of the Texts directory. *)
Definition get_appsettings_path (texts_dir : Path) : Path :=
  resolve (child (parent texts_dir) "AppSettings.json").

Definition load_settings (settings_path : Path) (fs : Fs) : result (gmap str json) :=
  match fs !! path_str settings_path with
  | None => Ok ∅
  | Some Garbage => Raise (OtherError "JSONDecodeError" "")
  | Some (Document (JObject data)) => Ok data
  | Some (Document _) => Ok ∅
  end.

(** Write the temporary file, then move it over the settings file.  No
    string of this range holds a lone surrogate, so the write cannot fail
    here; [PrompterUni.save_settings] has the write that can. *)
Definition save_settings (settings_path : Path) (data : gmap str json) (fs : Fs) : Fs :=
  let tmp := with_suffix settings_path ".json.tmp" in
  let written := <[path_str tmp := Document (JObject data)]> fs in
  <[path_str settings_path := Document (JObject data)]> (delete (path_str tmp) written).

(** [g == v] for a str [g] and a value out of a JSON document. *)
Definition str_equals (g : str) (v : json) : bool :=
  match v with
  | JStr s => eqb g s
  | _ => false
  end.

(** [g in lst] *)
Definition str_in (g : str) (lst : list json) : bool := existsb (str_equals g) lst.

Definition settings_add_guid (texts_dir : Path) (guid : str) (fs : Fs)
  : result Path * Fs :=
  let spath := get_appsettings_path texts_dir in
  match load_settings spath fs with
  | Ok settings =>
      let lst := match settings !! SETTINGS_KEY with
                 | Some (JList lst) => lst
                 | _ => []
                 end in
      let guid_up := upper guid in
      let lst := if str_in guid_up lst then lst else lst ++ [JStr guid_up] in
      let settings := <[SETTINGS_KEY := JList lst]> settings in
      (Ok spath, save_settings spath settings fs)
  | Raise e => (Raise e, fs)
  | Diverge => (Diverge, fs)
  end.

End PrompterText.

(** ** Predicates used in the statements *)

Module Pred.
Import PyStr PathLib Os Restarter.

(** [x] occurs in [s] as a contiguous piece. *)
Definition infix_of {C} (x s : list C) : Prop := exists l r, s = l ++ x ++ r.

(** Two adjacent copies of the character [h] occur in [s]. *)
Fixpoint doubled (h : ascii) (s : str) : bool :=
  match s with
  | c :: (d :: _) as t => (Ascii.eqb c h && Ascii.eqb d h) || doubled h t
  | _ => false
  end.

Definition hyphen : ascii := "-"%char.

(** Lowercase ASCII letters, digits and the hyphen. *)
Definition slug_char (c : ascii) : Prop :=
  PrompterText.slug_keep c = true \/ c = hyphen.

(** Non-empty, made of lowercase ASCII letters, digits and hyphens, no
    hyphen first or last, no two hyphens in a row. *)
Definition well_formed_slug (r : str) : Prop :=
  r <> [] /\
  Forall slug_char r /\
  (forall b, r <> hyphen :: b) /\
  (forall a, r <> a ++ [hyphen]) /\
  (forall a b, r <> a ++ [hyphen; hyphen] ++ b).

(** Every run of [m] only appends system calls satisfying [P] to the log,
    and the clock does not go back. *)
Definition emits (P : syscall -> Prop) {A} (m : M A) : Prop :=
  forall w s, exists d,
    log (snd (m w s)) = log s ++ d /\ Forall P d /\ (clock s <= clock (snd (m w s)))%Z.

(** [m] always ends: it returns or raises. *)
Definition converges {A} (m : M A) : Prop :=
  forall w s, fst (m w s) <> Diverge.

(** The launch that [__exit__] performs for a recorded [launch_info]. *)
Definition relaunch (info : launch_info) : M unit :=
  match info with
  | MacInfo bundle_id => mac_launch_app bundle_id
  | WinInfo mode target => win_launch mode target
  end.

(** [__enter__] records the tuple of its own platform. *)
Definition info_matches (self : AppRestarter) (info : launch_info) : Prop :=
  match info with
  | MacInfo _ => _platform self = "mac"
  | WinInfo _ _ => _platform self = "win"
  end.

(** The system calls that start the application: [open -b ...] and the three
    Start-Process scripts. *)
Definition is_launch (e : syscall) : bool :=
  match e with
  | Spawn [prog; flag; _] => eqb prog "open" && eqb flag "-b"
  | Spawn [_; _; _; script; _] =>
      eqb script script_launch_exe || eqb script script_launch_uwp ||
      eqb script script_launch_alias
  | _ => false
  end.

Definition not_launch (e : syscall) : Prop := is_launch e = false.

Definition launches (d : list syscall) : nat := length (List.filter is_launch d).

Definition is_kill (e : syscall) : bool :=
  match e with
  | Kill _ _ => true
  | _ => false
  end.

(** The identifiers handed to the force-termination script, as written on
    its command line. *)
Definition force_kill_tokens (d : list syscall) : list str :=
  flat_map (fun e => match e with
                     | Spawn [_; _; _; script; arg] =>
                         if eqb script script_kill then split "," arg else []
                     | _ => []
                     end) d.

(** A system call that is not a signal. *)
Definition not_kill (e : syscall) : Prop := is_kill e = false.

(** A system call that is not a run of the force-termination script. *)
Definition not_force_kill (e : syscall) : Prop := force_kill_tokens [e] = [].

(** What the inventory of running instances answers when the scope is
    entered in state [s]: on macOS the process count of the located
    bundle, on Windows the list of matching process ids. *)
Definition observed_running (self : AppRestarter) (w : World) (s : St) : bool :=
  if eqb (_platform self) "mac" then
    match mac_mdfind_app (search self) w s with
    | (Ok (Some app_path), s1) =>
        match mac_bundle_id_for app_path w s1 with
        | (Ok bid, s2) =>
            match mac_count_running_procs bid w s2 with
            | (Ok n, _) => (n >? 0)%Z
            | _ => false
            end
        | _ => false
        end
    | _ => false
    end
  else
    match win_find_running_pids (search self) w s with
    | (Ok (_ :: _), _) => true
    | _ => false
    end.

(** [a <= b] on score tuples. *)
Definition key_le (a b : key) : Prop := key_ltb b a = false.

(** The list stored under the library-list key of the settings file beside
    [texts_dir]; empty when there is no such file, document or list. *)
Definition library_list (texts_dir : Path) (fs : PrompterText.Fs) : list PrompterText.json :=
  match fs !! path_str (PrompterText.get_appsettings_path texts_dir) with
  | Some (PrompterText.Document (PrompterText.JObject data)) =>
      match data !! PrompterText.SETTINGS_KEY with
      | Some (PrompterText.JList lst) => lst
      | _ => []
      end
  | _ => []
  end.

(** The list after [g] was added: as it was when it holds [g], with [g] at
    the end when it does not. *)
Definition added (g : str) (lst : list PrompterText.json) : list PrompterText.json :=
  if PrompterText.str_in g lst then lst else lst ++ [PrompterText.JStr g].

(** The settings file can be read: it is absent or holds a JSON document. *)
Definition readable (texts_dir : Path) (fs : PrompterText.Fs) : Prop :=
  fs !! path_str (PrompterText.get_appsettings_path texts_dir)
    <> Some PrompterText.Garbage.

End Pred.

(** ** Sample environments *)

Module Worlds.
Import PyStr PathLib Os Restarter.

Definition answer (rc : Z) (out : str) : spawned :=
  {| outcome := inr (rc, out); elapsed := 5 |}.

Definition no_such_program (prog : str) : spawned :=
  {| outcome := inl (FileNotFoundError prog); elapsed := 0 |}.

(** How often the program has slept so far. *)
Definition sleeps (h : list syscall) : nat :=
  length (List.filter (fun e => match e with Sleep _ => true | _ => false end) h).

Definition hub_id : str := "com.elgato.CameraHub".

(** The last argument of a command line. *)
Definition last_arg (argv : list str) : str := List.last argv "".

(** A Mac on which Camera Hub is installed and running; it quits during the
    second sleep after the request, and [open] fails with status 1. *)
Definition mac_busy : World := {|
  sys_platform := "darwin";
  spawn := fun h argv =>
    match argv with
    | prog :: _ =>
        if eqb prog "mdfind" then
          answer 0 ("/Users/me/Camera Hub.app" ++ nl ++
                    "/Applications/Camera Hub.app" ++ nl ++
                    "/Applications/Camera Hub Helper.app" ++ nl ++
                    "/Applications/Notes.txt")
        else if eqb prog "mdls" then answer 0 hub_id
        else if eqb prog "open" then answer 1 ""
        else if eqb (last_arg argv) (count_script hub_id) then
          answer 0 (if Nat.ltb (sleeps h) 2 then "1" else "0")
        else answer 0 ""
    | [] => answer 0 ""
    end;
  signal := fun _ _ _ => None
|}.

(** A Mac on which Camera Hub is installed and not running. *)
Definition mac_idle : World := {|
  sys_platform := "darwin";
  spawn := fun h argv =>
    match argv with
    | prog :: _ =>
        if eqb prog "mdfind" then answer 0 "/Applications/Camera Hub.app"
        else if eqb prog "mdls" then answer 0 hub_id
        else if eqb (last_arg argv) (count_script hub_id) then answer 0 "0"
        else answer 0 ""
    | [] => answer 0 ""
    end;
  signal := fun _ _ _ => None
|}.

(** A Mac whose content index knows nothing that matches. *)
Definition mac_bare : World := {|
  sys_platform := "darwin";
  spawn := fun _ _ => answer 0 "";
  signal := fun _ _ _ => None
|}.

(** A Windows host with PowerShell on which nothing matches: no process, no
    shortcut, no package. *)
Definition win_bare : World := {|
  sys_platform := "win32";
  spawn := fun _ _ => answer 0 "";
  signal := fun _ _ _ => None
|}.

(** A Windows host on which processes 111 and 222 match; 111 is gone at
    every liveness check, 222 never goes; a shortcut exists too. *)
Definition win_stuck : World := {|
  sys_platform := "win32";
  spawn := fun _ argv =>
    match argv with
    | [_; _; _; script; arg] =>
        if eqb script script_find_pids then answer 0 ("111" ++ nl ++ "222")
        else if eqb script script_is_alive then
          answer 0 (if eqb arg "222" then "1" else "0")
        else if eqb script script_exec_path then
          answer 0 (if eqb arg "222" then "C:\Program Files\Hub\Hub.exe" else "")
        else if eqb script script_lnk then answer 0 "C:\Shortcuts\Hub.exe"
        else answer 0 ""
    | _ => answer 0 ""
    end;
  signal := fun _ _ _ => None
|}.

Definition start : St := {| log := []; clock := 0 |}.

(** [AppRestarter("Camera Hub", restart_if_not_running=flag)] after
    [__init__] on the platform [p]. *)
Definition camera_hub (p : str) (flag : bool) : AppRestarter := {|
  search := "Camera Hub";
  timeout_ms := 20000;
  force_after_timeout := true;
  restart_if_not_running := flag;
  _platform := p;
  _should_restart := false;
  _launch_info := None
|}.

Definition key_error : exn := OtherError "KeyError" "friendlyName".

(** The Texts directory of the prompter. *)
Definition texts : Path := {| root := "/"; parts := ["Users"; "me"; "Texts"] |}.

End Worlds.

(** ** More of elgato_prompter_text.py *)

Module PrompterStore.
Import PyStr PathLib Os PrompterText.

(** [str(v)] for a value out of a JSON document: a string is itself; what
    the other values print as is left to [other]. *)
Definition py_str (other : json -> str) (v : json) : str :=
  match v with
  | JStr s => s
  | _ => other v
  end.

(** [x in to_remove] for the set [{g.upper() for g in guids}] *)
Definition in_upper_set (x : str) (guids : list str) : bool :=
  existsb (eqb x) (map upper guids).

(** [[g for g in lst if str(g).upper() not in to_remove]] *)
Definition without_guids (other : json -> str) (guids : list str) (lst : list json)
  : list json :=
  List.filter (fun g => negb (in_upper_set (upper (py_str other g)) guids)) lst.

Definition settings_remove_guids (other : json -> str) (texts_dir : Path)
    (guids : list str) (fs : Fs) : result Path * Fs :=
  let spath := get_appsettings_path texts_dir in
  match load_settings spath fs with
  | Ok settings =>
      let lst := match settings !! SETTINGS_KEY with
                 | Some (JList lst) => lst
                 | _ => []
                 end in
      let lst := without_guids other guids lst in
      let settings := <[SETTINGS_KEY := JList lst]> settings in
      (Ok spath, save_settings spath settings fs)
  | Raise e => (Raise e, fs)
  | Diverge => (Diverge, fs)
  end.

(** The lines a text file yields when iterated: line ends CR LF and CR are
    read as LF, and every line but perhaps the last ends in LF.  [cur] is
    the current line, reversed. *)
Fixpoint file_lines_from (cur : str) (text : str) : list str :=
  match text with
  | [] => match cur with [] => [] | _ => [rev cur] end
  | c :: t =>
      if code_is 10 c then rev (c :: cur) :: file_lines_from [] t
      else if code_is 13 c then
        rev (chr 10 :: cur) ::
          match t with
          | d :: t' => if code_is 10 d then file_lines_from [] t'
                       else file_lines_from [] t
          | [] => file_lines_from [] t
          end
      else file_lines_from (c :: cur) t
  end.

Definition file_lines (text : str) : list str := file_lines_from [] text.

(** [read_lines], on the decoded text of the file at [path] *)
Definition read_lines (text : str) : list str :=
  map (rstrip_chars [chr 10])
      (List.filter (fun line => negb (eqb (strip line) "")) (file_lines text)).

End PrompterStore.

(** ** More predicates for the statements *)

Module MorePred.
Import PyStr PathLib Os Restarter PrompterText Pred.

(** A request to stop the application: a signal, the quit request of
    [mac_quit_app], the close or the force-termination script of
    [win_quit_pids]. *)
Definition is_stop (e : syscall) : bool :=
  match e with
  | Kill _ _ => true
  | Spawn [prog; flag; script] =>
      eqb prog "osascript" && eqb flag "-e" && endswith script " to quit"
  | Spawn [_; _; _; script; _] => eqb script script_close || eqb script script_kill
  | _ => false
  end.

Definition not_stop (e : syscall) : Prop := is_stop e = false.

(** [s'] continues [s] by system calls that all satisfy [P]. *)
Definition appends (P : syscall -> Prop) (s s' : St) : Prop :=
  exists d, log s' = log s ++ d /\ Forall P d.

(** Between [s] and [s'] a request to stop the application was made. *)
Definition stop_sent (s s' : St) : Prop :=
  exists d, log s' = log s ++ d /\ Exists (fun e => is_stop e = true) d.

(** No line end of a text file occurs in [l]. *)
Definition one_line (l : str) : Prop :=
  Forall (fun c => code_is 10 c = false /\ code_is 13 c = false) l.

(** A chapter as [read_lines] gives it: not blank, and on one line. *)
Definition chapter (l : str) : Prop := strip l <> [] /\ one_line l.

(** The signals sent, in order. *)
Definition kills (d : list syscall) : list syscall := List.filter is_kill d.

(** How often the program slept. *)
Definition naps (d : list syscall) : Z :=
  Z.of_nat (length (List.filter (fun e => match e with Sleep _ => true | _ => false end) d)).

(** A system call that is not a sleep. *)
Definition no_nap (e : syscall) : Prop := naps [e] = 0%Z.

(** The bound on the sleeps [d] of a wait that starts in state [s]: none
    when the deadline has passed, fewer than the 300 ms steps that fit
    before it, plus one, otherwise. *)
Definition within (deadline : Z) (s : St) (d : list syscall) : Prop :=
  if (clock s <? deadline)%Z then (300 * naps d < deadline - clock s + 300)%Z
  else d = [].

(** A system call that, if it is a signal, is signal 9 to a process id that
    is not negative: not to every process (-1) and not to the process group
    that a negative id names.  The id 0, the process group of the caller,
    is not excluded. *)
Definition safe_signal (e : syscall) : Prop :=
  match e with
  | Kill pid sig => (0 <= pid)%Z /\ sig = 9%Z
  | _ => True
  end.


(** The path of the temporary file [save_settings] writes. *)
Definition tmp_path (texts_dir : Path) : Path :=
  with_suffix (get_appsettings_path texts_dir) ".json.tmp".

(** No entry of [lst] prints as [guid] in any letter case. *)
Definition unlisted (other : json -> str) (guid : str) (lst : list json) : Prop :=
  Forall (fun g => upper (PrompterStore.py_str other g) <> upper guid) lst.

(** A file system that holds only the settings file beside [Worlds.texts],
    with the library list [lst]. *)
Definition settings_with (lst : list json) : Fs :=
  <["/Users/me/AppSettings.json" :=
      Document (JObject (<[SETTINGS_KEY := JList lst]> ∅))]> ∅.

(** [str] of the values that are not strings, for the samples. *)
Definition blank (v : json) : str := "".

(** A Mac on which Camera Hub never quits; processes 41 and 42 are listed,
    and 42 is gone when it is signalled. *)
Definition mac_stubborn : World := {|
  sys_platform := "darwin";
  spawn := fun _ argv =>
    match argv with
    | prog :: _ =>
        if eqb prog "mdfind" then Worlds.answer 0 "/Applications/Camera Hub.app"
        else if eqb prog "mdls" then Worlds.answer 0 Worlds.hub_id
        else if eqb (Worlds.last_arg argv) (count_script Worlds.hub_id)
        then Worlds.answer 0 "1"
        else if eqb (Worlds.last_arg argv) (pids_script Worlds.hub_id)
        then Worlds.answer 0 "41, 42"
        else Worlds.answer 0 ""
    | [] => Worlds.answer 0 ""
    end;
  signal := fun _ pid _ => if (pid =? 42)%Z then Some ProcessLookupError else None
|}.

(** A Mac on which Camera Hub never quits and the listing of its process
    ids answers 0. *)
Definition mac_zero : World := {|
  sys_platform := "darwin";
  spawn := fun _ argv =>
    match argv with
    | prog :: _ =>
        if eqb (Worlds.last_arg argv) (count_script Worlds.hub_id)
        then Worlds.answer 0 "1"
        else if eqb (Worlds.last_arg argv) (pids_script Worlds.hub_id)
        then Worlds.answer 0 "0"
        else Worlds.answer 0 ""
    | [] => Worlds.answer 0 ""
    end;
  signal := fun _ _ _ => None
|}.

(** A Mac whose metadata store has no bundle identifier for the bundle. *)
Definition mac_anonymous : World := {|
  sys_platform := "darwin";
  spawn := fun _ argv =>
    match argv with
    | prog :: _ =>
        if eqb prog "mdfind" then Worlds.answer 0 "/Applications/Camera Hub.app"
        else if eqb prog "mdls" then Worlds.answer 0 "(null)"
        else Worlds.answer 0 ""
    | [] => Worlds.answer 0 ""
    end;
  signal := fun _ _ _ => None
|}.

(** A Linux host. *)
Definition linux_box : World := {|
  sys_platform := "linux";
  spawn := fun _ _ => Worlds.answer 0 "";
  signal := fun _ _ _ => None
|}.

(** A Windows host without Windows PowerShell, with PowerShell 7. *)
Definition win_pwsh_only : World := {|
  sys_platform := "win32";
  spawn := fun _ argv =>
    match argv with
    | prog :: _ =>
        if eqb prog "powershell" then Worlds.no_such_program "powershell"
        else Worlds.answer 1 ""
    | [] => Worlds.answer 0 ""
    end;
  signal := fun _ _ _ => None
|}.

(** A Windows host with no PowerShell at all. *)
Definition win_shellless : World := {|
  sys_platform := "win32";
  spawn := fun _ argv => Worlds.no_such_program (hd "" argv);
  signal := fun _ _ _ => None
|}.

End MorePred.

(** ** Strings over all code points *)

Module PyUni.
Import PyStr.

(** A Python [str] as the list of its code points.  A lone surrogate
    (U+D800..U+DFFF) is a code point like any other. *)
Definition ustr : Type := list N.

(** A string of [PyStr], read over all code points. *)
Definition widen (s : str) : ustr := map (fun c => N.of_nat (ord c)) s.

Definition between (lo hi c : N) : bool := ((lo <=? c) && (c <=? hi))%N.

(** [str.isspace] per character: the white space of [PyStr.is_space], and
    from U+0100 on U+1680, U+2000..U+200A, U+2028, U+2029, U+202F, U+205F
    and U+3000. *)
Definition is_space (c : N) : bool :=
  between 9 13 c || between 28 32 c || (c =? 0x85)%N || (c =? 0xA0)%N ||
  (c =? 0x1680)%N || between 0x2000 0x200A c || (c =? 0x2028)%N || (c =? 0x2029)%N ||
  (c =? 0x202F)%N || (c =? 0x205F)%N || (c =? 0x3000)%N.

Definition is_decimal (c : N) : bool := between 48 57 c.
Definition is_ascii_lower (c : N) : bool := between 97 122 c.
Definition is_ascii_upper (c : N) : bool := between 65 90 c.
Definition is_ascii_alnum (c : N) : bool :=
  is_ascii_lower c || is_ascii_upper c || is_decimal c.

(** [s.strip()] *)
Definition strip (s : ustr) : ustr := strip_with is_space s.

Definition char_in (chars : ustr) (c : N) : bool := existsb (N.eqb c) chars.

(** [s.strip(chars)] and [s.rstrip(chars)] *)
Definition strip_chars (chars s : ustr) : ustr := strip_with (char_in chars) s.
Definition rstrip_chars (chars s : ustr) : ustr := rstrip_with (char_in chars) s.

(** LATIN CAPITAL LETTER I WITH DOT ABOVE and KELVIN SIGN: the two code
    points outside ASCII whose lowercase form holds an ASCII letter. *)
Definition dotted_I : N := 0x130.
Definition kelvin : N := 0x212A.

(** The lowercase form of one code point.  ASCII and the two code points
    above are written out.  For every other code point the form is the one
    of the Unicode database of the interpreter, [tables]; it may depend on
    the text before and after (the final form of a capital sigma). *)
Definition lower_char (tables : ustr -> N -> ustr -> ustr)
    (before : ustr) (c : N) (after : ustr) : ustr :=
  if is_ascii_upper c then [(c + 32)%N]
  else if (c <? 128)%N then [c]
  else if (c =? dotted_I)%N then [0x69; 0x307]%N
  else if (c =? kelvin)%N then [0x6B]%N
  else tables before c after.

Fixpoint lower_from (tables : ustr -> N -> ustr -> ustr) (before s : ustr) : ustr :=
  match s with
  | [] => []
  | c :: after => lower_char tables before c after ++ lower_from tables (before ++ [c]) after
  end.

(** [s.lower()] *)
Definition lower (tables : ustr -> N -> ustr -> ustr) (s : ustr) : ustr :=
  lower_from tables [] s.

Definition is_surrogate (c : N) : bool := between 0xD800 0xDFFF c.

(** [s.encode("utf-8")] succeeds: no lone surrogate occurs in [s]. *)
Definition encodable (s : ustr) : bool := forallb (fun c => negb (is_surrogate c)) s.

End PyUni.

(** ** elgato_prompter_text.py over all code points

    [slugify] and the settings helpers once more, for every Python string:
    [PrompterText] has them for the code points below U+0100. *)

Module PrompterUni.
Import PyStr PathLib Os PyUni.

(** The character class [a-z0-9] of the slug pattern. *)
Definition slug_keep (c : N) : bool := is_ascii_lower c || is_decimal c.

Definition slugify (tables : ustr -> N -> ustr -> ustr) (value : ustr) (max_len : Z) : ustr :=
  let value := lower tables (strip value) in
  let value := sub_runs slug_keep (widen "-") false value in
  let value := strip_chars (widen "-") value in
  let value :=
    if (len value >? max_len)%Z then rstrip_chars (widen "-") (slice_to value max_len)
    else value in
  match value with
  | [] => widen "prompt"
  | _ => value
  end.

Definition SETTINGS_KEY : ustr := widen PrompterText.SETTINGS_KEY.

(** What [json.load] returns.  A float is kept as the text of its literal. *)
Inductive json :=
| JNull
| JBool (b : bool)
| JInt (n : Z)
| JFloat (literal : str)
| JStr (s : ustr)
| JList (items : list json)
| JObject (members : gmap ustr json).

(** The content of a file: a JSON document, or text that is not one. *)
Inductive file :=
| Garbage
| Document (v : json).

(** The files, by the string of their path.  Directories and permissions
    are not modelled: creating directories and opening files succeed. *)
Definition Fs : Type := gmap str file.

(** [json.dump(v, f, ensure_ascii=False)] into a UTF-8 text file succeeds:
    no string and no key of [v] holds a lone surrogate. *)
Fixpoint json_encodable (v : json) : bool :=
  match v with
  | JStr s => encodable s
  | JList items => forallb json_encodable items
  | JObject members =>
      map_fold (fun k v' rest => encodable k && json_encodable v' && rest) true members
  | _ => true
  end.

Definition load_settings (settings_path : Path) (fs : Fs) : result (gmap ustr json) :=
  match fs !! path_str settings_path with
  | None => Ok ∅
  | Some Garbage => Raise (OtherError "JSONDecodeError" "")
  | Some (Document (JObject data)) => Ok data
  | Some (Document _) => Ok ∅
  end.

(** Write the temporary file, then move it over the settings file.
    [json.dump] writes the document piece by piece: at the first string with
    a lone surrogate the write raises UnicodeEncodeError, the temporary file
    keeps the unfinished text written so far, and the move is not reached. *)
Definition save_settings (settings_path : Path) (data : gmap ustr json) (fs : Fs)
  : result unit * Fs :=
  let tmp := with_suffix settings_path ".json.tmp" in
  if json_encodable (JObject data) then
    let written := <[path_str tmp := Document (JObject data)]> fs in
    (Ok tt,
     <[path_str settings_path := Document (JObject data)]> (delete (path_str tmp) written))
  else
    (Raise (OtherError "UnicodeEncodeError" "surrogates not allowed"),
     <[path_str tmp := Garbage]> fs).

(** [g == v] for a str [g] and a value out of a JSON document. *)
Definition str_equals (g : ustr) (v : json) : bool :=
  match v with
  | JStr s => bool_decide (g = s)
  | _ => false
  end.

(** [g in lst] *)
Definition str_in (g : ustr) (lst : list json) : bool := existsb (str_equals g) lst.

(** [str(v)] for a value out of a JSON document: a string is itself; what
    the other values print as is left to [other]. *)
Definition py_str (other : json -> ustr) (v : json) : ustr :=
  match v with
  | JStr s => s
  | _ => other v
  end.

Section Upper.
(** [str.upper], as the Unicode database of the interpreter has it. *)
Variable upper : ustr -> ustr.

Definition settings_add_guid (texts_dir : Path) (guid : ustr) (fs : Fs)
  : result Path * Fs :=
  let spath := PrompterText.get_appsettings_path texts_dir in
  match load_settings spath fs with
  | Ok settings =>
      let lst := match settings !! SETTINGS_KEY with
                 | Some (JList lst) => lst
                 | _ => []
                 end in
      let guid_up := upper guid in
      let lst := if str_in guid_up lst then lst else lst ++ [JStr guid_up] in
      let settings := <[SETTINGS_KEY := JList lst]> settings in
      match save_settings spath settings fs with
      | (Ok _, fs') => (Ok spath, fs')
      | (Raise e, fs') => (Raise e, fs')
      | (Diverge, fs') => (Diverge, fs')
      end
  | Raise e => (Raise e, fs)
  | Diverge => (Diverge, fs)
  end.

(** [x in to_remove] for the set [{g.upper() for g in guids}] *)
Definition in_upper_set (x : ustr) (guids : list ustr) : bool :=
  existsb (fun y => bool_decide (x = y)) (map upper guids).

(** [[g for g in lst if str(g).upper() not in to_remove]] *)
Definition without_guids (other : json -> ustr) (guids : list ustr) (lst : list json)
  : list json :=
  List.filter (fun g => negb (in_upper_set (upper (py_str other g)) guids)) lst.

Definition settings_remove_guids (other : json -> ustr) (texts_dir : Path)
    (guids : list ustr) (fs : Fs) : result Path * Fs :=
  let spath := PrompterText.get_appsettings_path texts_dir in
  match load_settings spath fs with
  | Ok settings =>
      let lst := match settings !! SETTINGS_KEY with
                 | Some (JList lst) => lst
                 | _ => []
                 end in
      let lst := without_guids other guids lst in
      let settings := <[SETTINGS_KEY := JList lst]> settings in
      match save_settings spath settings fs with
      | (Ok _, fs') => (Ok spath, fs')
      | (Raise e, fs') => (Raise e, fs')
      | (Diverge, fs') => (Diverge, fs')
      end
  | Raise e => (Raise e, fs)
  | Diverge => (Diverge, fs)
  end.

End Upper.

End PrompterUni.

(** ** Predicates over all code points *)

Module UniPred.
Import PyStr PathLib Os PyUni PrompterUni.

Definition hyphen : N := 45.

(** Lowercase ASCII letters, digits and the hyphen. *)
Definition slug_char (c : N) : Prop := slug_keep c = true \/ c = hyphen.

(** Non-empty, made of lowercase ASCII letters, digits and hyphens, no
    hyphen first or last, no two hyphens in a row. *)
Definition well_formed_slug (r : ustr) : Prop :=
  r <> [] /\
  Forall slug_char r /\
  (forall b, r <> hyphen :: b) /\
  (forall a, r <> a ++ [hyphen]) /\
  (forall a b, r <> a ++ [hyphen; hyphen] ++ b).

(** No code point of [s] has an ASCII letter or digit in its lowercase
    form: none is an ASCII letter or digit, and none is U+0130 or U+212A.
    A string without alphanumeric characters, in the sense of
    [str.isalnum], is such a string; these two code points are letters. *)
Definition no_alnum (s : ustr) : Prop :=
  Forall (fun c => is_ascii_alnum c = false /\ c <> dotted_I /\ c <> kelvin) s.

(** What the statements need of the Unicode database: the lowercase form of
    a code point from U+0080 on, other than U+0130 and U+212A, holds no
    ASCII lowercase letter and no ASCII digit. *)
Definition lowercase_outside_ascii (tables : ustr -> N -> ustr -> ustr) : Prop :=
  forall before c after,
    (128 <= c)%N -> c <> dotted_I -> c <> kelvin ->
    Forall (fun d => slug_keep d = false) (tables before c after).

(** The database has the lowercase forms of U+0080..U+00FF that
    [PyStr.lower] has. *)
Definition latin1_forms (tables : ustr -> N -> ustr -> ustr) : Prop :=
  forall before c after,
    (128 <= c < 256)%N ->
    tables before c after = widen [PyStr.lower_char (chr (N.to_nat c))].

(** The list stored under the library-list key of the settings file beside
    [texts_dir]; empty when there is no such file, document or list. *)
Definition library_list (texts_dir : Path) (fs : Fs) : list json :=
  match fs !! path_str (PrompterText.get_appsettings_path texts_dir) with
  | Some (Document (JObject data)) =>
      match data !! SETTINGS_KEY with
      | Some (JList lst) => lst
      | _ => []
      end
  | _ => []
  end.

(** The list after [g] was added: as it was when it holds [g], with [g] at
    the end when it does not. *)
Definition added (g : ustr) (lst : list json) : list json :=
  if str_in g lst then lst else lst ++ [JStr g].

(** The settings file can be read: it is absent or holds a JSON document. *)
Definition readable (texts_dir : Path) (fs : Fs) : Prop :=
  fs !! path_str (PrompterText.get_appsettings_path texts_dir) <> Some Garbage.

(** The settings document beside [texts_dir], as [load_settings] reads it. *)
Definition settings_of (texts_dir : Path) (fs : Fs) : result (gmap ustr json) :=
  load_settings (PrompterText.get_appsettings_path texts_dir) fs.

(** Whatever [load_settings] reads beside [texts_dir] can be written back:
    no string and no key of it holds a lone surrogate. *)
Definition stored_encodable (texts_dir : Path) (fs : Fs) : Prop :=
  forall data, settings_of texts_dir fs = Ok data -> json_encodable (JObject data) = true.

(** The error of a write that meets a lone surrogate. *)
Definition encode_error : exn := OtherError "UnicodeEncodeError" "surrogates not allowed".


(** No entry of [lst] prints as [guid] in any letter case. *)
Definition unlisted (upper : ustr -> ustr) (other : json -> ustr) (guid : ustr)
    (lst : list json) : Prop :=
  Forall (fun g => upper (py_str other g) <> upper guid) lst.

(** A database that knows the Latin-1 forms and no others. *)
Definition latin1_only (before : ustr) (c : N) (after : ustr) : ustr :=
  if (c <? 256)%N then widen [PyStr.lower_char (chr (N.to_nat c))] else [c].

(** A database that knows no case forms: every code point is its own
    lowercase form.  For the samples. *)
Definition caseless (before : ustr) (c : N) (after : ustr) : ustr := [c].

(** An [upper] that knows the ASCII letters only.  For the samples. *)
Definition ascii_upper (s : ustr) : ustr :=
  map (fun c => if is_ascii_lower c then (c - 32)%N else c) s.

(** [str] of the values that are not strings, for the samples. *)
Definition blank (v : json) : ustr := [].

(** A file system that holds only the settings file beside [Worlds.texts],
    with the library list [lst]. *)
Definition settings_with (lst : list json) : Fs :=
  <["/Users/me/AppSettings.json" :=
      Document (JObject (<[SETTINGS_KEY := JList lst]> ∅))]> ∅.

End UniPred.

(** ** Facts about the string builtins *)

Module PyStrFacts.
Import PyStr PathLib Pred.

(** The builtins on sample inputs. *)

Example splitlines_sample :
  splitlines ("a" ++ [chr 10; chr 13; chr 10] ++ "b.app" ++ [chr 10]) = ["a"; ""; "b.app"].
Proof. reflexivity. Qed.

Example split_sample : split "," "1, 2,,3" = ["1"; " 2"; ""; "3"] /\ split "," "" = [""].
Proof. split; reflexivity. Qed.

Example int_sample :
  int " 12 " = Some 12%Z /\ int "-1_0" = Some (-10)%Z /\ int "007" = Some 7%Z /\
  int "1__0" = None /\ int "_1" = None /\ int "1_" = None /\ int "" = None /\
  int "1 2" = None.
Proof. repeat split; reflexivity. Qed.

Example int_space_sample :
  int ("12" ++ [chr 31]) = None /\ int ([chr 28] ++ "12") = None /\
  int ("12" ++ [chr 160]) = Some 12%Z /\ int ([chr 133; chr 9] ++ "12") = Some 12%Z.
Proof. repeat split; reflexivity. Qed.

Example superscript_sample : isdigit [chr 178] = true /\ int [chr 178] = None.
Proof. split; reflexivity. Qed.

Example str_of_Z_sample :
  str_of_Z 0 = "0" /\ str_of_Z 222 = "222" /\ str_of_Z (-1234) = "-1234".
Proof. repeat split; reflexivity. Qed.

Example case_sample : lower "Camera Hub" = "camera hub" /\ upper "ab-12z" = "AB-12Z".
Proof. split; reflexivity. Qed.

Example path_sample :
  path_str (path_of "//a/./b//c.app") = "//a/b/c.app" /\
  path_str (path_of "///a") = "/a" /\
  path_stem (path_of "/x/a.b.app") = "a.b" /\
  path_stem (path_of "/x/.app") = ".app" /\
  path_stem (path_of "/x/app.") = "app.".
Proof. repeat split; reflexivity. Qed.


Section Strips.
Context {C : Type}.
Implicit Types (p : C -> bool) (s t u l x y z a b pat : list C) (c d : C).

Lemma lstrip_with_suffix p s : exists a, s = a ++ lstrip_with p s.
Proof.
  induction s as [|c t [a IH]]; simpl.
  - exists []. reflexivity.
  - destruct (p c).
    + exists (c :: a). simpl. congruence.
    + exists []. reflexivity.
Qed.

Lemma lstrip_with_head p s c t : lstrip_with p s = c :: t -> p c = false.
Proof.
  induction s as [|d u IH]; simpl; [discriminate|].
  destruct (p d) eqn:E; [exact IH|].
  intros H. injection H as -> _. exact E.
Qed.

Lemma lstrip_with_snoc p l c :
  p c = false -> lstrip_with p (l ++ [c]) = lstrip_with p l ++ [c].
Proof.
  intros Hc. induction l as [|d u IH]; simpl.
  - rewrite Hc. reflexivity.
  - destruct (p d); [exact IH | reflexivity].
Qed.

Lemma rstrip_with_prefix p s : exists b, s = rstrip_with p s ++ b.
Proof.
  unfold rstrip_with. destruct (lstrip_with_suffix p (rev s)) as [a Ha].
  exists (rev a). rewrite <- rev_app_distr, <- Ha, rev_involutive. reflexivity.
Qed.

Lemma rstrip_with_last p s a c : rstrip_with p s = a ++ [c] -> p c = false.
Proof.
  unfold rstrip_with. intros H.
  apply (f_equal (@rev C)) in H. rewrite rev_involutive, rev_app_distr in H.
  simpl in H. eapply lstrip_with_head, H.
Qed.

Lemma rstrip_with_cons p c t :
  p c = false -> exists u, rstrip_with p (c :: t) = c :: u.
Proof.
  intros Hc. unfold rstrip_with. simpl.
  rewrite lstrip_with_snoc by exact Hc. rewrite rev_app_distr. simpl. eauto.
Qed.

Lemma rstrip_with_length p s : (length (rstrip_with p s) <= length s)%nat.
Proof.
  destruct (rstrip_with_prefix p s) as [b Hb].
  rewrite Hb at 2. rewrite length_app. lia.
Qed.


Lemma infix_refl s : infix_of s s.
Proof. exists [], []. rewrite app_nil_r. reflexivity. Qed.

Lemma infix_trans x y z : infix_of x y -> infix_of y z -> infix_of x z.
Proof.
  intros (l1 & r1 & ->) (l2 & r2 & ->).
  exists (l2 ++ l1), (r1 ++ r2). rewrite <- !app_assoc. reflexivity.
Qed.

Lemma lstrip_with_infix p s : infix_of (lstrip_with p s) s.
Proof.
  destruct (lstrip_with_suffix p s) as [a Ha].
  exists a, []. rewrite app_nil_r. exact Ha.
Qed.

Lemma rstrip_with_infix p s : infix_of (rstrip_with p s) s.
Proof. destruct (rstrip_with_prefix p s) as [b Hb]. exists [], b. exact Hb. Qed.

Lemma strip_with_infix p s : infix_of (strip_with p s) s.
Proof.
  eapply infix_trans; [apply rstrip_with_infix | apply lstrip_with_infix].
Qed.

Lemma firstn_infix n s : infix_of (firstn n s) s.
Proof. exists [], (skipn n s). simpl. symmetry. apply firstn_skipn. Qed.

Lemma infix_Forall (P : C -> Prop) x s :
  infix_of x s -> Forall P s -> Forall P x.
Proof.
  intros (l & r & ->) H.
  apply Forall_app in H as [_ H]. apply Forall_app in H as [H _]. exact H.
Qed.

Lemma infix_avoids pat x s :
  infix_of x s -> (forall a b, s <> a ++ pat ++ b) -> forall a b, x <> a ++ pat ++ b.
Proof.
  intros (l & r & ->) H a b ->. apply (H (l ++ a) (b ++ r)).
  rewrite <- !app_assoc. reflexivity.
Qed.

End Strips.


Lemma doubled_cons h c d u :
  doubled h (c :: d :: u) = (Ascii.eqb c h && Ascii.eqb d h) || doubled h (d :: u).
Proof. reflexivity. Qed.

Lemma doubled_spec h s : doubled h s = false -> forall a b, s <> a ++ [h; h] ++ b.
Proof.
  intros H a. revert s H. induction a as [|x a IH]; intros s H b ->.
  - simpl in H. rewrite !Ascii.eqb_refl in H. discriminate.
  - remember (a ++ [h; h] ++ b) as rest eqn:E.
    change ((x :: a) ++ [h; h] ++ b) with (x :: (a ++ [h; h] ++ b)) in H.
    rewrite <- E in H. destruct rest as [|d u].
    + destruct a; discriminate.
    + rewrite doubled_cons in H. apply orb_false_iff in H as [_ H].
      eapply IH; [exact H | exact E].
Qed.

Section SubRuns.
Context {C : Type}.
Variable keep : C -> bool.
Variable h : C.
Hypothesis keep_h : keep h = false.

Lemma sub_runs_Forall b s :
  Forall (fun c => keep c = true \/ c = h) (sub_runs keep [h] b s).
Proof.
  revert b. induction s as [|c t IH]; intros b; simpl; [constructor|].
  destruct (keep c) eqn:E.
  - constructor; [left; exact E | apply IH].
  - destruct b; [apply IH|]. simpl. constructor; [right; reflexivity | apply IH].
Qed.

Lemma sub_runs_in_run_head s c t :
  sub_runs keep [h] true s = c :: t -> keep c = true.
Proof.
  induction s as [|d u IH]; simpl; [discriminate|].
  destruct (keep d) eqn:E; [|exact IH].
  intros H. injection H as -> _. exact E.
Qed.

(** The replacement never comes twice in a row. *)
Lemma sub_runs_no_pair s : forall b x y,
  sub_runs keep [h] b s <> x ++ [h; h] ++ y.
Proof.
  induction s as [|c t IH]; intros b x y; cbn [sub_runs].
  - destruct x; discriminate.
  - destruct (keep c) eqn:E.
    + destruct x as [|d x]; simpl.
      * intros H. injection H as -> _. congruence.
      * intros H. injection H as _ H. exact (IH false x y H).
    + destruct b; [apply IH|]. cbn [app].
      destruct x as [|d x]; simpl.
      * intros H. injection H as H. apply sub_runs_in_run_head in H. congruence.
      * intros H. injection H as _ H. exact (IH true x y H).
Qed.

Lemma sub_runs_nothing_kept s :
  forallb (fun c => negb (keep c)) s = true ->
  sub_runs keep [h] true s = [] /\
  (sub_runs keep [h] false s = [] \/ sub_runs keep [h] false s = [h]).
Proof.
  induction s as [|c t IH]; simpl; [auto|].
  intros H. apply andb_true_iff in H as [Hc Ht].
  apply negb_true_iff in Hc. rewrite Hc.
  destruct (IH Ht) as [IH1 _]. rewrite IH1. auto.
Qed.
End SubRuns.

Section SubRunsAscii.
Variable keep : ascii -> bool.
Variable h : ascii.
Hypothesis keep_h : keep h = false.

Lemma sub_runs_not_doubled b s : doubled h (sub_runs keep [h] b s) = false.
Proof.
  revert b. induction s as [|c t IH]; intros b; cbn [sub_runs]; [reflexivity|].
  destruct (keep c) eqn:E.
  - specialize (IH false). destruct (sub_runs keep [h] false t) as [|d u] eqn:Et;
      [reflexivity|].
    rewrite doubled_cons, IH, orb_false_r. apply andb_false_iff. left.
    destruct (Ascii.eqb_spec c h) as [->|]; [congruence | reflexivity].
  - destruct b; [apply IH|]. cbn [app].
    specialize (IH true). destruct (sub_runs keep [h] true t) as [|d u] eqn:Et;
      [reflexivity|].
    rewrite doubled_cons, IH, orb_false_r. apply andb_false_iff. right.
    apply sub_runs_in_run_head in Et.
    destruct (Ascii.eqb_spec d h) as [->|]; [congruence | reflexivity].
Qed.
End SubRunsAscii.

(** [split] undoes [join] when no part contains the separator. *)
Lemma split_from_app sep cur x t :
  Forall (fun c => c <> sep) x ->
  split_from sep cur (x ++ t) = split_from sep (rev x ++ cur) t.
Proof.
  intros H. revert cur. induction H as [|c x Hc _ IH]; intros cur; simpl; [reflexivity|].
  destruct (Ascii.eqb_spec c sep) as [->|_]; [congruence|].
  rewrite IH, <- app_assoc. reflexivity.
Qed.

Lemma split_join sep parts :
  parts <> [] ->
  Forall (Forall (fun c => c <> sep)) parts ->
  split sep (join [sep] parts) = parts.
Proof.
  unfold split. intros Hne H. induction H as [|x rest Hx Hrest IH]; [congruence|].
  destruct rest as [|y ys].
  - simpl. rewrite <- (app_nil_r x) at 1. rewrite split_from_app by exact Hx.
    simpl. rewrite app_nil_r, rev_involutive. reflexivity.
  - change (join [sep] (x :: y :: ys)) with (x ++ sep :: join [sep] (y :: ys)).
    rewrite split_from_app by exact Hx. simpl. rewrite Ascii.eqb_refl.
    rewrite app_nil_r, rev_involutive. f_equal. apply IH. discriminate.
Qed.

Lemma decimal_digit_not_comma n : (n < 10)%nat -> chr (48 + n) <> ","%char.
Proof.
  intros H. do 10 (destruct n as [|n]; [discriminate|]). lia.
Qed.

Lemma digits_of_pos_no_comma fuel : forall n acc,
  Forall (fun c => c <> ","%char) acc ->
  Forall (fun c => c <> ","%char) (digits_of_pos fuel n acc).
Proof.
  induction fuel as [|fuel IH]; intros n acc Hacc; simpl; [exact Hacc|].
  assert (Hd : chr (48 + N.to_nat (n mod 10)) <> ","%char).
  { apply decimal_digit_not_comma.
    pose proof (N.mod_upper_bound n 10). lia. }
  destruct (n <? 10)%N; [|apply IH]; constructor; assumption.
Qed.

Lemma str_of_Z_no_comma z : Forall (fun c => c <> ","%char) (str_of_Z z).
Proof.
  unfold str_of_Z.
  destruct (z <? 0)%Z; [constructor; [discriminate|]|];
    apply digits_of_pos_no_comma; constructor.
Qed.

Lemma str_of_Z_list_no_comma l :
  Forall (Forall (fun c => c <> ","%char)) (map str_of_Z l).
Proof.
  induction l as [|z l IH]; simpl; constructor; [apply str_of_Z_no_comma | exact IH].
Qed.

End PyStrFacts.


(** ** slugify *)

Module SlugProofs.
Import PyStr Pred PyStrFacts PrompterText.

Lemma slug_keep_hyphen : slug_keep hyphen = false.
Proof. reflexivity. Qed.

Lemma char_in_hyphen c : char_in "-" c = true <-> c = hyphen.
Proof.
  unfold char_in, hyphen. simpl. rewrite orb_false_r.
  destruct (Ascii.eqb_spec c "-"); split; congruence.
Qed.

Lemma char_in_hyphen_false c : char_in "-" c = false -> c <> hyphen.
Proof.
  intros H Hc. apply char_in_hyphen in Hc. congruence.
Qed.

Lemma prompt_well_formed : well_formed_slug "prompt".
Proof.
  unfold well_formed_slug. repeat split.
  - discriminate.
  - repeat constructor.
  - discriminate.
  - intros a H. apply (f_equal (@rev ascii)) in H.
    rewrite rev_app_distr in H. discriminate.
  - apply doubled_spec. reflexivity.
Qed.

(** The string before truncation: class members only, hyphens single and
    not at either end. *)
Lemma stripped_runs_shape s :
  let v := strip_chars "-" (sub_runs slug_keep "-" false s) in
  Forall slug_char v /\
  (forall b, v <> hyphen :: b) /\
  (forall a, v <> a ++ [hyphen]) /\
  (forall a b, v <> a ++ [hyphen; hyphen] ++ b).
Proof.
  intros v. subst v. unfold strip_chars.
  set (w := sub_runs slug_keep "-" false s).
  assert (Hinf : infix_of (strip_with (char_in "-") w) w) by apply strip_with_infix.
  repeat split.
  - eapply infix_Forall; [exact Hinf|]. apply sub_runs_Forall.
  - intros b H. unfold strip_with in H.
    destruct (rstrip_with_prefix (char_in "-") (lstrip_with (char_in "-") w)) as [x Hx].
    rewrite H in Hx. simpl in Hx. apply lstrip_with_head in Hx.
    apply char_in_hyphen_false in Hx. congruence.
  - intros a H. apply rstrip_with_last in H.
    apply char_in_hyphen_false in H. congruence.
  - eapply infix_avoids; [exact Hinf|].
    apply doubled_spec, sub_runs_not_doubled, slug_keep_hyphen.
Qed.

End SlugProofs.

(** ** The log only grows *)

Module OsFacts.
Import PyStr PathLib Os Restarter Pred.

Lemma bind_ok {A B} (m : M A) (k : A -> M B) w s a s' :
  m w s = (Ok a, s') -> bind m k w s = k a w s'.
Proof. unfold bind. intros ->. reflexivity. Qed.

Lemma bind_raise {A B} (m : M A) (k : A -> M B) w s e s' :
  m w s = (Raise e, s') -> bind m k w s = (Raise e, s').
Proof. unfold bind. intros ->. reflexivity. Qed.

Lemma bind_diverge {A B} (m : M A) (k : A -> M B) w s s' :
  m w s = (Diverge, s') -> bind m k w s = (Diverge, s').
Proof. unfold bind. intros ->. reflexivity. Qed.

Section Emits.
Variable P : syscall -> Prop.

Lemma emits_ret {A} (a : A) : emits P (ret a).
Proof.
  intros w s. exists []. simpl. rewrite app_nil_r. repeat split; [constructor | lia].
Qed.

Lemma emits_raise {A} e : emits P (@raise A e).
Proof.
  intros w s. exists []. simpl. rewrite app_nil_r. repeat split; [constructor | lia].
Qed.

Lemma emits_diverge {A} : emits P (@diverge A).
Proof.
  intros w s. exists []. simpl. rewrite app_nil_r. repeat split; [constructor | lia].
Qed.

Lemma emits_seq {A} (m : M A) w s s1 s2 :
  emits P m ->
  s1 = snd (m w s) ->
  (exists d, log s2 = log s1 ++ d /\ Forall P d /\ (clock s1 <= clock s2)%Z) ->
  exists d, log s2 = log s ++ d /\ Forall P d /\ (clock s <= clock s2)%Z.
Proof.
  intros Hm -> (d2 & E2 & F2 & C2).
  destruct (Hm w s) as (d1 & E1 & F1 & C1).
  exists (d1 ++ d2). rewrite E2, E1, app_assoc. repeat split.
  - apply Forall_app. split; assumption.
  - lia.
Qed.

Lemma emits_bind {A B} (m : M A) (k : A -> M B) :
  emits P m -> (forall a, emits P (k a)) -> emits P (bind m k).
Proof.
  intros Hm Hk w s. unfold bind.
  destruct (m w s) as [[a|e|] s1] eqn:E.
  - eapply emits_seq; [exact Hm | rewrite E; reflexivity | apply Hk].
  - specialize (Hm w s). rewrite E in Hm. exact Hm.
  - specialize (Hm w s). rewrite E in Hm. exact Hm.
Qed.

Lemma emits_try_except {A} (m : M A) h :
  emits P m -> (forall e k, h e = Some k -> emits P k) -> emits P (try_except m h).
Proof.
  intros Hm Hh w s. unfold try_except.
  destruct (m w s) as [[a|e|] s1] eqn:E.
  - specialize (Hm w s). rewrite E in Hm. exact Hm.
  - destruct (h e) as [k|] eqn:Ek.
    + eapply emits_seq; [exact Hm | rewrite E; reflexivity | apply (Hh e k Ek)].
    + specialize (Hm w s). rewrite E in Hm. exact Hm.
  - specialize (Hm w s). rewrite E in Hm. exact Hm.
Qed.

Lemma emits_try_finally_return {A B} (m : M A) (v : B) :
  emits P m -> emits P (try_finally_return m v).
Proof.
  intros Hm w s. unfold try_finally_return. specialize (Hm w s).
  destruct (m w s) as [[a|e|] s1]; exact Hm.
Qed.

Lemma emits_subprocess_run argv check :
  P (Spawn argv) -> emits P (subprocess_run argv check).
Proof.
  intros HP w s. exists [Spawn argv]. unfold subprocess_run.
  destruct (outcome (spawn w (log s) argv)) as [e|[rc out]];
    [|destruct (check && negb (rc =? 0)%Z)]; simpl;
    (repeat split; [repeat constructor; exact HP | lia]).
Qed.

Lemma emits_os_kill pid sig : P (Kill pid sig) -> emits P (os_kill pid sig).
Proof.
  intros HP w s. exists [Kill pid sig]. unfold os_kill.
  destruct (signal w (log s) pid sig); simpl;
    (repeat split; [repeat constructor; exact HP | lia]).
Qed.

Lemma emits_time_time : emits P time_time.
Proof.
  intros w s. exists []. simpl. rewrite app_nil_r. repeat split; [constructor | lia].
Qed.

Lemma emits_platform : emits P platform.
Proof.
  intros w s. exists []. simpl. rewrite app_nil_r. repeat split; [constructor | lia].
Qed.

Lemma emits_time_sleep ms : (0 <= ms)%Z -> P (Sleep ms) -> emits P (time_sleep ms).
Proof.
  intros Hms HP w s. exists [Sleep ms]. simpl.
  repeat split; [repeat constructor; exact HP | lia].
Qed.

Lemma emits_for_each {A} (f : A -> M unit) xs :
  (forall x, emits P (f x)) -> emits P (for_each f xs).
Proof.
  intros Hf. induction xs as [|x rest IH]; simpl.
  - apply emits_ret.
  - apply emits_bind; [apply Hf | intros _; exact IH].
Qed.

Lemma emits_filter_m {A} (p : A -> M bool) xs :
  (forall x, emits P (p x)) -> emits P (filter_m p xs).
Proof.
  intros Hp. induction xs as [|x rest IH]; simpl.
  - apply emits_ret.
  - apply emits_bind; [apply Hp | intros b].
    apply emits_bind; [exact IH | intros keep; apply emits_ret].
Qed.

Lemma emits_ints_of xs : emits P (ints_of xs).
Proof.
  induction xs as [|x rest IH]; simpl.
  - apply emits_ret.
  - destruct (int x); [|apply emits_raise].
    apply emits_bind; [exact IH | intros ns; apply emits_ret].
Qed.
End Emits.

End OsFacts.

(** ** Termination of the polling loops *)

Module Termination.
Import PyStr PathLib Os Restarter Pred OsFacts.

Lemma converges_ret {A} (a : A) : converges (ret a).
Proof. intros w s. discriminate. Qed.

Lemma converges_raise {A} e : converges (@raise A e).
Proof. intros w s. discriminate. Qed.

Lemma converges_bind {A B} (m : M A) (k : A -> M B) :
  converges m -> (forall a, converges (k a)) -> converges (bind m k).
Proof.
  intros Hm Hk w s. unfold bind. specialize (Hm w s).
  destruct (m w s) as [[a|e|] s1]; simpl in *; [apply Hk | discriminate | congruence].
Qed.

Lemma converges_try_except {A} (m : M A) h :
  converges m -> (forall e k, h e = Some k -> converges k) -> converges (try_except m h).
Proof.
  intros Hm Hh w s. unfold try_except. specialize (Hm w s).
  destruct (m w s) as [[a|e|] s1]; simpl in *; [discriminate | | congruence].
  destruct (h e) as [k|] eqn:E; [apply (Hh e k E) | discriminate].
Qed.

Lemma converges_try_finally_return {A B} (m : M A) (v : B) :
  converges m -> converges (try_finally_return m v).
Proof.
  intros Hm w s. unfold try_finally_return. specialize (Hm w s).
  destruct (m w s) as [[a|e|] s1]; simpl in *; [discriminate | discriminate | congruence].
Qed.

Lemma converges_subprocess_run argv check : converges (subprocess_run argv check).
Proof.
  intros w s. unfold subprocess_run.
  destruct (outcome (spawn w (log s) argv)) as [e|[rc out]];
    [|destruct (check && negb (rc =? 0)%Z)]; discriminate.
Qed.

Lemma converges_os_kill pid sig : converges (os_kill pid sig).
Proof.
  intros w s. unfold os_kill. destruct (signal w (log s) pid sig); discriminate.
Qed.

Lemma converges_time_time : converges time_time.
Proof. intros w s. discriminate. Qed.

Lemma converges_time_sleep ms : converges (time_sleep ms).
Proof. intros w s. discriminate. Qed.

Lemma converges_platform : converges platform.
Proof. intros w s. discriminate. Qed.

Lemma converges_for_each {A} (f : A -> M unit) xs :
  (forall x, converges (f x)) -> converges (for_each f xs).
Proof.
  intros Hf. induction xs as [|x rest IH]; simpl.
  - apply converges_ret.
  - apply converges_bind; [apply Hf | intros _; exact IH].
Qed.

Lemma converges_filter_m {A} (p : A -> M bool) xs :
  (forall x, converges (p x)) -> converges (filter_m p xs).
Proof.
  intros Hp. induction xs as [|x rest IH]; simpl.
  - apply converges_ret.
  - apply converges_bind; [apply Hp | intros b].
    apply converges_bind; [exact IH | intros keep; apply converges_ret].
Qed.

Lemma converges_ints_of xs : converges (ints_of xs).
Proof.
  induction xs as [|x rest IH]; simpl.
  - apply converges_ret.
  - destruct (int x); [|apply converges_raise].
    apply converges_bind; [exact IH | intros ns; apply converges_ret].
Qed.

Create HintDb conv discriminated.
#[export] Hint Resolve converges_ret converges_raise converges_subprocess_run
  converges_os_kill converges_time_time converges_time_sleep converges_platform
  converges_ints_of : conv.
#[export] Hint Extern 2 (converges (bind _ _)) =>
  apply converges_bind; [|intro] : conv.
#[export] Hint Extern 2 (converges (for_each _ _)) =>
  apply converges_for_each; intro : conv.
#[export] Hint Extern 2 (converges (filter_m _ _)) =>
  apply converges_filter_m; intro : conv.
#[export] Hint Extern 3 (converges (match ?x with _ => _ end)) => destruct x : conv.
#[export] Hint Extern 3 (converges (if ?x then _ else _)) => destruct x : conv.

Lemma converges_run cmd check : converges (run cmd check).
Proof. unfold run. auto with conv. Qed.
#[export] Hint Resolve converges_run : conv.

Lemma converges_mac_mdfind_app search : converges (mac_mdfind_app search).
Proof. unfold mac_mdfind_app. auto 6 with conv. Qed.

Lemma converges_mac_bundle_id_for p : converges (mac_bundle_id_for p).
Proof. unfold mac_bundle_id_for. auto with conv. Qed.

Lemma converges_mac_count_running_procs bid : converges (mac_count_running_procs bid).
Proof. unfold mac_count_running_procs. auto with conv. Qed.

Lemma converges_mac_pids_for bid : converges (mac_pids_for bid).
Proof. unfold mac_pids_for. auto with conv. Qed.

Lemma converges_kill_quietly pid : converges (kill_quietly pid).
Proof.
  unfold kill_quietly. apply converges_try_except; [auto with conv|].
  intros e k H. destruct e; try discriminate. injection H as <-. auto with conv.
Qed.

Lemma converges_mac_launch_app bid : converges (mac_launch_app bid).
Proof. unfold mac_launch_app. auto with conv. Qed.

Lemma converges_ps_try exe k : converges k -> converges (ps_try exe k).
Proof.
  intros Hk. unfold ps_try. apply converges_try_except; [auto with conv|].
  intros e k' H. destruct e; try discriminate. injection H as <-. exact Hk.
Qed.

Lemma converges_ps_exe : converges ps_exe.
Proof. unfold ps_exe. repeat apply converges_ps_try. auto with conv. Qed.
#[export] Hint Resolve converges_mac_mdfind_app converges_mac_bundle_id_for
  converges_mac_count_running_procs converges_mac_pids_for converges_kill_quietly
  converges_mac_launch_app converges_ps_exe : conv.

Lemma converges_ps_run script arg check : converges (ps_run script arg check).
Proof. unfold ps_run. auto with conv. Qed.
#[export] Hint Resolve converges_ps_run : conv.

Lemma converges_win_find_running_pids search : converges (win_find_running_pids search).
Proof. unfold win_find_running_pids. auto with conv. Qed.

Lemma converges_win_exec_path_for_pid pid : converges (win_exec_path_for_pid pid).
Proof. unfold win_exec_path_for_pid. auto with conv. Qed.

Lemma converges_win_is_pid_alive pid : converges (win_is_pid_alive pid).
Proof. unfold win_is_pid_alive. auto with conv. Qed.

Lemma converges_win_resolve_launch_target search fb :
  converges (win_resolve_launch_target search fb).
Proof. unfold win_resolve_launch_target. auto 8 with conv. Qed.

Lemma converges_win_launch mode value : converges (win_launch mode value).
Proof. unfold win_launch. auto 6 with conv. Qed.
#[export] Hint Resolve converges_win_find_running_pids converges_win_exec_path_for_pid
  converges_win_is_pid_alive converges_win_resolve_launch_target
  converges_win_launch : conv.

Lemma clock_mono {A} (m : M A) w s :
  emits (fun _ => True) m -> (clock s <= clock (snd (m w s)))%Z.
Proof. intros H. destruct (H w s) as (d & _ & _ & C). exact C. Qed.

Create HintDb emit discriminated.
#[export] Hint Resolve emits_ret emits_raise emits_diverge emits_time_time
  emits_platform emits_ints_of : emit.
#[export] Hint Extern 2 (emits _ (bind _ _)) => apply emits_bind; [|intro] : emit.
#[export] Hint Extern 2 (emits _ (subprocess_run _ _)) =>
  apply emits_subprocess_run : emit.
#[export] Hint Extern 2 (emits _ (os_kill _ _)) => apply emits_os_kill : emit.
#[export] Hint Extern 2 (emits _ (time_sleep _)) =>
  apply emits_time_sleep; [lia|] : emit.
#[export] Hint Extern 2 (emits _ (for_each _ _)) => apply emits_for_each; intro : emit.
#[export] Hint Extern 2 (emits _ (filter_m _ _)) => apply emits_filter_m; intro : emit.
#[export] Hint Extern 3 (emits _ (match ?x with _ => _ end)) => destruct x : emit.
#[export] Hint Extern 3 (emits _ (if ?x then _ else _)) => destruct x : emit.
#[export] Hint Extern 1 True => exact I : emit.

Lemma ticks_mac_count_running_procs bid :
  emits (fun _ => True) (mac_count_running_procs bid).
Proof. unfold mac_count_running_procs, run. auto 6 with emit. Qed.

Lemma ticks_ps_exe : emits (fun _ => True) ps_exe.
Proof.
  unfold ps_exe, ps_try.
  repeat (apply emits_try_except; [auto with emit|];
          intros e k H; destruct e; try discriminate; injection H as <-).
  auto with emit.
Qed.

Lemma ticks_win_is_pid_alive pid : emits (fun _ => True) (win_is_pid_alive pid).
Proof.
  unfold win_is_pid_alive, ps_run.
  apply emits_bind; [|intro; auto with emit].
  apply emits_bind; [apply ticks_ps_exe | intro; auto 6 with emit].
Qed.

Lemma mac_wait_quit_converges fuel : forall deadline bid w s,
  (deadline - clock s <= Z.of_nat fuel)%Z ->
  fst (mac_wait_quit fuel deadline bid w s) <> Diverge.
Proof.
  induction fuel as [|fuel IH]; intros deadline bid w s Hfuel.
  - simpl. unfold bind, time_time.
    destruct (clock s <? deadline)%Z eqn:E; [|discriminate].
    apply Z.ltb_lt in E. lia.
  - simpl. unfold bind at 1. unfold time_time.
    destruct (clock s <? deadline)%Z eqn:E; [|discriminate].
    unfold bind at 1.
    pose proof (converges_mac_count_running_procs bid w s) as Hc.
    pose proof (clock_mono _ w s (ticks_mac_count_running_procs bid)) as Hm.
    destruct (mac_count_running_procs bid w s) as [[n|e|] s1]; simpl in Hc, Hm;
      [|discriminate|congruence].
    destruct (n =? 0)%Z; [discriminate|].
    unfold bind, time_sleep. apply IH. simpl. lia.
Qed.

Lemma win_wait_quit_converges fuel : forall deadline pids w s,
  (deadline - clock s <= Z.of_nat fuel)%Z ->
  fst (win_wait_quit fuel deadline pids w s) <> Diverge.
Proof.
  induction fuel as [|fuel IH]; intros deadline pids w s Hfuel.
  - simpl. unfold bind, time_time.
    destruct (clock s <? deadline)%Z eqn:E; [|discriminate].
    apply Z.ltb_lt in E. lia.
  - simpl. unfold bind at 1. unfold time_time.
    destruct (clock s <? deadline)%Z eqn:E; [|discriminate].
    unfold bind at 1.
    assert (Hc : converges (filter_m win_is_pid_alive pids)) by auto with conv.
    specialize (Hc w s).
    assert (Hm : emits (fun _ => True) (filter_m win_is_pid_alive pids)).
    { apply emits_filter_m. intro. apply ticks_win_is_pid_alive. }
    apply (clock_mono _ w s) in Hm.
    destruct (filter_m win_is_pid_alive pids w s) as [[alive|e|] s1]; simpl in Hc, Hm;
      [|discriminate|congruence].
    destruct alive; [discriminate|].
    unfold bind, time_sleep. apply IH. simpl. lia.
Qed.

(** The fuel that [mac_quit_app] gives its loop is enough: the call always
    returns or raises. *)
Lemma converges_mac_quit_app bid timeout force : converges (mac_quit_app bid timeout force).
Proof.
  intros w s. unfold mac_quit_app. unfold bind at 1.
  pose proof (converges_subprocess_run ["osascript"; "-e"; quit_script bid] false w s) as H0.
  destruct (subprocess_run _ false w s) as [[r|e|] s1]; simpl in H0;
    [|discriminate|congruence].
  unfold bind at 1. unfold time_time. unfold bind at 1.
  assert (Hf : (clock s1 + timeout - clock s1 <= Z.of_nat (Z.to_nat timeout))%Z) by lia.
  pose proof (mac_wait_quit_converges _ _ bid w s1 Hf) as H1.
  destruct (mac_wait_quit _ _ bid w s1) as [[returned|e|] s2]; simpl in H1;
    [|discriminate|congruence].
  assert (Hk : converges (if returned then ret tt
                          else if force then pids <- mac_pids_for bid ;;
                                             for_each kill_quietly pids
                          else ret tt)) by auto 6 with conv.
  apply Hk.
Qed.

(** Likewise for [win_quit_pids]. *)
Lemma converges_win_quit_pids pids timeout force : converges (win_quit_pids pids timeout force).
Proof.
  intros w s. unfold win_quit_pids. destruct pids as [|p ps]; [discriminate|].
  set (pids := p :: ps). unfold bind at 1.
  pose proof (converges_ps_run script_close (Some (pid_list pids)) false w s) as H0.
  destruct (ps_run _ _ false w s) as [[r|e|] s1]; simpl in H0;
    [|discriminate|congruence].
  unfold bind at 1. unfold time_time. unfold bind at 1.
  assert (Hf : (clock s1 + timeout - clock s1 <= Z.of_nat (Z.to_nat timeout))%Z) by lia.
  pose proof (win_wait_quit_converges _ _ pids w s1 Hf) as H1.
  destruct (win_wait_quit _ _ pids w s1) as [[returned|e|] s2]; simpl in H1;
    [|discriminate|congruence].
  assert (Hk : converges (if returned then ret tt
                          else if force then
                                 ps_run script_kill (Some (pid_list pids)) false ;; ret tt
                          else ret tt)) by auto 6 with conv.
  apply Hk.
Qed.
#[export] Hint Resolve converges_mac_quit_app converges_win_quit_pids : conv.

Lemma converges_first_exec_path pids : converges (first_exec_path pids).
Proof.
  induction pids as [|pid rest IH]; simpl; [auto with conv|].
  apply converges_bind; [auto with conv | intros [[|c p]|]; auto with conv].
Qed.
#[export] Hint Resolve converges_first_exec_path : conv.

Lemma converges_enter self : converges (enter self).
Proof.
  unfold enter.
  destruct (eqb (_platform self) "mac"); [auto 10 with conv|].
  destruct (eqb (_platform self) "win"); [|auto with conv].
  apply converges_bind; [auto with conv | intros pids].
  apply converges_bind; [destruct pids; auto 6 with conv | intros [exe should]].
  apply converges_bind; [auto with conv | intros [mode target]; auto with conv].
Qed.

Lemma converges_exit self exc : converges (exit_ self exc).
Proof.
  unfold exit_. apply converges_try_finally_return.
  destruct (_should_restart self), (_launch_info self) as [info|]; auto with conv.
  unfold unpack2, unpack3.
  destruct (eqb (_platform self) "mac"); [destruct info; auto 6 with conv|].
  destruct (eqb (_platform self) "win"); [destruct info; auto 6 with conv|].
  auto with conv.
Qed.

(** A scope ends whenever the work inside it ends. *)
Lemma converges_with {A} self (body : M A) : converges body -> converges (with_ self body).
Proof.
  intros Hb. unfold with_. apply converges_bind; [apply converges_enter | intros self'].
  intros w s. specialize (Hb w s).
  destruct (body w s) as [[v|e|] s1]; simpl in Hb; [| |congruence].
  - apply converges_bind; [apply converges_exit | auto with conv].
  - apply converges_bind; [apply converges_exit | intros []; auto with conv].
Qed.

End Termination.

(** ** The restart scope *)

Module ScopeFacts.
Import PyStr PathLib Os Restarter Pred Worlds OsFacts Termination.

Lemma eqb_eq (a b : str) : eqb a b = true <-> a = b.
Proof. unfold eqb. apply bool_decide_eq_true. Qed.

Lemma eqb_refl (a : str) : eqb a a = true.
Proof. apply eqb_eq. reflexivity. Qed.

(** [__exit__] never raises and never asks to suppress. *)
Lemma exit_returns_false self exc w s : fst (exit_ self exc w s) = Ok false.
Proof.
  pose proof (converges_exit self exc w s) as H. revert H.
  unfold exit_, try_finally_return.
  match goal with |- context [match ?m w s with _ => _ end] => destruct (m w s) as [[a|e|] s1] end;
    simpl; congruence.
Qed.

Lemma exit_without_restart self exc w s :
  _should_restart self = false -> exit_ self exc w s = (Ok false, s).
Proof. intros H. unfold exit_, try_finally_return. rewrite H. reflexivity. Qed.

Lemma exit_runs_relaunch self info exc w s :
  _should_restart self = true ->
  _launch_info self = Some info ->
  info_matches self info ->
  snd (exit_ self exc w s) = snd (relaunch info w s).
Proof.
  intros Hs Hi Hm. unfold exit_, try_finally_return. rewrite Hs, Hi.
  destruct info as [bid|mode target]; simpl in Hm; rewrite Hm; simpl.
  - change (eqb "mac" "mac") with true. cbv iota. unfold unpack2, bind at 1, ret.
    destruct (mac_launch_app bid w s) as [[a|e|] s1]; reflexivity.
  - change (eqb "win" "mac") with false. change (eqb "win" "win") with true. cbv iota.
    unfold unpack3, bind at 1, ret. simpl.
    destruct (win_launch mode target w s) as [[a|e|] s1]; reflexivity.
Qed.

Lemma launches_app d1 d2 : launches (d1 ++ d2) = (launches d1 + launches d2)%nat.
Proof. unfold launches. rewrite List.filter_app, length_app. reflexivity. Qed.

Lemma launches_none d : Forall not_launch d -> launches d = 0%nat.
Proof.
  unfold launches. induction 1 as [|e d He _ IH]; simpl; [reflexivity|].
  unfold not_launch in He. rewrite He. exact IH.
Qed.

Lemma launches_one e : (launches [e] <= 1)%nat.
Proof. unfold launches. simpl. destruct (is_launch e); simpl; lia. Qed.

Lemma quiet_ps_exe : emits not_launch ps_exe.
Proof.
  unfold ps_exe, ps_try.
  repeat (apply emits_try_except;
          [apply emits_bind; [apply emits_subprocess_run; reflexivity | intro; apply emits_ret]|];
          intros e k H; destruct e; try discriminate; injection H as <-).
  apply emits_raise.
Qed.

Lemma ps_run_launches script arg check w s :
  exists d, log (snd (ps_run script arg check w s)) = log s ++ d /\ (launches d <= 1)%nat.
Proof.
  unfold ps_run, bind at 1.
  destruct (quiet_ps_exe w s) as (d0 & E0 & F0 & _).
  destruct (ps_exe w s) as [[exe|e|] s1]; simpl in E0.
  - unfold bind, subprocess_run, ret.
    exists (d0 ++ [Spawn (exe ++ [script] ++ match arg with Some a => [a] | None => [] end)]).
    split.
    + destruct (outcome _) as [e|[rc out]]; [|destruct (check && negb (rc =? 0)%Z)];
        simpl; rewrite E0, app_assoc; reflexivity.
    + rewrite launches_app, (launches_none d0 F0). apply launches_one.
  - exists d0. simpl. rewrite (launches_none d0 F0). split; [exact E0 | lia].
  - exists d0. simpl. rewrite (launches_none d0 F0). split; [exact E0 | lia].
Qed.

Lemma step_launches {A} (m : M A) w s :
  (exists d, log (snd (m w s)) = log s ++ d /\ (launches d <= 1)%nat) ->
  exists d, log (snd ((m ;; ret tt) w s)) = log s ++ d /\ (launches d <= 1)%nat.
Proof.
  unfold bind, ret. destruct (m w s) as [[a|e|] s1]; simpl; auto.
Qed.

(** One relaunch issues at most one launching command. *)
Lemma relaunch_launches info w s :
  exists d, log (snd (relaunch info w s)) = log s ++ d /\ (launches d <= 1)%nat.
Proof.
  destruct info as [bid|mode target]; simpl.
  - unfold mac_launch_app, bind, subprocess_run, ret. simpl.
    destruct (outcome (spawn w (log s) ["open"; "-b"; bid])) as [e|[rc out]].
    + exists [Spawn ["open"; "-b"; bid]]. split; [reflexivity | apply launches_one].
    + destruct (negb (rc =? 0)%Z).
      * exists [Spawn ["open"; "-b"; bid]]. split; [reflexivity | apply launches_one].
      * exists [Spawn ["open"; "-b"; bid];
                Spawn ["osascript"; "-e"; activate_script bid]].
        split; [|unfold launches; simpl; lia].
        destruct (outcome _) as [e|[rc' out']]; simpl; rewrite <- app_assoc; reflexivity.
  - unfold win_launch.
    destruct (eqb mode "exe"); [|destruct (eqb mode "uwp")];
      apply step_launches, ps_run_launches.
Qed.

Ltac absurd_raise := try (unfold raise; intros; discriminate).




(** C2: an exception raised by the work inside the scope reaches the
    invoker as it is, after the exit has run, whatever the relaunch on
    exit does. *)
Theorem caller_exception_propagates {A} self (body : M A) w s self' s1 e s2 :
  enter self w s = (Ok self', s1) ->
  body w s1 = (Raise e, s2) ->
  with_ self body w s = (Raise e, snd (exit_ self' (Some e) w s2)).
Proof.
  intros He Hb. unfold with_. rewrite (bind_ok _ _ _ _ _ _ He), Hb.
  unfold bind. pose proof (exit_returns_false self' (Some e) w s2) as Hx.
  destruct (exit_ self' (Some e) w s2) as [r s3]. simpl in Hx. subst r. reflexivity.
Qed.

Lemma caller_exception_witness :
  fst (with_ (camera_hub "mac" false) (@raise Z key_error) mac_busy start)
    = Raise key_error.
Proof.
  assert (H : enter (camera_hub "mac" false) mac_busy start
              = (Ok (entered (camera_hub "mac" false) (MacInfo hub_id) true),
                 snd (enter (camera_hub "mac" false) mac_busy start)))
    by (vm_compute; reflexivity).
  rewrite (caller_exception_propagates _ (@raise Z key_error) _ _ _ _ key_error _ H eq_refl).
  reflexivity.
Defined.

(** C3: when the relaunch performed on exit raises, [__exit__] still
    returns False without raising, whether or not the work in the scope
    raised. *)
Theorem relaunch_error_not_propagated self info exc w s e s' :
  _should_restart self = true ->
  _launch_info self = Some info ->
  info_matches self info ->
  relaunch info w s = (Raise e, s') ->
  exit_ self exc w s = (Ok false, s').
Proof.
  intros Hs Hi Hm Hr.
  pose proof (exit_returns_false self exc w s) as H1.
  pose proof (exit_runs_relaunch self info exc w s Hs Hi Hm) as H2.
  rewrite Hr in H2. simpl in H2.
  destruct (exit_ self exc w s) as [r s3]. simpl in *. congruence.
Qed.

Lemma relaunch_error_witness :
  fst (relaunch (MacInfo hub_id) mac_busy start)
    = Raise (CalledProcessError 1 ["open"; "-b"; hub_id]) /\
  fst (exit_ (entered (camera_hub "mac" false) (MacInfo hub_id) true)
         (Some key_error) mac_busy start) = Ok false.
Proof.
  split; [vm_compute; reflexivity|].
  erewrite (relaunch_error_not_propagated
              (entered (camera_hub "mac" false) (MacInfo hub_id) true)
              (MacInfo hub_id) (Some key_error) mac_busy start);
    [reflexivity | reflexivity | reflexivity | reflexivity | vm_compute; reflexivity].
Defined.

Lemma with_after_enter {A} self (body : M A) w s self' s1 v s2 :
  enter self w s = (Ok self', s1) ->
  body w s1 = (Ok v, s2) ->
  with_ self body w s = (Ok (Some v), snd (exit_ self' None w s2)).
Proof.
  intros He Hb. unfold with_. rewrite (bind_ok _ _ _ _ _ _ He), Hb.
  unfold bind, ret. pose proof (exit_returns_false self' None w s2) as Hx.
  destruct (exit_ self' None w s2) as [r s3]. simpl in Hx. subst r. reflexivity.
Qed.

(** C4, as the code has it: on macOS, when the locator finds no bundle,
    entering raises RuntimeError right after the query, for whatever work
    was to run in the scope; on Windows, when no process, no shortcut and no
    package matches, entering succeeds with the plan to launch the search
    text by name and with the restart flag equal to
    [restart_if_not_running], the work in the scope runs, and the exit
    launches by name exactly when [restart_if_not_running] is true. *)
Theorem entering_when_nothing_matches self w s :
  (_platform self = "mac" ->
   forall s1, mac_mdfind_app (search self) w s = (Ok None, s1) ->
   forall A (body : M A),
     with_ self body w s =
       (Raise (RuntimeError [Lit "[macOS] Could not find any application matching: ";
                             Repr (search self)]), s1)) /\
  (_platform self = "win" ->
   forall s1 o2 s2 o3 s3,
     win_find_running_pids (search self) w s = (Ok [], s1) ->
     ps_run script_lnk (Some (search self)) false w s1 = (Ok o2, s2) ->
     strip o2 = [] ->
     ps_run script_uwp (Some (search self)) false w s2 = (Ok o3, s3) ->
     strip o3 = [] ->
     enter self w s =
       (Ok (entered self (WinInfo "alias" (search self)) (restart_if_not_running self)),
        s3) /\
     forall A (body : M A) v s4,
       body w s3 = (Ok v, s4) ->
       with_ self body w s =
         (Ok (Some v),
          if restart_if_not_running self
          then snd (win_launch "alias" (search self) w s4)
          else s4)).
Proof.
  split.
  - intros Hp s1 Hfind A body. unfold with_, enter. rewrite Hp.
    change (eqb "mac" "mac") with true. cbv iota.
    unfold bind at 1. unfold bind at 1. rewrite Hfind. reflexivity.
  - intros Hp s1 o2 s2 o3 s3 Hpids Hlnk E2 Huwp E3.
    assert (He : enter self w s =
                 (Ok (entered self (WinInfo "alias" (search self))
                        (restart_if_not_running self)), s3)).
    { unfold enter. rewrite Hp.
      change (eqb "win" "mac") with false. change (eqb "win" "win") with true. cbv iota.
      unfold bind at 1. rewrite Hpids. unfold bind at 1, ret at 1.
      unfold win_resolve_launch_target.
      unfold bind at 1. unfold bind at 1. rewrite Hlnk, E2.
      unfold bind at 1. rewrite Huwp, E3. reflexivity. }
    split; [exact He|].
    intros A body v s4 Hb. rewrite (with_after_enter _ _ _ _ _ _ _ _ He Hb). f_equal.
    destruct (restart_if_not_running self) eqn:Ef.
    + apply (exit_runs_relaunch _ (WinInfo "alias" (search self)));
        [reflexivity | reflexivity | exact Hp].
    + rewrite exit_without_restart by reflexivity. reflexivity.
Qed.

Lemma entering_witness :
  (forall body : M Z,
     with_ (camera_hub "mac" true) body mac_bare start =
       (Raise (RuntimeError [Lit "[macOS] Could not find any application matching: ";
                             Repr "Camera Hub"]),
        snd (mac_mdfind_app "Camera Hub" mac_bare start))) /\
  fst (enter (camera_hub "win" false) win_bare start) =
    Ok (entered (camera_hub "win" false) (WinInfo "alias" "Camera Hub") false).
Proof.
  split.
  - intros body.
    apply (proj1 (entering_when_nothing_matches (camera_hub "mac" true) mac_bare start));
      [reflexivity | vm_compute; reflexivity].
  - assert (H1 : win_find_running_pids "Camera Hub" win_bare start
                 = (Ok [], snd (win_find_running_pids "Camera Hub" win_bare start)))
      by (vm_compute; reflexivity).
    set (s1 := snd (win_find_running_pids "Camera Hub" win_bare start)) in *.
    assert (H2 : ps_run script_lnk (Some "Camera Hub") false win_bare s1
                 = (Ok [], snd (ps_run script_lnk (Some "Camera Hub") false win_bare s1)))
      by (vm_compute; reflexivity).
    set (s2 := snd (ps_run script_lnk (Some "Camera Hub") false win_bare s1)) in *.
    assert (H3 : ps_run script_uwp (Some "Camera Hub") false win_bare s2
                 = (Ok [], snd (ps_run script_uwp (Some "Camera Hub") false win_bare s2)))
      by (vm_compute; reflexivity).
    exact (f_equal fst
             (proj1 (proj2 (entering_when_nothing_matches (camera_hub "win" false)
                              win_bare start)
                       eq_refl _ _ _ _ _ H1 H2 eq_refl H3 eq_refl))).
Defined.

(** C4 fails on Windows: nothing matches "Camera Hub", neither a process
    nor a shortcut nor a package, and yet the scope is entered, the work
    inside it runs and returns, and one launching command is issued on
    exit. *)
Lemma entering_bare_windows_counterexample :
  fst (win_find_running_pids "Camera Hub" win_bare start) = Ok [] /\
  (forall s, fst (ps_run script_lnk (Some "Camera Hub") false win_bare s) = Ok []) /\
  (forall s, fst (ps_run script_uwp (Some "Camera Hub") false win_bare s) = Ok []) /\
  fst (with_ (camera_hub "win" true) (ret 1%Z) win_bare start) = Ok (Some 1%Z) /\
  launches (log (snd (with_ (camera_hub "win" true) (ret 1%Z) win_bare start))) = 1%nat.
Proof.
  repeat split; try intros s; vm_compute; reflexivity.
Qed.

End ScopeFacts.

(** ** Stopping and resolving *)

Module LifecycleFacts.
Import PyStr PathLib Os Restarter Pred Worlds PyStrFacts OsFacts Termination ScopeFacts.

Lemma emits_bind_ok (P : syscall -> Prop) {A B} (m : M A) (k : A -> M B) :
  emits P m ->
  (forall a, (exists w s s', m w s = (Ok a, s')) -> emits P (k a)) ->
  emits P (bind m k).
Proof.
  intros Hm Hk w s. unfold bind.
  destruct (m w s) as [[a|e|] s1] eqn:E.
  - eapply emits_seq; [exact Hm | rewrite E; reflexivity | apply Hk; eauto].
  - specialize (Hm w s). rewrite E in Hm. exact Hm.
  - specialize (Hm w s). rewrite E in Hm. exact Hm.
Qed.

(** [ps_exe] returns the prefix of a PowerShell command line. *)
Lemma ps_exe_shape w s l s' :
  ps_exe w s = (Ok l, s') -> exists exe, l = [exe; "-NoProfile"; "-Command"].
Proof.
  unfold ps_exe, ps_try, try_except, bind, ret, raise.
  destruct (subprocess_run (ps_probe "powershell") false w s) as [[r|e|] s1].
  - intros H. injection H as <- _. eauto.
  - destruct e; try discriminate.
    destruct (subprocess_run (ps_probe "pwsh") false w s1) as [[r|e|] s2].
    + intros H. injection H as <- _. eauto.
    + destruct e; discriminate.
    + discriminate.
  - discriminate.
Qed.

Lemma ps_exe_emits (P : syscall -> Prop) :
  (forall exe, P (Spawn (ps_probe exe))) -> emits P ps_exe.
Proof.
  intros HP. unfold ps_exe, ps_try.
  repeat (apply emits_try_except;
          [apply emits_bind; [apply emits_subprocess_run, HP | intro; apply emits_ret]|];
          intros e k H; destruct e; try discriminate; injection H as <-).
  apply emits_raise.
Qed.

Lemma ps_run_emits (P : syscall -> Prop) script arg check :
  (forall exe, P (Spawn (ps_probe exe))) ->
  (forall exe, P (Spawn ([exe; "-NoProfile"; "-Command"] ++ [script] ++
                         match arg with Some a => [a] | None => [] end))) ->
  emits P (ps_run script arg check).
Proof.
  intros Hprobe Hcmd. unfold ps_run.
  apply emits_bind_ok; [apply ps_exe_emits, Hprobe|].
  intros l (w & s & s' & H). apply ps_exe_shape in H as [exe ->].
  apply emits_bind; [apply emits_subprocess_run, Hcmd | intro; apply emits_ret].
Qed.

Lemma force_kill_tokens_app d1 d2 :
  force_kill_tokens (d1 ++ d2) = force_kill_tokens d1 ++ force_kill_tokens d2.
Proof. unfold force_kill_tokens. apply flat_map_app. Qed.

Lemma force_kill_tokens_none d : Forall not_force_kill d -> force_kill_tokens d = [].
Proof.
  induction 1 as [|e d He _ IH]; [reflexivity|].
  change (e :: d) with ([e] ++ d). rewrite force_kill_tokens_app, He, IH. reflexivity.
Qed.

Lemma quiet_ps_run script arg check :
  eqb script script_kill = false -> emits not_force_kill (ps_run script arg check).
Proof.
  intros Hs. apply ps_run_emits; intros exe; [reflexivity|].
  unfold not_force_kill. destruct arg; simpl; [rewrite Hs|]; reflexivity.
Qed.

Lemma quiet_win_is_pid_alive pid : emits not_force_kill (win_is_pid_alive pid).
Proof.
  unfold win_is_pid_alive.
  apply emits_bind; [apply quiet_ps_run; vm_compute; reflexivity | intro; apply emits_ret].
Qed.

Lemma quiet_win_wait_quit fuel deadline pids :
  emits not_force_kill (win_wait_quit fuel deadline pids).
Proof.
  induction fuel as [|fuel IH]; simpl.
  - apply emits_bind; [apply emits_time_time | intros now].
    destruct (now <? deadline)%Z; [apply emits_diverge | apply emits_ret].
  - apply emits_bind; [apply emits_time_time | intros now].
    destruct (now <? deadline)%Z; [|apply emits_ret].
    apply emits_bind; [apply emits_filter_m; intro; apply quiet_win_is_pid_alive|].
    intros [|a alive]; [apply emits_ret|].
    apply emits_bind; [apply emits_time_sleep; [lia | reflexivity] | intro; exact IH].
Qed.

Lemma log_of {A} (P : syscall -> Prop) (m : M A) w s r s' :
  emits P m -> m w s = (r, s') -> exists d, log s' = log s ++ d /\ Forall P d.
Proof.
  intros Hm E. destruct (Hm w s) as (d & Hd & F & _). rewrite E in Hd. eauto.
Qed.

(** What [win_quit_pids] hands to the force-termination script: when the
    wait ends by timeout and [force_after_timeout] is true, every process
    id of the original list, the ones seen gone included; when the wait ends
    because none was alive, or [force_after_timeout] is false, nothing. *)
Lemma force_kill_covers_all_pids pids timeout force w s o s1 returned s2 exe s3 :
  pids <> [] ->
  ps_run script_close (Some (pid_list pids)) false w s = (Ok o, s1) ->
  win_wait_quit (Z.to_nat timeout) (clock s1 + timeout) pids w s1 = (Ok returned, s2) ->
  ps_exe w s2 = (Ok exe, s3) ->
  exists d,
    log (snd (win_quit_pids pids timeout force w s)) = log s ++ d /\
    force_kill_tokens d = if negb returned && force then map str_of_Z pids else [].
Proof.
  intros Hne Hclose Hwait Hexe.
  destruct (log_of not_force_kill _ _ _ _ _
              (quiet_ps_run script_close (Some (pid_list pids)) false eq_refl) Hclose)
    as (d1 & E1 & F1).
  destruct (log_of not_force_kill _ _ _ _ _ (quiet_win_wait_quit _ _ _) Hwait)
    as (d2 & E2 & F2).
  destruct (log_of not_force_kill _ _ _ _ _
              (ps_exe_emits not_force_kill (fun _ => eq_refl)) Hexe)
    as (d3 & E3 & F3).
  apply force_kill_tokens_none in F1, F2, F3.
  unfold win_quit_pids. destruct pids as [|p ps]; [congruence|].
  set (pids := p :: ps) in *.
  rewrite (bind_ok _ _ _ _ _ _ Hclose). unfold bind at 1. unfold time_time.
  rewrite (bind_ok _ _ _ _ _ _ Hwait).
  destruct returned; [|destruct force]; simpl negb; simpl andb; cbv iota.
  - exists (d1 ++ d2). simpl. rewrite E2, E1, app_assoc, force_kill_tokens_app, F1, F2.
    split; reflexivity.
  - unfold ps_run. unfold bind at 1. rewrite (bind_ok _ _ _ _ _ _ Hexe).
    destruct (ps_exe_shape _ _ _ _ Hexe) as [x ->].
    exists (d1 ++ d2 ++ d3 ++
            [Spawn ([x; "-NoProfile"; "-Command"] ++ [script_kill] ++ [pid_list pids])]).
    split.
    + unfold bind, subprocess_run, ret.
      destruct (outcome _) as [e|[rc out]]; simpl;
        rewrite E3, E2, E1, <- !app_assoc; reflexivity.
    + rewrite !force_kill_tokens_app, F1, F2, F3. simpl.
      change (eqb script_kill script_kill) with true. cbv iota.
      rewrite app_nil_r. unfold pid_list. apply (split_join ","%char).
      * discriminate.
      * apply (str_of_Z_list_no_comma (p :: ps)).
  - exists (d1 ++ d2). simpl. rewrite E2, E1, app_assoc, force_kill_tokens_app, F1, F2.
    split; reflexivity.
Qed.

Lemma force_kill_covers_all_pids_example :
  exists d,
    log (snd (win_quit_pids [111; 222]%Z 700 true win_stuck start)) = log start ++ d /\
    force_kill_tokens d = ["111"; "222"].
Proof.
  edestruct (force_kill_covers_all_pids [111; 222]%Z 700 true win_stuck start)
    as (d & E & T);
    [discriminate | vm_compute; reflexivity | vm_compute; reflexivity
    | vm_compute; reflexivity |].
  exists d. split; [exact E | exact T].
Defined.

(** C5, on the pids [111, 222]: process 111 is reported gone at every
    liveness check and 222 alive at every one, the wait times out, and the
    force-termination script is handed 111 as well as 222, where the claim
    has it handed 222 alone. *)
Theorem force_kill_reaches_exited_pid :
  (forall s, fst (win_is_pid_alive 111 win_stuck s) = Ok false) /\
  (forall s, fst (win_is_pid_alive 222 win_stuck s) = Ok true) /\
  fst (win_quit_pids [111; 222]%Z 700 true win_stuck start) = Ok tt /\
  force_kill_tokens (log (snd (win_quit_pids [111; 222]%Z 700 true win_stuck start)))
    = ["111"; "222"].
Proof.
  repeat split; try intros s; vm_compute; reflexivity.
Qed.

#[export] Hint Extern 1 (not_kill _) => reflexivity : emit.

Lemma calm_mac_count_running_procs bid : emits not_kill (mac_count_running_procs bid).
Proof. unfold mac_count_running_procs, run. auto 6 with emit. Qed.

Lemma calm_mac_pids_for bid : emits not_kill (mac_pids_for bid).
Proof. unfold mac_pids_for, run. auto 6 with emit. Qed.

Lemma mac_wait_quit_past_deadline fuel deadline bid w s :
  (deadline <= clock s)%Z -> mac_wait_quit fuel deadline bid w s = (Ok false, s).
Proof.
  intros H. assert (E : (clock s <? deadline)%Z = false) by (apply Z.ltb_ge; exact H).
  destruct fuel; simpl; unfold bind, time_time; rewrite E; reflexivity.
Qed.

Lemma mac_wait_quit_none_running fuel deadline bid w s :
  (clock s < deadline)%Z ->
  fst (mac_count_running_procs bid w s) = Ok 0%Z ->
  mac_wait_quit (S fuel) deadline bid w s
    = (Ok true, snd (mac_count_running_procs bid w s)).
Proof.
  intros H Hc. assert (E : (clock s <? deadline)%Z = true) by (apply Z.ltb_lt; exact H).
  simpl. unfold bind at 1. unfold time_time. rewrite E. unfold bind.
  destruct (mac_count_running_procs bid w s) as [r s1]. simpl in *. subst r. reflexivity.
Qed.

Lemma mac_quit_app_idle bid timeout force w s :
  (forall h, exists rc out,
     outcome (spawn w h ["osascript"; "-e"; quit_script bid]) = inr (rc, out)) ->
  (forall s', fst (mac_count_running_procs bid w s') = Ok 0%Z) ->
  ((0 < timeout)%Z \/ forall s', fst (mac_pids_for bid w s') = Ok []) ->
  exists s' d,
    mac_quit_app bid timeout force w s = (Ok tt, s') /\
    log s' = log s ++ d /\ Forall not_kill d.
Proof.
  intros Hquit Hcount Hpids.
  destruct (Hquit (log s)) as (rc & out & Hq).
  unfold mac_quit_app.
  set (q := ["osascript"; "-e"; quit_script bid]) in *.
  set (s1 := {| log := log s ++ [Spawn q];
                clock := clock s + Z.of_N (elapsed (spawn w (log s) q)) |}).
  assert (E0 : subprocess_run q false w s = (Ok (rc, out), s1)).
  { unfold subprocess_run. rewrite Hq. reflexivity. }
  rewrite (bind_ok _ _ _ _ _ _ E0).
  unfold bind at 1. unfold time_time.
  destruct (Z.ltb_spec 0 timeout) as [Hpos|Hnonpos].
  - destruct (Z.to_nat timeout) as [|fuel] eqn:Ef; [lia|].
    assert (Hlt : (clock s1 < clock s1 + timeout)%Z) by lia.
    rewrite (bind_ok _ _ _ _ _ _
               (mac_wait_quit_none_running fuel _ bid w s1 Hlt (Hcount s1))).
    destruct (mac_count_running_procs bid w s1) as [r s2] eqn:Ec.
    destruct (log_of not_kill _ _ _ _ _ (calm_mac_count_running_procs bid) Ec)
      as (d2 & E2 & F2).
    exists s2, ([Spawn q] ++ d2). simpl. rewrite E2. simpl. rewrite <- app_assoc.
    repeat split. constructor; [reflexivity | exact F2].
  - assert (Hle : (clock s1 + timeout <= clock s1)%Z) by lia.
    rewrite (bind_ok _ _ _ _ _ _
               (mac_wait_quit_past_deadline (Z.to_nat timeout) _ bid w s1 Hle)).
    destruct force.
    + destruct Hpids as [Hpos|Hpids]; [lia|].
      specialize (Hpids s1). unfold bind.
      destruct (mac_pids_for bid w s1) as [r s2] eqn:Ep. simpl in Hpids. subst r.
      destruct (log_of not_kill _ _ _ _ _ (calm_mac_pids_for bid) Ep) as (d2 & E2 & F2).
      exists s2, ([Spawn q] ++ d2). simpl. rewrite E2. simpl. rewrite <- app_assoc.
      repeat split. constructor; [reflexivity | exact F2].
    + exists s1, [Spawn q]. simpl. repeat split. constructor; [reflexivity | constructor].
Qed.

(** C6: stopping a target without running instances returns without
    raising and without a force-kill.  On Windows that is an empty pid
    list, for which nothing at all is done.  On macOS it is a process count
    of zero: with a positive timeout the first poll ends the wait; with no
    time to wait the list of process ids is consulted, and it is empty. *)
Theorem stop_without_instances :
  (forall timeout force w s, win_quit_pids [] timeout force w s = (Ok tt, s)) /\
  (forall bid timeout force w s,
     (forall h, exists rc out,
        outcome (spawn w h ["osascript"; "-e"; quit_script bid]) = inr (rc, out)) ->
     (forall s', fst (mac_count_running_procs bid w s') = Ok 0%Z) ->
     ((0 < timeout)%Z \/ forall s', fst (mac_pids_for bid w s') = Ok []) ->
     exists d,
       fst (mac_quit_app bid timeout force w s) = Ok tt /\
       log (snd (mac_quit_app bid timeout force w s)) = log s ++ d /\
       Forall not_kill d).
Proof.
  split; [reflexivity|].
  intros bid timeout force w s Hquit Hcount Hpids.
  destruct (mac_quit_app_idle bid timeout force w s Hquit Hcount Hpids)
    as (s' & d & E & Hlog & Hd).
  exists d. rewrite E. simpl. auto.
Qed.

Lemma stop_without_instances_witness :
  win_quit_pids [] 20000 true win_bare start = (Ok tt, start) /\
  exists d,
    fst (mac_quit_app hub_id 20000 true mac_idle start) = Ok tt /\
    log (snd (mac_quit_app hub_id 20000 true mac_idle start)) = log start ++ d /\
    Forall not_kill d.
Proof.
  split.
  - apply (proj1 stop_without_instances).
  - apply (proj2 stop_without_instances).
    + intros h. exists 0%Z, []. reflexivity.
    + intros s'. vm_compute. reflexivity.
    + left. reflexivity.
Defined.

(** C7: a captured, non-empty executable path is the launch target, as
    ("exe", path), without any query of shortcuts or packages; without
    one, the shortcut target comes first, then the package identity, then
    the bare search text. *)
Theorem resolve_launch_target_order search w s :
  (forall path,
     path <> [] ->
     win_resolve_launch_target search (Some path) w s = (Ok ("exe", path), s)) /\
  (forall fallback o1 s1,
     fallback = None \/ fallback = Some [] ->
     ps_run script_lnk (Some search) false w s = (Ok o1, s1) ->
     (strip o1 <> [] ->
      win_resolve_launch_target search fallback w s = (Ok ("exe", strip o1), s1)) /\
     (strip o1 = [] ->
      forall o2 s2,
        ps_run script_uwp (Some search) false w s1 = (Ok o2, s2) ->
        win_resolve_launch_target search fallback w s =
          (Ok match strip o2 with
              | [] => ("alias", search)
              | _ => ("uwp", strip o2)
              end, s2))).
Proof.
  split.
  - intros [|c p] H; [congruence | reflexivity].
  - intros fallback o1 s1 Hfb Hlnk.
    assert (E : win_resolve_launch_target search fallback w s
                = win_resolve_launch_target search None w s).
    { destruct Hfb as [-> | ->]; reflexivity. }
    rewrite E. unfold win_resolve_launch_target.
    rewrite (bind_ok _ _ _ _ _ _ Hlnk). split.
    + intros H. destruct (strip o1); [congruence | reflexivity].
    + intros -> o2 s2 Huwp. rewrite (bind_ok _ _ _ _ _ _ Huwp).
      destruct (strip o2); reflexivity.
Qed.

Lemma resolve_launch_target_witness :
  fst (ps_run script_lnk (Some "Camera Hub") false win_stuck start)
    = Ok "C:\Shortcuts\Hub.exe" /\
  win_resolve_launch_target "Camera Hub" (Some "C:\Program Files\Hub\Hub.exe")
      win_stuck start
    = (Ok ("exe", "C:\Program Files\Hub\Hub.exe"), start) /\
  fst (win_resolve_launch_target "Camera Hub" None win_stuck start)
    = Ok ("exe", "C:\Shortcuts\Hub.exe") /\
  fst (win_resolve_launch_target "Camera Hub" None win_bare start)
    = Ok ("alias", "Camera Hub").
Proof.
  split; [vm_compute; reflexivity|]. split; [|split].
  - apply (proj1 (resolve_launch_target_order "Camera Hub" win_stuck start)).
    discriminate.
  - assert (H : ps_run script_lnk (Some "Camera Hub") false win_stuck start
                = (Ok "C:\Shortcuts\Hub.exe",
                   snd (ps_run script_lnk (Some "Camera Hub") false win_stuck start)))
      by (vm_compute; reflexivity).
    destruct (proj2 (resolve_launch_target_order "Camera Hub" win_stuck start)
                None _ _ (or_introl eq_refl) H) as [Hexe _].
    assert (Hne : strip "C:\Shortcuts\Hub.exe" <> []) by (vm_compute; discriminate).
    exact (f_equal fst (Hexe Hne)).
  - assert (H1 : ps_run script_lnk (Some "Camera Hub") false win_bare start
                 = (Ok [], snd (ps_run script_lnk (Some "Camera Hub") false win_bare start)))
      by (vm_compute; reflexivity).
    destruct (proj2 (resolve_launch_target_order "Camera Hub" win_bare start)
                None _ _ (or_introl eq_refl) H1) as [_ Hnext].
    set (s1 := snd (ps_run script_lnk (Some "Camera Hub") false win_bare start)) in *.
    assert (H2 : ps_run script_uwp (Some "Camera Hub") false win_bare s1
                 = (Ok [], snd (ps_run script_uwp (Some "Camera Hub") false win_bare s1)))
      by (vm_compute; reflexivity).
    exact (f_equal fst (Hnext eq_refl _ _ H2)).
Defined.

End LifecycleFacts.

(** ** The macOS locator *)

Module LocatorFacts.
Import PyStr PathLib Os Restarter Pred Worlds OsFacts.

Lemma key_ltb_spec (a b : key) :
  key_ltb a b = true <->
  let '(a1, a2, a3, a4) := a in
  let '(b1, b2, b3, b4) := b in
  (a1 < b1 \/ (a1 = b1 /\ (a2 < b2 \/ (a2 = b2 /\ (a3 < b3 \/ (a3 = b3 /\ a4 < b4))))))%Z.
Proof.
  destruct a as [[[a1 a2] a3] a4], b as [[[b1 b2] b3] b4]. unfold key_ltb.
  rewrite !orb_true_iff, !andb_true_iff, !orb_true_iff, !andb_true_iff,
    !Z.ltb_lt, !Z.eqb_eq.
  rewrite !orb_true_iff, !andb_true_iff, !Z.ltb_lt, !Z.eqb_eq. reflexivity.
Qed.

Lemma key_ltb_false (a b : key) :
  key_ltb a b = false <->
  let '(a1, a2, a3, a4) := a in
  let '(b1, b2, b3, b4) := b in
  ~ (a1 < b1 \/ (a1 = b1 /\ (a2 < b2 \/ (a2 = b2 /\ (a3 < b3 \/ (a3 = b3 /\ a4 < b4))))))%Z.
Proof.
  rewrite <- not_true_iff_false, key_ltb_spec.
  destruct a as [[[a1 a2] a3] a4], b as [[[b1 b2] b3] b4]. reflexivity.
Qed.

Lemma key_le_refl a : key_le a a.
Proof.
  unfold key_le. apply key_ltb_false. destruct a as [[[a1 a2] a3] a4]. lia.
Qed.

Lemma key_lt_le a b : key_ltb a b = true -> key_le a b.
Proof.
  unfold key_le. rewrite key_ltb_spec, key_ltb_false.
  destruct a as [[[a1 a2] a3] a4], b as [[[b1 b2] b3] b4]. lia.
Qed.

Lemma key_le_trans a b c : key_le a b -> key_le b c -> key_le a c.
Proof.
  unfold key_le. rewrite !key_ltb_false.
  destruct a as [[[a1 a2] a3] a4], b as [[[b1 b2] b3] b4], c as [[[c1 c2] c3] c4]. lia.
Qed.

Section Sort.
Context {A : Type} (k : A -> key).

(** After a descending sort the first element has the greatest key. *)
Lemma sort_desc_head l :
  match sort_desc k l with
  | [] => l = []
  | h :: _ => In h l /\ forall x, In x l -> key_le (k x) (k h)
  end.
Proof.
  induction l as [|a l IH]; [reflexivity|].
  change (sort_desc k (a :: l)) with (insert_desc k a (sort_desc k l)).
  destruct (sort_desc k l) as [|y t]; simpl.
  - subst l. split; [left; reflexivity|].
    intros x [<-|[]]. apply key_le_refl.
  - destruct IH as [Hy Hmax].
    destruct (key_ltb (k a) (k y)) eqn:E.
    + split; [right; exact Hy|].
      intros x [<-|Hx]; [apply key_lt_le, E | apply Hmax, Hx].
    + split; [left; reflexivity|].
      intros x [<-|Hx]; [apply key_le_refl|].
      eapply key_le_trans; [apply Hmax, Hx | exact E].
Qed.
End Sort.

Lemma bundle_hits_nil out :
  bundle_hits out = [] ->
  forall line, In line (splitlines out) -> endswith line ".app" = false.
Proof.
  unfold bundle_hits. intros H line Hin.
  destruct (endswith line ".app") eqn:E; [|reflexivity].
  assert (Hf : In line (List.filter (fun p => endswith p ".app") (splitlines out))).
  { apply List.filter_In. split; assumption. }
  destruct (List.filter _ (splitlines out)); [destruct Hf | discriminate].
Qed.

(** C8: the locator returns None when no line of the query output ends in
    ".app"; otherwise it returns one of the lines that do, as a path, and no
    such hit has a greater score, the score being the tuple (2 under
    /Applications/ or /System/Applications/, 2 when the lowered stem starts
    with the lowered search text, 1 when it contains it, minus the length
    of the path), ordered lexicographically. *)
Theorem mac_mdfind_app_picks_best search w s r s' :
  mac_mdfind_app search w s = (Ok r, s') ->
  exists out,
    run ["mdfind"; spotlight_query search] false w s = (Ok out, s') /\
    match r with
    | None => forall line, In line (splitlines out) -> endswith line ".app" = false
    | Some h =>
        In h (bundle_hits out) /\
        forall h', In h' (bundle_hits out) ->
                   key_le (score (lower search) h') (score (lower search) h)
    end.
Proof.
  unfold mac_mdfind_app. unfold bind at 1.
  destruct (run ["mdfind"; spotlight_query search] false w s) as [[out|e|] s1];
    [|discriminate|discriminate].
  intros H. exists out.
  pose proof (sort_desc_head (score (lower search)) (bundle_hits out)) as Hsort.
  pose proof (bundle_hits_nil out) as Hnil.
  destruct (bundle_hits out) as [|h0 hs] eqn:Eh.
  - injection H as <- <-. split; [reflexivity | exact (Hnil eq_refl)].
  - destruct (sort_desc (score (lower search)) (h0 :: hs)) as [|h t].
    + discriminate.
    + injection H as <- <-. split; [reflexivity | exact Hsort].
Qed.

Lemma mac_mdfind_app_witness :
  exists h,
    fst (mac_mdfind_app "Camera Hub" mac_busy start) = Ok (Some h) /\
    path_str h = "/Applications/Camera Hub.app" /\
    length (bundle_hits (("/Users/me/Camera Hub.app" ++ nl ++
                          "/Applications/Camera Hub.app" ++ nl ++
                          "/Applications/Camera Hub Helper.app" ++ nl ++
                          "/Applications/Notes.txt"))) = 3%nat /\
    forall h', In h' (bundle_hits ("/Users/me/Camera Hub.app" ++ nl ++
                                   "/Applications/Camera Hub.app" ++ nl ++
                                   "/Applications/Camera Hub Helper.app" ++ nl ++
                                   "/Applications/Notes.txt")) ->
               key_le (score "camera hub" h') (score "camera hub" h).
Proof.
  assert (H : mac_mdfind_app "Camera Hub" mac_busy start
              = (Ok (Some {| root := "/"; parts := ["Applications"; "Camera Hub.app"] |}),
                 snd (mac_mdfind_app "Camera Hub" mac_busy start)))
    by (vm_compute; reflexivity).
  destruct (mac_mdfind_app_picks_best _ _ _ _ _ H) as (out & Hrun & Hin & Hmax).
  assert (Hout : out = "/Users/me/Camera Hub.app" ++ nl ++
                       "/Applications/Camera Hub.app" ++ nl ++
                       "/Applications/Camera Hub Helper.app" ++ nl ++
                       "/Applications/Notes.txt").
  { assert (E : fst (run ["mdfind"; spotlight_query "Camera Hub"] false mac_busy start)
                = Ok out) by (rewrite Hrun; reflexivity).
    vm_compute in E. injection E as <-. reflexivity. }
  subst out.
  eexists. split; [rewrite H; reflexivity|].
  split; [reflexivity|]. split; [vm_compute; reflexivity|]. exact Hmax.
Defined.

End LocatorFacts.

(** ** The settings file *)

Module SettingsFacts.
Import PyStr PathLib Os PrompterText Pred Worlds ScopeFacts.

Lemma str_in_In g lst : str_in g lst = true <-> In (JStr g) lst.
Proof.
  unfold str_in. rewrite existsb_exists. split.
  - intros (v & Hv & E). destruct v; try discriminate.
    apply eqb_eq in E. subst. exact Hv.
  - intros H. exists (JStr g). split; [exact H | apply eqb_refl].
Qed.

Lemma save_settings_lookup p data fs :
  save_settings p data fs !! path_str p = Some (Document (JObject data)).
Proof. unfold save_settings, Fs in *. apply lookup_insert_eq. Qed.

(** One call, spelled out: the new list and the new files. *)
Lemma settings_add_guid_run texts_dir guid fs :
  readable texts_dir fs ->
  exists settings,
    load_settings (get_appsettings_path texts_dir) fs = Ok settings /\
    settings_add_guid texts_dir guid fs =
      (Ok (get_appsettings_path texts_dir),
       save_settings (get_appsettings_path texts_dir)
         (<[SETTINGS_KEY := JList (added (upper guid) (library_list texts_dir fs))]>
            settings) fs) /\
    library_list texts_dir (snd (settings_add_guid texts_dir guid fs))
      = added (upper guid) (library_list texts_dir fs).
Proof.
  unfold added, readable, settings_add_guid, library_list, load_settings, Fs in *.
  set (sp := get_appsettings_path texts_dir). intros Hr.
  destruct (fs !! path_str sp) as [[|v]|] eqn:E; [congruence| |].
  - destruct v as [| | | | | |data];
      try (exists ∅; rewrite lookup_empty; simpl;
           rewrite save_settings_lookup, lookup_insert_eq; repeat split; reflexivity).
    exists data. simpl.
    rewrite save_settings_lookup, lookup_insert_eq. repeat split; reflexivity.
  - exists ∅. rewrite lookup_empty. simpl.
    rewrite save_settings_lookup, lookup_insert_eq. repeat split; reflexivity.
Qed.

Lemma readable_after_add texts_dir guid fs :
  readable texts_dir fs -> readable texts_dir (snd (settings_add_guid texts_dir guid fs)).
Proof.
  intros Hr. destruct (settings_add_guid_run texts_dir guid fs Hr) as (st & _ & E & _).
  rewrite E. unfold readable. simpl. rewrite save_settings_lookup. discriminate.
Qed.

End SettingsFacts.

(** ** More on slugify *)

Module SlugMore.
Import PyStr Pred PyStrFacts PrompterText SlugProofs.

Lemma strip_with_clean {C} (p : C -> bool) (s : list C) :
  Forall (fun c => p c = false) s -> strip_with p s = s.
Proof.
  intros H. unfold strip_with, rstrip_with.
  assert (Hl : forall u, Forall (fun c => p c = false) u -> lstrip_with p u = u).
  { intros u Hu. destruct Hu as [|c t Hc _]; simpl; [reflexivity | rewrite Hc; reflexivity]. }
  rewrite (Hl s H), Hl, rev_involutive; [reflexivity|].
  apply Forall_forall. intros c Hc. rewrite Forall_forall in H.
  apply H. apply list_elem_of_In. apply list_elem_of_In in Hc.
  apply in_rev. exact Hc.
Qed.

Lemma strip_with_ends {C} (p : C -> bool) (s : list C) :
  (forall c t, s = c :: t -> p c = false) ->
  (forall a z, s = a ++ [z] -> p z = false) ->
  strip_with p s = s.
Proof.
  intros Hh Hl. unfold strip_with, rstrip_with.
  assert (E1 : lstrip_with p s = s).
  { destruct s as [|c t]; [reflexivity|]. simpl. rewrite (Hh c t eq_refl). reflexivity. }
  rewrite E1.
  destruct (rev s) as [|z u] eqn:Er; [rewrite <- (rev_involutive s), Er; reflexivity|].
  assert (Es : s = rev u ++ [z]).
  { rewrite <- (rev_involutive s), Er. reflexivity. }
  simpl. rewrite (Hl _ _ Es). simpl. symmetry. exact Es.
Qed.

Lemma slug_char_not_space c : slug_char c -> is_space c = false.
Proof.
  intros [H| ->]; [|reflexivity]. revert H.
  destruct c as [[] [] [] [] [] [] [] []]; vm_compute; intros H;
    first [reflexivity | discriminate H].
Qed.

Lemma slug_char_lower c : slug_char c -> lower_char c = c.
Proof.
  intros [H| ->]; [|reflexivity]. revert H.
  destruct c as [[] [] [] [] [] [] [] []]; vm_compute; intros H;
    first [reflexivity | discriminate H].
Qed.

Lemma sub_runs_slug r :
  Forall slug_char r ->
  (forall a b, r <> a ++ [hyphen; hyphen] ++ b) ->
  sub_runs slug_keep "-" false r = r /\
  ((forall b, r <> hyphen :: b) -> sub_runs slug_keep "-" true r = r).
Proof.
  intros HF. induction HF as [|c t Hc _ IH]; intros Hd; [split; reflexivity|].
  assert (Hdt : forall a b, t <> a ++ [hyphen; hyphen] ++ b).
  { intros a b E. apply (Hd (c :: a) b). rewrite E. reflexivity. }
  destruct (IH Hdt) as [IH1 IH2]. simpl.
  destruct (slug_keep c) eqn:Ek.
  - rewrite IH1. split; reflexivity.
  - destruct Hc as [Hc| ->]; [congruence|].
    assert (Ht : forall b, t <> hyphen :: b).
    { intros b E. apply (Hd [] b). rewrite E. reflexivity. }
    rewrite (IH2 Ht). split; [reflexivity|].
    intros Hh. exfalso. apply (Hh t). reflexivity.
Qed.

(** A well-formed slug that fits is left as it is. *)
Lemma slugify_fixed r max_len :
  well_formed_slug r -> (len r <= max_len)%Z -> slugify r max_len = r.
Proof.
  intros (Hne & HF & Hh & Hl & Hd) Hlen. unfold slugify, strip.
  rewrite strip_with_clean.
  2:{ eapply Forall_impl; [exact HF | apply slug_char_not_space]. }
  assert (El : lower r = r).
  { unfold lower. clear -HF. induction HF as [|c t Hc _ IH]; simpl; [reflexivity|].
    rewrite (slug_char_lower c Hc), IH. reflexivity. }
  rewrite El. rewrite (proj1 (sub_runs_slug r HF Hd)).
  unfold strip_chars. rewrite strip_with_ends.
  - destruct (len r >? max_len)%Z eqn:E; [rewrite Z.gtb_ltb in E; apply Z.ltb_lt in E; lia|].
    destruct r; [congruence | reflexivity].
  - intros c t -> . destruct (char_in "-" c) eqn:E; [|reflexivity].
    apply char_in_hyphen in E. subst c. exfalso. apply (Hh t). reflexivity.
  - intros a z ->. destruct (char_in "-" z) eqn:E; [|reflexivity].
    apply char_in_hyphen in E. subst z. exfalso. apply (Hl a). reflexivity.
Qed.

(** The shape of the result for any bound that is not negative. *)
Lemma slugify_shape value max_len :
  (0 <= max_len)%Z ->
  well_formed_slug (slugify value max_len) /\
  (len (slugify value max_len) <= Z.max max_len 6)%Z.
Proof.
  intros Hmax. unfold slugify.
  destruct (stripped_runs_shape (lower (strip value))) as (HF & Hh & Hl & Hd).
  set (v := strip_chars "-" (sub_runs slug_keep "-" false (lower (strip value)))) in *.
  destruct (len v >? max_len)%Z eqn:Hlen.
  - unfold rstrip_chars, slice_to.
    assert (E0 : (0 <=? max_len)%Z = true) by (apply Z.leb_le; exact Hmax).
    rewrite E0. set (n := Z.to_nat max_len).
    set (r := rstrip_with (char_in "-") (firstn n v)).
    assert (Hinf : infix_of r v).
    { eapply infix_trans; [apply rstrip_with_infix | apply firstn_infix]. }
    assert (Hle : (length r <= n)%nat).
    { etransitivity; [apply rstrip_with_length|]. rewrite length_firstn. lia. }
    destruct r as [|c u] eqn:Er.
    + split; [apply prompt_well_formed | unfold len; simpl; lia].
    + split.
      * repeat split.
        -- discriminate.
        -- eapply infix_Forall; [exact Hinf | exact HF].
        -- intros b E. injection E as -> _.
           destruct (rstrip_with_prefix (char_in "-") (firstn n v)) as [x Hx].
           fold r in Hx. rewrite Er in Hx.
           apply (Hh (u ++ x ++ skipn n v)).
           rewrite <- (firstn_skipn n v) at 1. rewrite Hx, <- app_assoc. reflexivity.
        -- intros a E. rewrite <- Er in E. apply rstrip_with_last in E.
           apply char_in_hyphen_false in E. congruence.
        -- eapply infix_avoids; [exact Hinf | exact Hd].
      * unfold len. subst n. lia.
  - rewrite Z.gtb_ltb in Hlen. apply Z.ltb_ge in Hlen.
    destruct v as [|c t] eqn:Ev.
    + split; [apply prompt_well_formed | unfold len; simpl; lia].
    + split; [|lia]. repeat split; try assumption. discriminate.
Qed.

(** X1: for every bound [max_len] that is not negative, [slugify] returns
    a non-empty string of lowercase ASCII letters, digits and single
    hyphens, none of them first or last, of length at most the greater of
    [max_len] and 6: the fallback "prompt" is not cut to a smaller bound. *)
Theorem slugify_any_bound value max_len :
  (0 <= max_len)%Z ->
  well_formed_slug (slugify value max_len) /\
  (len (slugify value max_len) <= Z.max max_len 6)%Z /\
  slugify "" max_len = "prompt".
Proof.
  intros H. destruct (slugify_shape value max_len H) as [Hw Hl].
  split; [exact Hw|]. split; [exact Hl|].
  unfold slugify.
  change (strip_chars "-" (sub_runs slug_keep "-" false (lower (strip []))))
    with (@nil ascii).
  destruct (len [] >? max_len)%Z eqn:E; [|reflexivity].
  rewrite Z.gtb_ltb in E. apply Z.ltb_lt in E. unfold len in E. simpl in E. lia.
Qed.

Lemma slugify_any_bound_witness :
  well_formed_slug (slugify "Oslo -- Rome" 3) /\
  slugify "Oslo -- Rome" 3 = "osl" /\
  slugify "" 3 = "prompt".
Proof.
  destruct (slugify_any_bound "Oslo -- Rome" 3 ltac:(lia)) as (Hw & _ & Hp).
  split; [exact Hw|]. split; [reflexivity | exact Hp].
Defined.

(** X2: with a bound of at least 6, slugifying a slug changes nothing. *)
Theorem slugify_idempotent value max_len :
  (6 <= max_len)%Z ->
  slugify (slugify value max_len) max_len = slugify value max_len.
Proof.
  intros H. destruct (slugify_shape value max_len ltac:(lia)) as [Hw Hl].
  apply slugify_fixed; [exact Hw | lia].
Qed.

Lemma slugify_idempotent_witness :
  slugify (slugify "  Hello,  World!! " 48) 48 = "hello-world".
Proof.
  rewrite (slugify_idempotent "  Hello,  World!! " 48 ltac:(lia)). reflexivity.
Defined.

End SlugMore.

(** ** More on the settings file *)

Module StoreMore.
Import PyStr PathLib Os PrompterText PrompterStore Pred MorePred Worlds ScopeFacts
  SettingsFacts.

Lemma upper_char_fixed c : flat_map upper_char (upper_char c) = upper_char c.
Proof. destruct c as [[] [] [] [] [] [] [] []]; reflexivity. Qed.

Lemma upper_idempotent s : upper (upper s) = upper s.
Proof.
  unfold upper. induction s as [|c t IH]; simpl; [reflexivity|].
  rewrite flat_map_app, upper_char_fixed, IH. reflexivity.
Qed.

Lemma join_snoc sep ps x :
  join sep (ps ++ [x]) = match ps with [] => x | _ => join sep ps ++ sep ++ x end.
Proof.
  induction ps as [|p ps IH]; [reflexivity|].
  destruct ps as [|p' ps']; [reflexivity|].
  change (join sep ((p :: p' :: ps') ++ [x]))
    with (p ++ sep ++ join sep ((p' :: ps') ++ [x])).
  rewrite IH. change (join sep (p :: p' :: ps')) with (p ++ sep ++ join sep (p' :: ps')).
  rewrite <- !app_assoc. reflexivity.
Qed.

Lemma path_str_named r ps x :
  path_str {| root := r; parts := ps ++ [x] |} = r ++ join "/" (ps ++ [x]).
Proof.
  unfold path_str. simpl. destruct r; [|reflexivity].
  destruct (ps ++ [x]) eqn:E; [destruct ps; discriminate | reflexivity].
Qed.

Lemma settings_paths texts_dir :
  get_appsettings_path texts_dir
    = {| root := root texts_dir;
         parts := removelast (parts texts_dir) ++ ["AppSettings.json"] |} /\
  tmp_path texts_dir
    = {| root := root texts_dir;
         parts := removelast (parts texts_dir) ++ ["AppSettings.json.tmp"] |}.
Proof.
  split; [reflexivity|].
  unfold tmp_path, with_suffix, get_appsettings_path, resolve, child, parent, path_stem,
    path_name. simpl.
  rewrite removelast_last, last_last. reflexivity.
Qed.

(** The temporary file is not the settings file. *)
Lemma tmp_path_differs texts_dir :
  path_str (tmp_path texts_dir) <> path_str (get_appsettings_path texts_dir).
Proof.
  destruct (settings_paths texts_dir) as [-> ->].
  rewrite !path_str_named, !join_snoc. intros E. apply app_inv_head in E.
  destruct (removelast (parts texts_dir)).
  - discriminate.
  - apply app_inv_head in E. discriminate.
Qed.

Lemma settings_remove_guids_run other texts_dir guids fs :
  readable texts_dir fs ->
  fst (settings_remove_guids other texts_dir guids fs)
    = Ok (get_appsettings_path texts_dir) /\
  library_list texts_dir (snd (settings_remove_guids other texts_dir guids fs))
    = without_guids other guids (library_list texts_dir fs).
Proof.
  unfold readable, settings_remove_guids, library_list, load_settings, Fs in *.
  set (sp := get_appsettings_path texts_dir). intros Hr.
  destruct (fs !! path_str sp) as [[|v]|] eqn:E; [congruence| |].
  - destruct v as [| | | | | |data];
      try (rewrite lookup_empty; simpl;
           rewrite save_settings_lookup, lookup_insert_eq; split; reflexivity).
    simpl. rewrite save_settings_lookup, lookup_insert_eq. split; reflexivity.
  - rewrite lookup_empty. simpl.
    rewrite save_settings_lookup, lookup_insert_eq. split; reflexivity.
Qed.

Lemma in_upper_set_spec x guids :
  in_upper_set x guids = true <-> exists g, In g guids /\ x = upper g.
Proof.
  unfold in_upper_set. rewrite existsb_exists. split.
  - intros (y & Hy & E). apply in_map_iff in Hy as (g & <- & Hg).
    apply eqb_eq in E. eauto.
  - intros (g & Hg & ->). exists (upper g). split; [apply in_map, Hg | apply eqb_refl].
Qed.

Lemma without_guids_unlisted other guids lst :
  (forall g, In g guids -> unlisted other g lst) -> without_guids other guids lst = lst.
Proof.
  intros H. unfold without_guids. induction lst as [|e lst IH]; [reflexivity|].
  simpl. destruct (in_upper_set (upper (py_str other e)) guids) eqn:E.
  - apply in_upper_set_spec in E as (g & Hg & E).
    specialize (H g Hg). inversion H; subst. contradiction.
  - simpl. f_equal. apply IH. intros g Hg. specialize (H g Hg).
    inversion H; subst. assumption.
Qed.

(** X5: on a readable settings file whose library list holds no entry that
    prints as [guid] in any letter case, adding [guid] and then removing it
    gives back the list as it was. *)
Theorem add_then_remove_restores other texts_dir guid fs :
  readable texts_dir fs ->
  unlisted other guid (library_list texts_dir fs) ->
  library_list texts_dir
    (snd (settings_remove_guids other texts_dir [guid]
            (snd (settings_add_guid texts_dir guid fs))))
    = library_list texts_dir fs.
Proof.
  intros Hr Hu.
  pose proof (readable_after_add texts_dir guid fs Hr) as Hr'.
  destruct (settings_remove_guids_run other texts_dir [guid] _ Hr') as [_ ->].
  destruct (settings_add_guid_run texts_dir guid fs Hr) as (st & _ & _ & ->).
  set (l := library_list texts_dir fs) in *.
  assert (Hnin : str_in (upper guid) l = false).
  { destruct (str_in (upper guid) l) eqn:E; [|reflexivity].
    apply str_in_In in E. unfold unlisted in Hu. rewrite Forall_forall in Hu.
    apply list_elem_of_In in E. specialize (Hu _ E). simpl in Hu.
    rewrite upper_idempotent in Hu. congruence. }
  unfold added. rewrite Hnin. unfold without_guids.
  rewrite List.filter_app. simpl. rewrite upper_idempotent.
  assert (Hin : in_upper_set (upper guid) [guid] = true).
  { apply in_upper_set_spec. exists guid. split; [left|]; reflexivity. }
  rewrite Hin. simpl. rewrite app_nil_r.
  apply (without_guids_unlisted other [guid] l).
  intros g [<-|[]]. exact Hu.
Qed.

Lemma add_then_remove_witness :
  library_list texts
    (snd (settings_remove_guids blank texts ["ab-12"]
            (snd (settings_add_guid texts "ab-12" (settings_with [JStr "CD-34"])))))
    = [JStr "CD-34"].
Proof.
  assert (Hr : readable texts (settings_with [JStr "CD-34"]))
    by (vm_compute; intros H; discriminate H).
  assert (Hu : unlisted blank "ab-12" (library_list texts (settings_with [JStr "CD-34"]))).
  { vm_compute. repeat constructor. intros H. discriminate H. }
  refine (eq_trans (add_then_remove_restores blank texts "ab-12" _ Hr Hu) _).
  vm_compute. reflexivity.
Defined.

End StoreMore.

(** ** More on stopping *)

Module StopMore.
Import PyStr PathLib Os Restarter Pred MorePred Worlds PyStrFacts OsFacts Termination
  ScopeFacts LifecycleFacts SlugMore.

Lemma naps_app d1 d2 : naps (d1 ++ d2) = (naps d1 + naps d2)%Z.
Proof. unfold naps. rewrite List.filter_app, length_app. lia. Qed.

Lemma naps_none d : Forall no_nap d -> naps d = 0%Z.
Proof.
  induction 1 as [|e d He _ IH]; [reflexivity|].
  change (e :: d) with ([e] ++ d). rewrite naps_app, He, IH. reflexivity.
Qed.

Lemma naps_nonneg d : (0 <= naps d)%Z.
Proof. unfold naps. lia. Qed.

Lemma awake_mac_count_running_procs bid : emits no_nap (mac_count_running_procs bid).
Proof.
  unfold mac_count_running_procs, run.
  apply emits_bind; [|intros out; destruct (int out); apply emits_ret].
  apply emits_bind; [apply emits_subprocess_run; reflexivity | intro; apply emits_ret].
Qed.

Lemma awake_ps_run script arg check : emits no_nap (ps_run script arg check).
Proof. apply ps_run_emits; intros exe; destruct arg; reflexivity. Qed.

Lemma awake_win_is_pid_alive pid : emits no_nap (win_is_pid_alive pid).
Proof.
  unfold win_is_pid_alive.
  apply emits_bind; [apply awake_ps_run | intro; apply emits_ret].
Qed.

Lemma mac_wait_quit_naps fuel : forall deadline bid w s,
  exists d,
    log (snd (mac_wait_quit fuel deadline bid w s)) = log s ++ d /\
    within deadline s d.
Proof.
  induction fuel as [|fuel IH]; intros deadline bid w s; unfold within.
  - simpl. unfold bind, time_time.
    destruct (clock s <? deadline)%Z eqn:E; exists []; simpl; rewrite app_nil_r;
      split; try reflexivity.
    apply Z.ltb_lt in E. unfold naps. simpl. lia.
  - simpl. unfold bind at 1. unfold time_time.
    destruct (clock s <? deadline)%Z eqn:E.
    2:{ exists []. simpl. rewrite app_nil_r. split; reflexivity. }
    apply Z.ltb_lt in E. unfold bind at 1.
    destruct (awake_mac_count_running_procs bid w s) as (d1 & E1 & F1 & C1).
    apply naps_none in F1.
    destruct (mac_count_running_procs bid w s) as [[n|e|] s1]; simpl in E1, C1.
    + destruct (n =? 0)%Z.
      * exists d1. simpl. split; [exact E1 | lia].
      * unfold bind, time_sleep.
        set (s2 := {| log := log s1 ++ [Sleep 300]; clock := clock s1 + 300 |}).
        destruct (IH deadline bid w s2) as (d2 & E2 & B2).
        exists (d1 ++ [Sleep 300] ++ d2). split.
        -- rewrite E2. simpl. rewrite E1, <- !app_assoc. reflexivity.
        -- rewrite !naps_app, F1. change (naps [Sleep 300]) with 1%Z.
           unfold within in B2. simpl in B2.
           destruct (clock s1 + 300 <? deadline)%Z eqn:E3.
           ++ apply Z.ltb_lt in E3. lia.
           ++ subst d2. change (naps []) with 0%Z. lia.
    + exists d1. simpl. split; [exact E1 | lia].
    + exists d1. simpl. split; [exact E1 | lia].
Qed.

Lemma win_wait_quit_naps fuel : forall deadline pids w s,
  exists d,
    log (snd (win_wait_quit fuel deadline pids w s)) = log s ++ d /\
    within deadline s d.
Proof.
  induction fuel as [|fuel IH]; intros deadline pids w s; unfold within.
  - simpl. unfold bind, time_time.
    destruct (clock s <? deadline)%Z eqn:E; exists []; simpl; rewrite app_nil_r;
      split; try reflexivity.
    apply Z.ltb_lt in E. unfold naps. simpl. lia.
  - simpl. unfold bind at 1. unfold time_time.
    destruct (clock s <? deadline)%Z eqn:E.
    2:{ exists []. simpl. rewrite app_nil_r. split; reflexivity. }
    apply Z.ltb_lt in E. unfold bind at 1.
    assert (Hm : emits no_nap (filter_m win_is_pid_alive pids)).
    { apply emits_filter_m. intro. apply awake_win_is_pid_alive. }
    destruct (Hm w s) as (d1 & E1 & F1 & C1).
    apply naps_none in F1.
    destruct (filter_m win_is_pid_alive pids w s) as [[alive|e|] s1]; simpl in E1, C1.
    + destruct alive as [|a alive].
      * exists d1. simpl. split; [exact E1 | lia].
      * unfold bind, time_sleep.
        set (s2 := {| log := log s1 ++ [Sleep 300]; clock := clock s1 + 300 |}).
        destruct (IH deadline pids w s2) as (d2 & E2 & B2).
        exists (d1 ++ [Sleep 300] ++ d2). split.
        -- rewrite E2. simpl. rewrite E1, <- !app_assoc. reflexivity.
        -- rewrite !naps_app, F1. change (naps [Sleep 300]) with 1%Z.
           unfold within in B2. simpl in B2.
           destruct (clock s1 + 300 <? deadline)%Z eqn:E3.
           ++ apply Z.ltb_lt in E3. lia.
           ++ subst d2. change (naps []) with 0%Z. lia.
    + exists d1. simpl. split; [exact E1 | lia].
    + exists d1. simpl. split; [exact E1 | lia].
Qed.

Lemma awake_kill_quietly pid : emits no_nap (kill_quietly pid).
Proof.
  unfold kill_quietly. apply emits_try_except; [apply emits_os_kill; reflexivity|].
  intros e k H. destruct e; try discriminate. injection H as <-. apply emits_ret.
Qed.

Lemma awake_mac_pids_for bid : emits no_nap (mac_pids_for bid).
Proof.
  unfold mac_pids_for, run.
  apply emits_bind; [|intros out; destruct out; [apply emits_ret | apply emits_ints_of]].
  apply emits_bind; [apply emits_subprocess_run; reflexivity | intro; apply emits_ret].
Qed.

(** A stop is a request, a wait until a deadline and a last resort; only
    the wait sleeps. *)
Lemma bounded_stop {A} (pre : M A) (wait : Z -> M bool) (post : bool -> M unit) timeout w s :
  emits no_nap pre ->
  (forall deadline w s, exists d,
     log (snd (wait deadline w s)) = log s ++ d /\ within deadline s d) ->
  (forall b, emits no_nap (post b)) ->
  exists d,
    log (snd ((pre ;; now <- time_time ;; returned <- wait (now + timeout)%Z ;;
               post returned) w s)) = log s ++ d /\
    (300 * naps d < Z.max 0 timeout + 300)%Z.
Proof.
  intros Hpre Hwait Hpost. unfold bind at 1.
  destruct (Hpre w s) as (d0 & E0 & F0 & _). apply naps_none in F0.
  destruct (pre w s) as [[a|e|] s1]; simpl in E0;
    [|exists d0; simpl; split; [exact E0 | lia] ..].
  unfold bind at 1. unfold time_time. unfold bind at 1.
  destruct (Hwait (clock s1 + timeout)%Z w s1) as (d1 & E1 & B1).
  assert (Hb : (300 * naps d1 < Z.max 0 timeout + 300)%Z).
  { unfold within in B1. destruct (clock s1 <? clock s1 + timeout)%Z eqn:E.
    - apply Z.ltb_lt in E. lia.
    - subst d1. change (naps []) with 0%Z. lia. }
  destruct (wait (clock s1 + timeout)%Z w s1) as [[returned|e|] s2]; simpl in E1;
    [|exists (d0 ++ d1); simpl; rewrite naps_app, F0, E1, E0, app_assoc;
      split; [reflexivity | lia] ..].
  destruct (Hpost returned w s2) as (d2 & E2 & F2 & _). apply naps_none in F2.
  exists (d0 ++ d1 ++ d2). rewrite E2, E1, E0, <- !app_assoc, !naps_app, F0, F2.
  split; [reflexivity | lia].
Qed.

(** X6: with a finite timeout and a clock that does not go back, a stop
    sleeps fewer than timeout / 300 ms + 1 times, on macOS and on Windows,
    and not at all with a timeout that is not positive.  The stop itself
    may end after the deadline: the last poll and the last sleep are not
    cut short. *)
Theorem stop_sleeps_bounded timeout force w s :
  (forall bid, exists d,
     log (snd (mac_quit_app bid timeout force w s)) = log s ++ d /\
     (300 * naps d < Z.max 0 timeout + 300)%Z) /\
  (forall pids, exists d,
     log (snd (win_quit_pids pids timeout force w s)) = log s ++ d /\
     (300 * naps d < Z.max 0 timeout + 300)%Z).
Proof.
  split.
  - intros bid.
    apply (bounded_stop
             (subprocess_run ["osascript"; "-e"; quit_script bid] false)
             (fun deadline => mac_wait_quit (Z.to_nat timeout) deadline bid)
             (fun returned => if returned then ret tt
                              else if force then
                                     pids <- mac_pids_for bid ;; for_each kill_quietly pids
                              else ret tt)).
    + apply emits_subprocess_run. reflexivity.
    + intros deadline w' s'. apply mac_wait_quit_naps.
    + intros [|]; [apply emits_ret|]. destruct force; [|apply emits_ret].
      apply emits_bind; [apply awake_mac_pids_for | intros pids].
      apply emits_for_each. apply awake_kill_quietly.
  - intros [|p ps].
    + exists []. simpl. rewrite app_nil_r. split; [reflexivity | unfold naps; simpl; lia].
    + apply (bounded_stop
               (ps_run script_close (Some (pid_list (p :: ps))) false)
               (fun deadline => win_wait_quit (Z.to_nat timeout) deadline (p :: ps))
               (fun returned => if returned then ret tt
                                else if force then
                                       ps_run script_kill (Some (pid_list (p :: ps))) false ;;
                                       ret tt
                                else ret tt)).
      * apply awake_ps_run.
      * intros deadline w' s'. apply win_wait_quit_naps.
      * intros [|]; [apply emits_ret|]. destruct force; [|apply emits_ret].
        apply emits_bind; [apply awake_ps_run | intro; apply emits_ret].
Qed.

Lemma digit_char_plain c :
  is_digit_char c = true ->
  code_is 45 c = false /\ code_is 43 c = false /\ is_space c = false.
Proof.
  destruct c as [[] [] [] [] [] [] [] []]; vm_compute; intros H;
    first [discriminate H | repeat split].
Qed.

Lemma int_digits_nonneg s : forall acc b n,
  (0 <= acc)%Z -> int_digits acc b s = Some n -> (0 <= n)%Z.
Proof.
  induction s as [|c t IH]; intros acc b n Hacc; simpl.
  - destruct b; [|discriminate]. intros H. injection H as <-. exact Hacc.
  - destruct (is_decimal c).
    + apply IH. unfold digit_val. lia.
    + destruct (code_is 95 c && b); [|discriminate].
      destruct t; [discriminate | apply IH, Hacc].
Qed.

Lemma lstrip_with_split {C} (p : C -> bool) (s : list C) :
  exists a, s = a ++ lstrip_with p s /\ Forall (fun c => p c = true) a.
Proof.
  induction s as [|c t (a & E & F)]; simpl.
  - exists []. split; [reflexivity | constructor].
  - destruct (p c) eqn:Ec.
    + exists (c :: a). split; [simpl; congruence | constructor; assumption].
    + exists []. split; [reflexivity | constructor].
Qed.

(** What [strip_with] takes away satisfies the test. *)
Lemma strip_with_cover {C} (p : C -> bool) (s : list C) :
  Forall (fun c => p c = true \/ In c (strip_with p s)) s.
Proof.
  unfold strip_with, rstrip_with.
  destruct (lstrip_with_split p s) as (a & Ea & Fa).
  set (u := lstrip_with p s) in *.
  destruct (lstrip_with_split p (rev u)) as (b & Eb & Fb).
  set (v := lstrip_with p (rev u)) in *.
  assert (Eu : u = rev v ++ rev b).
  { rewrite <- (rev_involutive u), Eb, rev_app_distr. reflexivity. }
  rewrite Ea, Eu. apply Forall_app. split; [|apply Forall_app; split].
  - eapply Forall_impl; [exact Fa | intros c Hc; left; exact Hc].
  - apply Forall_forall. intros c Hc. right. apply list_elem_of_In. exact Hc.
  - apply Forall_forall. intros c Hc. left. rewrite Forall_forall in Fb.
    apply Fb. apply list_elem_of_In, in_rev, list_elem_of_In. exact Hc.
Qed.

Lemma space_or_digit_plain c :
  is_space c || is_digit_char c = true -> code_is 45 c = false /\ code_is 43 c = false.
Proof.
  destruct c as [[] [] [] [] [] [] [] []]; vm_compute; intros H;
    first [discriminate H | split; reflexivity].
Qed.

(** A string of digits reads as a number that is not negative. *)
Lemma int_of_digits_nonneg x n :
  isdigit (strip x) = true -> int x = Some n -> (0 <= n)%Z.
Proof.
  intros Hd.
  assert (Hx : Forall (fun c => is_space c || is_digit_char c = true) x).
  { eapply Forall_impl; [apply (strip_with_cover is_space x)|].
    intros c [Hc|Hc]; [rewrite Hc; reflexivity|].
    fold (strip x) in Hc. unfold isdigit in Hd.
    destruct (strip x) as [|d t]; [discriminate|].
    rewrite forallb_forall in Hd. rewrite (Hd c Hc). apply orb_true_r. }
  unfold int.
  pose proof (infix_Forall _ _ _ (strip_with_infix is_int_space x) Hx) as Hy.
  destruct (strip_with is_int_space x) as [|c t]; [discriminate|].
  inversion Hy as [|? ? Hc _]; subst.
  destruct (space_or_digit_plain c Hc) as [-> ->].
  apply int_digits_nonneg. lia.
Qed.

Lemma strip_digits y : isdigit y = true -> strip y = y.
Proof.
  intros H. apply strip_with_clean. unfold isdigit in H.
  destruct y as [|c t]; [discriminate|].
  apply Forall_forall. intros d Hd. apply list_elem_of_In in Hd.
  rewrite forallb_forall in H. apply digit_char_plain, H, Hd.
Qed.

Lemma ints_of_nonneg xs : forall w s ns s',
  (forall x n, In x xs -> int x = Some n -> (0 <= n)%Z) ->
  ints_of xs w s = (Ok ns, s') ->
  Forall (fun p => (0 <= p)%Z) ns.
Proof.
  induction xs as [|x rest IH]; intros w s ns s' Hx; simpl.
  - unfold ret. intros H. injection H as <- _. constructor.
  - destruct (int x) as [n|] eqn:E; [|discriminate].
    unfold bind. destruct (ints_of rest w s) as [[ms|e|] s1] eqn:Er; try discriminate.
    unfold ret. intros H. injection H as <- _. constructor.
    + apply (Hx x n); [left; reflexivity | exact E].
    + apply (IH w s ms s1); [|exact Er]. intros y m Hy. apply Hx. right. exact Hy.
Qed.

Lemma win_find_running_pids_nonneg search w s pids s' :
  win_find_running_pids search w s = (Ok pids, s') -> Forall (fun p => (0 <= p)%Z) pids.
Proof.
  unfold win_find_running_pids. unfold bind at 1.
  destruct (ps_run script_find_pids (Some search) false w s) as [[out|e|] s1];
    try discriminate.
  apply ints_of_nonneg. intros x n Hx. apply List.filter_In in Hx as [_ Hx].
  apply int_of_digits_nonneg, Hx.
Qed.

Lemma mac_pids_for_nonneg bid w s pids s' :
  mac_pids_for bid w s = (Ok pids, s') -> Forall (fun p => (0 <= p)%Z) pids.
Proof.
  unfold mac_pids_for. unfold bind at 1.
  destruct (run ["osascript"; "-e"; pids_script bid] false w s) as [[out|e|] s1];
    try discriminate.
  destruct out as [|c out].
  - unfold ret. intros H. injection H as <- _. constructor.
  - apply ints_of_nonneg. intros x n Hx.
    apply in_map_iff in Hx as (y & <- & Hy). apply List.filter_In in Hy as [_ Hy].
    apply int_of_digits_nonneg. rewrite (strip_digits _ Hy). exact Hy.
Qed.

(** X7: the process ids that the two inventories of running instances
    return are never negative. *)
Theorem pids_never_negative w s :
  (forall search pids s',
     win_find_running_pids search w s = (Ok pids, s') ->
     Forall (fun p => (0 <= p)%Z) pids) /\
  (forall bid pids s',
     mac_pids_for bid w s = (Ok pids, s') ->
     Forall (fun p => (0 <= p)%Z) pids).
Proof.
  split.
  - intros search pids s'. apply win_find_running_pids_nonneg.
  - intros bid pids s'. apply mac_pids_for_nonneg.
Qed.

Lemma pids_never_negative_witness :
  fst (win_find_running_pids "Camera Hub" win_stuck start) = Ok [111; 222]%Z /\
  Forall (fun p => (0 <= p)%Z) [111; 222]%Z.
Proof.
  split; [vm_compute; reflexivity|].
  apply (proj1 (pids_never_negative win_stuck start) "Camera Hub" _
           (snd (win_find_running_pids "Camera Hub" win_stuck start))).
  vm_compute. reflexivity.
Defined.

Lemma emits_for_each_on (P : syscall -> Prop) {A} (Q : A -> Prop) (f : A -> M unit) xs :
  Forall Q xs -> (forall x, Q x -> emits P (f x)) -> emits P (for_each f xs).
Proof.
  intros HQ Hf. induction HQ as [|x rest Hx _ IH]; simpl.
  - apply emits_ret.
  - apply emits_bind; [apply Hf, Hx | intros _; exact IH].
Qed.

Lemma mac_wait_quit_emits (P : syscall -> Prop) fuel deadline bid :
  (forall script, P (Spawn ["osascript"; "-e"; script])) -> P (Sleep 300) ->
  emits P (mac_wait_quit fuel deadline bid).
Proof.
  intros Hspawn Hsleep. induction fuel as [|fuel IH]; simpl.
  - apply emits_bind; [apply emits_time_time | intros now].
    destruct (now <? deadline)%Z; [apply emits_diverge | apply emits_ret].
  - apply emits_bind; [apply emits_time_time | intros now].
    destruct (now <? deadline)%Z; [|apply emits_ret].
    apply emits_bind.
    + unfold mac_count_running_procs, run.
      apply emits_bind; [|intros out; destruct (int out); apply emits_ret].
      apply emits_bind; [apply emits_subprocess_run, Hspawn | intro; apply emits_ret].
    + intros n. destruct (n =? 0)%Z; [apply emits_ret|].
      apply emits_bind; [apply emits_time_sleep; [lia | exact Hsleep] | intro; exact IH].
Qed.

Lemma mac_quit_app_emits (P : syscall -> Prop) bid timeout force :
  (forall script, P (Spawn ["osascript"; "-e"; script])) -> P (Sleep 300) ->
  (force = true -> forall pid, (0 <= pid)%Z -> P (Kill pid 9)) ->
  emits P (mac_quit_app bid timeout force).
Proof.
  intros Hspawn Hsleep Hkill. unfold mac_quit_app.
  apply emits_bind; [apply emits_subprocess_run, Hspawn | intros _].
  apply emits_bind; [apply emits_time_time | intros now].
  apply emits_bind; [apply mac_wait_quit_emits; assumption | intros returned].
  destruct returned; [apply emits_ret|].
  destruct force; [|apply emits_ret].
  apply emits_bind_ok.
  - unfold mac_pids_for, run.
    apply emits_bind; [|intros out; destruct out; [apply emits_ret | apply emits_ints_of]].
    apply emits_bind; [apply emits_subprocess_run, Hspawn | intro; apply emits_ret].
  - intros pids (w & s & s' & H). apply mac_pids_for_nonneg in H.
    apply (emits_for_each_on P (fun p => (0 <= p)%Z)); [exact H|].
    intros pid Hpid. unfold kill_quietly.
    apply emits_try_except; [apply emits_os_kill, Hkill; [reflexivity | exact Hpid]|].
    intros e k He. destruct e; try discriminate. injection He as <-. apply emits_ret.
Qed.

(** X8: whatever the system answers, every signal [mac_quit_app] sends is
    signal 9 to a process id that is not negative, and with
    [force_after_timeout] false it sends no signal at all.  The id 0 is not
    excluded: see [mac_quit_app_signals_own_group]. *)
Theorem mac_quit_app_signals bid timeout force w s :
  exists d,
    log (snd (mac_quit_app bid timeout force w s)) = log s ++ d /\
    Forall safe_signal d /\
    (force = false -> Forall not_kill d).
Proof.
  destruct (mac_quit_app_emits safe_signal bid timeout force
              (fun _ => I) I (fun _ pid Hpid => conj Hpid eq_refl) w s)
    as (d & E & F & _).
  exists d. split; [exact E|]. split; [exact F|].
  intros ->.
  destruct (mac_quit_app_emits not_kill bid timeout false
              (fun _ => eq_refl) eq_refl (fun H => ltac:(discriminate H)) w s)
    as (d' & E' & F' & _).
  rewrite E in E'. apply app_inv_head in E'. subst d'. exact F'.
Qed.

(** When the listing of process ids answers 0, the signal goes to the id 0,
    which for [os.kill] is the process group of the caller. *)
Lemma mac_quit_app_signals_own_group :
  fst (mac_pids_for hub_id mac_zero start) = Ok [0%Z] /\
  kills (log (snd (mac_quit_app hub_id 700 true mac_zero start))) = [Kill 0 9].
Proof. split; vm_compute; reflexivity. Qed.




End StopMore.

(** ** More on the restart scope *)

Module ScopeMore.
Import PyStr PathLib Os Restarter Pred MorePred Worlds PyStrFacts OsFacts Termination
  ScopeFacts LifecycleFacts StopMore.

(** X10: on a platform that is neither macOS nor Windows, a scope raises
    RuntimeError naming the platform, without any system call, and the work
    in it never runs. *)
Theorem scope_on_other_platform {A} search timeout force flag (body : M A) w s :
  sys_platform w <> "darwin" ->
  startswith (sys_platform w) "win" = false ->
  scope search timeout force flag body w s
    = (Raise (RuntimeError [Lit "Unsupported platform: "; Fmt (sys_platform w)]), s).
Proof.
  intros Hmac Hwin. unfold scope, init, with_, enter, bind, platform, ret, raise. simpl.
  assert (E : eqb (sys_platform w) "darwin" = false).
  { destruct (eqb (sys_platform w) "darwin") eqn:E; [|reflexivity].
    apply eqb_eq in E. contradiction. }
  rewrite E, Hwin. reflexivity.
Qed.

Lemma scope_on_other_platform_witness :
  scope "Camera Hub" 20000 true false (ret 1%Z) linux_box start
    = (Raise (RuntimeError [Lit "Unsupported platform: "; Fmt "linux"]), start).
Proof.
  apply (scope_on_other_platform "Camera Hub" 20000 true false (ret 1%Z) linux_box start).
  - discriminate.
  - reflexivity.
Defined.

(** X11: on macOS, when the bundle identifier of the located bundle reads
    as empty or as "(null)", entering raises RuntimeError naming the bundle
    right after that query, and when the query itself raises, its error
    reaches the invoker as it is; either way the work in the scope never
    runs. *)
Theorem enter_without_bundle_id self w s app_path s1 :
  _platform self = "mac" ->
  mac_mdfind_app (search self) w s = (Ok (Some app_path), s1) ->
  (forall bid s2,
     mac_bundle_id_for app_path w s1 = (Ok bid, s2) ->
     bid = "" \/ bid = "(null)" ->
     forall A (body : M A),
       with_ self body w s =
         (Raise (RuntimeError [Lit "[macOS] Could not determine bundle id for: ";
                               Fmt (path_str app_path)]), s2)) /\
  (forall e s2,
     mac_bundle_id_for app_path w s1 = (Raise e, s2) ->
     forall A (body : M A), with_ self body w s = (Raise e, s2)).
Proof.
  intros Hp Hfind.
  assert (E : forall A (body : M A),
            with_ self body w s
            = match mac_bundle_id_for app_path w s1 with
              | (Ok bid, s2) =>
                  if eqb bid "" || eqb bid "(null)" then
                    (Raise (RuntimeError [Lit "[macOS] Could not determine bundle id for: ";
                                          Fmt (path_str app_path)]), s2)
                  else with_ self body w s
              | (Raise e, s2) => (Raise e, s2)
              | (Diverge, s2) => (Diverge, s2)
              end).
  { intros A body. destruct (mac_bundle_id_for app_path w s1) as [[bid|e|] s2] eqn:Eb.
    - destruct (eqb bid "" || eqb bid "(null)") eqn:Ebid; [|reflexivity].
      unfold with_, enter. rewrite Hp. change (eqb "mac" "mac") with true. cbv iota.
      unfold bind at 1. unfold bind at 1. rewrite Hfind.
      unfold bind at 1. rewrite Eb, Ebid. reflexivity.
    - unfold with_, enter. rewrite Hp. change (eqb "mac" "mac") with true. cbv iota.
      unfold bind at 1. unfold bind at 1. rewrite Hfind.
      unfold bind at 1. rewrite Eb. reflexivity.
    - unfold with_, enter. rewrite Hp. change (eqb "mac" "mac") with true. cbv iota.
      unfold bind at 1. unfold bind at 1. rewrite Hfind.
      unfold bind at 1. rewrite Eb. reflexivity. }
  split.
  - intros bid s2 Hb Hbid A body. rewrite (E A body), Hb.
    destruct Hbid as [-> | ->]; reflexivity.
  - intros e s2 Hb A body. rewrite (E A body), Hb. reflexivity.
Qed.

Lemma enter_without_bundle_id_witness :
  fst (with_ (camera_hub "mac" true) (ret 1%Z) mac_anonymous start)
    = Raise (RuntimeError [Lit "[macOS] Could not determine bundle id for: ";
                           Fmt "/Applications/Camera Hub.app"]).
Proof.
  assert (Hfind : mac_mdfind_app "Camera Hub" mac_anonymous start
                  = (Ok (Some {| root := "/"; parts := ["Applications"; "Camera Hub.app"] |}),
                     snd (mac_mdfind_app "Camera Hub" mac_anonymous start)))
    by (vm_compute; reflexivity).
  set (s1 := snd (mac_mdfind_app "Camera Hub" mac_anonymous start)) in *.
  assert (Hb : mac_bundle_id_for {| root := "/"; parts := ["Applications"; "Camera Hub.app"] |}
                 mac_anonymous s1
               = (Ok "(null)",
                  snd (mac_bundle_id_for
                         {| root := "/"; parts := ["Applications"; "Camera Hub.app"] |}
                         mac_anonymous s1)))
    by (vm_compute; reflexivity).
  exact (f_equal fst
           (proj1 (enter_without_bundle_id (camera_hub "mac" true) mac_anonymous start
                     _ _ eq_refl Hfind)
              _ _ Hb (or_intror eq_refl) Z (ret 1%Z))).
Defined.

Lemma appends_refl P s : appends P s s.
Proof. exists []. rewrite app_nil_r. split; [reflexivity | constructor]. Qed.

Lemma appends_trans P s s1 s2 : appends P s s1 -> appends P s1 s2 -> appends P s s2.
Proof.
  intros (d1 & E1 & F1) (d2 & E2 & F2). exists (d1 ++ d2).
  rewrite E2, E1, app_assoc. split; [reflexivity | apply Forall_app; split; assumption].
Qed.

Lemma appends_run P {A} (m : M A) w s : emits P m -> appends P s (snd (m w s)).
Proof. intros Hm. destruct (Hm w s) as (d & E & F & _). exists d. split; assumption. Qed.

Lemma endswith_snoc s p c d :
  endswith (s ++ [c]) (p ++ [d]) = Ascii.eqb c d && endswith s p.
Proof. unfold endswith. rewrite !rev_app_distr. reflexivity. Qed.

Lemma count_script_not_quit bid : endswith (count_script bid) " to quit" = false.
Proof.
  unfold count_script, q, dq.
  rewrite !app_assoc.
  exact (endswith_snoc _ " to qui" ")"%char "t"%char).
Qed.

Lemma hush_mac_mdfind_app search : emits not_stop (mac_mdfind_app search).
Proof.
  unfold mac_mdfind_app, run.
  apply emits_bind.
  - apply emits_bind; [apply emits_subprocess_run; reflexivity | intro; apply emits_ret].
  - intros out. destruct (bundle_hits out); [apply emits_ret|].
    destruct (sort_desc _ _); [apply emits_raise | apply emits_ret].
Qed.

Lemma hush_mac_bundle_id_for p : emits not_stop (mac_bundle_id_for p).
Proof.
  unfold mac_bundle_id_for, run.
  apply emits_bind; [apply emits_subprocess_run; vm_compute; reflexivity
                    | intro; apply emits_ret].
Qed.

Lemma hush_mac_count_running_procs bid : emits not_stop (mac_count_running_procs bid).
Proof.
  unfold mac_count_running_procs, run.
  apply emits_bind.
  - apply emits_bind; [apply emits_subprocess_run | intro; apply emits_ret].
    unfold not_stop, is_stop. rewrite count_script_not_quit, !andb_false_r. reflexivity.
  - intros out. destruct (int out); apply emits_ret.
Qed.

Lemma hush_ps_run script arg check :
  eqb script script_close || eqb script script_kill = false ->
  emits not_stop (ps_run script arg check).
Proof.
  intros H. apply ps_run_emits.
  - intros exe. reflexivity.
  - intros exe. destruct arg as [a|]; [exact H | reflexivity].
Qed.

Lemma hush_win_find_running_pids search : emits not_stop (win_find_running_pids search).
Proof.
  unfold win_find_running_pids.
  apply emits_bind; [apply hush_ps_run; vm_compute; reflexivity
                    | intro; apply emits_ints_of].
Qed.

Lemma hush_win_resolve_launch_target search fb :
  emits not_stop (win_resolve_launch_target search fb).
Proof.
  unfold win_resolve_launch_target.
  assert (H : emits not_stop
                (out <- ps_run script_lnk (Some search) false ;;
                 match strip out with
                 | _ :: _ => ret ("exe", strip out)
                 | [] =>
                     out <- ps_run script_uwp (Some search) false ;;
                     match strip out with
                     | _ :: _ => ret ("uwp", strip out)
                     | [] => ret ("alias", search)
                     end
                 end)).
  { apply emits_bind; [apply hush_ps_run; vm_compute; reflexivity | intros out].
    destruct (strip out); [|apply emits_ret].
    apply emits_bind; [apply hush_ps_run; vm_compute; reflexivity | intros out2].
    destruct (strip out2); apply emits_ret. }
  destruct fb as [[|c p]|]; [exact H | apply emits_ret | exact H].
Qed.

(** X12: when the application is not observed running, entering the scope
    sends no request to stop it: no quit request, no close script, no
    force-termination script and no signal, whatever the outcome of the
    entry. *)
Theorem enter_idle_sends_no_stop self w s :
  observed_running self w s = false ->
  exists d, log (snd (enter self w s)) = log s ++ d /\ Forall not_stop d.
Proof.
  change (observed_running self w s = false -> appends not_stop s (snd (enter self w s))).
  unfold enter, observed_running.
  destruct (eqb (_platform self) "mac") eqn:Emac.
  - unfold bind at 1.
    pose proof (appends_run not_stop _ w s (hush_mac_mdfind_app (search self))) as A0.
    destruct (mac_mdfind_app (search self) w s) as [[[app|]|e|] s0]; simpl in A0;
      try (intros _; exact A0).
    unfold bind at 1.
    pose proof (appends_run not_stop _ w s0 (hush_mac_bundle_id_for app)) as A1.
    pose proof (appends_trans _ _ _ _ A0 A1) as A01. clear A0 A1.
    destruct (mac_bundle_id_for app w s0) as [[bid|e|] s2]; simpl in A01;
      try (intros _; exact A01).
    destruct (eqb bid "" || eqb bid "(null)"); [intros _; exact A01|].
    unfold bind at 1.
    pose proof (appends_run not_stop _ w s2 (hush_mac_count_running_procs bid)) as A2.
    pose proof (appends_trans _ _ _ _ A01 A2) as A. clear A01 A2.
    destruct (mac_count_running_procs bid w s2) as [[n|e|] s3]; simpl in A;
      try (intros _; exact A).
    intros ->. exact A.
  - destruct (eqb (_platform self) "win") eqn:Ewin.
    + unfold bind at 1.
      pose proof (appends_run not_stop _ w s (hush_win_find_running_pids (search self))) as A0.
      destruct (win_find_running_pids (search self) w s) as [[[|p ps]|e|] s0]; simpl in A0;
        try (intros _; exact A0); try discriminate.
      intros _. unfold bind at 1. unfold ret at 1. unfold bind at 1.
      pose proof (appends_run not_stop _ w s0
                    (hush_win_resolve_launch_target (search self) None)) as A1.
      pose proof (appends_trans _ _ _ _ A0 A1) as A. clear A0 A1.
      destruct (win_resolve_launch_target (search self) None w s0) as [[[mode target]|e|] s1];
        exact A.
    + intros _. apply appends_refl.
Qed.

Lemma enter_idle_witness :
  Forall not_stop (log (snd (enter (camera_hub "mac" true) mac_idle start))).
Proof.
  destruct (enter_idle_sends_no_stop (camera_hub "mac" true) mac_idle start)
    as (d & E & F).
  - vm_compute. reflexivity.
  - rewrite E. exact F.
Defined.

Lemma emits_weaken (P Q : syscall -> Prop) {A} (m : M A) :
  (forall e, P e -> Q e) -> emits P m -> emits Q m.
Proof.
  intros HPQ Hm w s. destruct (Hm w s) as (d & E & F & C).
  exists d. repeat split; [exact E | eapply Forall_impl; [exact F | exact HPQ] | exact C].
Qed.

Lemma stop_sent_after P s s1 s2 : appends P s s1 -> stop_sent s1 s2 -> stop_sent s s2.
Proof.
  intros (d1 & E1 & _) (d2 & E2 & X). exists (d1 ++ d2).
  rewrite E2, E1, app_assoc. split; [reflexivity | apply Exists_app; right; exact X].
Qed.

Lemma stop_sent_before P s s1 s2 : stop_sent s s1 -> appends P s1 s2 -> stop_sent s s2.
Proof.
  intros (d1 & E1 & X) (d2 & E2 & _). exists (d1 ++ d2).
  rewrite E2, E1, app_assoc. split; [reflexivity | apply Exists_app; left; exact X].
Qed.

Lemma startswith_app p r : startswith (p ++ r) p = true.
Proof.
  induction p as [|c p IH]; simpl; [destruct r; reflexivity|].
  rewrite Ascii.eqb_refl. exact IH.
Qed.

Lemma endswith_app s p : endswith (s ++ p) p = true.
Proof. unfold endswith. rewrite rev_app_distr. apply startswith_app. Qed.

Lemma quit_script_is_stop bid : is_stop (Spawn ["osascript"; "-e"; quit_script bid]) = true.
Proof.
  unfold is_stop, quit_script. rewrite app_assoc, endswith_app. reflexivity.
Qed.

Lemma subprocess_run_log argv check w s :
  log (snd (subprocess_run argv check w s)) = log s ++ [Spawn argv].
Proof.
  unfold subprocess_run. destruct (outcome _) as [e|[rc out]]; [reflexivity|].
  destruct (check && _); reflexivity.
Qed.

Lemma mac_quit_app_asks bid timeout force w s :
  stop_sent s (snd (mac_quit_app bid timeout force w s)).
Proof.
  unfold mac_quit_app. unfold bind at 1.
  assert (X0 : stop_sent s (snd (subprocess_run ["osascript"; "-e"; quit_script bid]
                                   false w s))).
  { exists [Spawn ["osascript"; "-e"; quit_script bid]].
    split; [apply subprocess_run_log | constructor; apply quit_script_is_stop]. }
  destruct (subprocess_run ["osascript"; "-e"; quit_script bid] false w s)
    as [[r|e|] s0]; simpl in X0; try exact X0.
  eapply stop_sent_before; [exact X0|].
  apply (appends_run (fun _ => True)).
  apply emits_bind; [apply emits_time_time | intros now].
  apply emits_bind; [apply mac_wait_quit_emits; intros; exact I | intros returned].
  destruct returned; [apply emits_ret|].
  destruct force; [|apply emits_ret].
  apply emits_bind; [eapply emits_weaken; [|apply calm_mac_pids_for]; intros; exact I|].
  intros pids. apply emits_for_each. intros pid.
  eapply emits_weaken; [|apply awake_kill_quietly]. intros; exact I.
Qed.

Lemma ps_run_ok_log script a check w s o s' :
  ps_run script (Some a) check w s = (Ok o, s') ->
  exists d exe,
    log s' = log s ++ d ++ [Spawn [exe; "-NoProfile"; "-Command"; script; a]].
Proof.
  unfold ps_run. unfold bind at 1.
  destruct (ticks_ps_exe w s) as (d0 & E0 & _).
  destruct (ps_exe w s) as [[l|e|] s1] eqn:Eexe; try discriminate.
  apply ps_exe_shape in Eexe as [exe ->]. simpl in E0.
  unfold bind.
  pose proof (subprocess_run_log
                ([exe; "-NoProfile"; "-Command"] ++ [script] ++ [a]) check w s1) as E1.
  destruct (subprocess_run _ check w s1) as [[r|e|] s2]; try discriminate.
  unfold ret. intros H. injection H as _ <-. simpl in E1.
  exists d0, exe. rewrite E1, E0, <- app_assoc. reflexivity.
Qed.

Lemma win_quit_pids_asks p ps timeout force w s s' :
  win_quit_pids (p :: ps) timeout force w s = (Ok tt, s') -> stop_sent s s'.
Proof.
  unfold win_quit_pids. unfold bind at 1.
  destruct (ps_run script_close (Some (pid_list (p :: ps))) false w s)
    as [[o|e|] s1] eqn:E1; try discriminate.
  apply ps_run_ok_log in E1 as (d0 & exe & E1).
  assert (X : stop_sent s s1).
  { exists (d0 ++ [Spawn [exe; "-NoProfile"; "-Command"; script_close; pid_list (p :: ps)]]).
    split; [exact E1|]. apply Exists_app. right. constructor. vm_compute. reflexivity. }
  match goal with
  | |- ?m w s1 = _ -> _ => assert (Hrest : emits (fun _ => True) m)
  end.
  { apply emits_bind; [apply emits_time_time | intros now].
    apply emits_bind.
    - eapply emits_weaken; [|apply quiet_win_wait_quit]. intros; exact I.
    - intros returned. destruct returned; [apply emits_ret|].
      destruct force; [|apply emits_ret].
      apply emits_bind; [|intro; apply emits_ret].
      eapply emits_weaken; [|apply awake_ps_run]. intros; exact I. }
  intros H. pose proof (appends_run _ _ w s1 Hrest) as A. rewrite H in A.
  exact (stop_sent_before _ _ _ _ X A).
Qed.

Lemma hush_first_exec_path pids : emits not_stop (first_exec_path pids).
Proof.
  induction pids as [|pid rest IH]; simpl; [apply emits_ret|].
  apply emits_bind.
  - unfold win_exec_path_for_pid.
    apply emits_bind; [apply hush_ps_run; vm_compute; reflexivity | intro; apply emits_ret].
  - intros [[|c p]|]; [exact IH | apply emits_ret | exact IH].
Qed.

(** X13: when the application is observed running and the entry succeeds,
    a request to stop it was sent on the way: the quit request on macOS,
    the close script on Windows. *)
Theorem enter_running_sends_stop self w s self' s1 :
  enter self w s = (Ok self', s1) ->
  observed_running self w s = true ->
  exists d, log s1 = log s ++ d /\ Exists (fun e => is_stop e = true) d.
Proof.
  change (enter self w s = (Ok self', s1) -> observed_running self w s = true ->
          stop_sent s s1).
  unfold enter, observed_running.
  destruct (eqb (_platform self) "mac") eqn:Emac.
  - unfold bind at 1.
    pose proof (appends_run not_stop _ w s (hush_mac_mdfind_app (search self))) as A0.
    destruct (mac_mdfind_app (search self) w s) as [[[app|]|e|] s0]; simpl in A0;
      absurd_raise.
    unfold bind at 1.
    pose proof (appends_run not_stop _ w s0 (hush_mac_bundle_id_for app)) as A1.
    pose proof (appends_trans _ _ _ _ A0 A1) as A01. clear A0 A1.
    destruct (mac_bundle_id_for app w s0) as [[bid|e|] s2]; simpl in A01; absurd_raise.
    destruct (eqb bid "" || eqb bid "(null)"); absurd_raise.
    unfold bind at 1.
    pose proof (appends_run not_stop _ w s2 (hush_mac_count_running_procs bid)) as A2.
    pose proof (appends_trans _ _ _ _ A01 A2) as A. clear A01 A2.
    destruct (mac_count_running_procs bid w s2) as [[n|e|] s3]; simpl in A; absurd_raise.
    destruct (n >? 0)%Z; absurd_raise.
    unfold bind at 1.
    pose proof (mac_quit_app_asks bid (timeout_ms self) (force_after_timeout self) w s3) as X.
    destruct (mac_quit_app bid (timeout_ms self) (force_after_timeout self) w s3)
      as [[[]|e|] s4]; simpl in X; absurd_raise.
    unfold ret. intros H _. injection H as _ <-.
    exact (stop_sent_after _ _ _ _ A X).
  - destruct (eqb (_platform self) "win") eqn:Ewin; absurd_raise.
    unfold bind at 1.
    pose proof (appends_run not_stop _ w s (hush_win_find_running_pids (search self))) as A0.
    destruct (win_find_running_pids (search self) w s) as [[[|p ps]|e|] s0]; simpl in A0;
      absurd_raise.
    unfold bind at 1. unfold bind at 1.
    pose proof (appends_run not_stop _ w s0 (hush_first_exec_path (p :: ps))) as A1.
    pose proof (appends_trans _ _ _ _ A0 A1) as A. clear A0 A1.
    destruct (first_exec_path (p :: ps) w s0) as [[exe|e|] s2]; simpl in A; absurd_raise.
    unfold bind at 1.
    destruct (win_quit_pids (p :: ps) (timeout_ms self) (force_after_timeout self) w s2)
      as [[[]|e|] s3] eqn:Eq; absurd_raise.
    apply win_quit_pids_asks in Eq.
    unfold ret at 1. unfold bind at 1.
    pose proof (appends_run not_stop _ w s3
                  (hush_win_resolve_launch_target (search self) exe)) as A2.
    destruct (win_resolve_launch_target (search self) exe w s3)
      as [[[mode target]|e|] s4]; simpl in A2; absurd_raise.
    unfold ret. intros H _. injection H as _ <-.
    exact (stop_sent_before _ _ _ _ (stop_sent_after _ _ _ _ A Eq) A2).
Qed.

Lemma enter_running_witness :
  Exists (fun e => is_stop e = true)
    (log (snd (enter (camera_hub "mac" false) mac_busy start))).
Proof.
  assert (H : enter (camera_hub "mac" false) mac_busy start
              = (Ok (entered (camera_hub "mac" false) (MacInfo hub_id) true),
                 snd (enter (camera_hub "mac" false) mac_busy start)))
    by (vm_compute; reflexivity).
  destruct (enter_running_sends_stop _ _ _ _ _ H) as (d & E & X).
  - vm_compute. reflexivity.
  - rewrite E. exact X.
Defined.

(** X14: a scope never swallows an exception and never invents a result:
    it returns normally only when the entry succeeded and the work in it
    returned, and then it yields the value of the work, after the exit has
    run. *)
Theorem with_returns_only_the_work {A} self (body : M A) w s r s' :
  with_ self body w s = (Ok r, s') ->
  exists self' s1 v s2,
    enter self w s = (Ok self', s1) /\
    body w s1 = (Ok v, s2) /\
    r = Some v /\
    s' = snd (exit_ self' None w s2).
Proof.
  unfold with_. unfold bind at 1.
  destruct (enter self w s) as [[self'|e|] s1]; try discriminate.
  destruct (body w s1) as [[v|e|] s2] eqn:Eb; try discriminate.
  - unfold bind, ret. pose proof (exit_returns_false self' None w s2) as Hx.
    destruct (exit_ self' None w s2) as [[b|e|] s3] eqn:Ex; try discriminate.
    intros H. injection H as <- <-. exists self', s1, v, s2. rewrite Ex.
    repeat split. exact Eb.
  - unfold bind, raise. pose proof (exit_returns_false self' (Some e) w s2) as Hx.
    destruct (exit_ self' (Some e) w s2) as [[b|e'|] s3]; try discriminate.
    simpl in Hx. injection Hx as ->. discriminate.
Qed.

Lemma with_returns_only_the_work_witness :
  exists self' s1 s2,
    enter (camera_hub "mac" true) mac_idle start = (Ok self', s1) /\
    ret 7%Z mac_idle s1 = (Ok 7%Z, s2).
Proof.
  assert (H : with_ (camera_hub "mac" true) (ret 7%Z) mac_idle start
              = (Ok (Some 7%Z), snd (with_ (camera_hub "mac" true) (ret 7%Z) mac_idle start)))
    by (vm_compute; reflexivity).
  destruct (with_returns_only_the_work _ _ _ _ _ _ H) as (self' & s1 & v & s2 & He & Hb & Hv & _).
  injection Hv as <-. exists self', s1, s2. split; assumption.
Defined.

Lemma not_darwin p : startswith p "win" = true -> eqb p "darwin" = false.
Proof.
  intros H. destruct (eqb p "darwin") eqn:E; [|reflexivity].
  apply eqb_eq in E. subst p. discriminate H.
Qed.

Lemma ps_exe_missing w s :
  (forall h exe, exists p, outcome (spawn w h (ps_probe exe)) = inl (FileNotFoundError p)) ->
  exists s',
    ps_exe w s = (Raise (RuntimeError [Lit "PowerShell not found in PATH."]), s') /\
    log s' = log s ++ [Spawn (ps_probe "powershell"); Spawn (ps_probe "pwsh")].
Proof.
  intros Hno. unfold ps_exe, ps_try, try_except, bind, subprocess_run, raise.
  destruct (Hno (log s) "powershell") as [p1 E1]. rewrite E1. cbv beta iota zeta.
  cbn [log clock].
  destruct (Hno (log s ++ [Spawn (ps_probe "powershell")]) "pwsh") as [p2 E2].
  rewrite E2. eexists. split; [reflexivity|]. cbn [log]. rewrite <- app_assoc. reflexivity.
Qed.

(** X15: on Windows, when neither powershell nor pwsh can be started, a
    scope raises RuntimeError("PowerShell not found in PATH.") after
    exactly the two probes, and the work in it never runs. *)
Theorem scope_without_powershell {A} search timeout force flag (body : M A) w s :
  startswith (sys_platform w) "win" = true ->
  (forall h exe, exists p, outcome (spawn w h (ps_probe exe)) = inl (FileNotFoundError p)) ->
  exists s',
    scope search timeout force flag body w s
      = (Raise (RuntimeError [Lit "PowerShell not found in PATH."]), s') /\
    log s' = log s ++ [Spawn (ps_probe "powershell"); Spawn (ps_probe "pwsh")].
Proof.
  intros Hwin Hno. destruct (ps_exe_missing w s Hno) as (s' & E & L).
  exists s'. split; [|exact L].
  unfold scope, init, with_, platform. unfold bind at 1. unfold bind at 1. unfold ret at 1.
  unfold bind at 1. unfold enter. cbn [_platform Restarter.search].
  rewrite (not_darwin _ Hwin), Hwin.
  change (eqb "win" "mac") with false. change (eqb "win" "win") with true. cbv iota.
  unfold bind at 1. unfold win_find_running_pids. unfold bind at 1. unfold ps_run.
  unfold bind at 1. rewrite E. reflexivity.
Qed.

Lemma scope_without_powershell_witness :
  fst (scope "Camera Hub" 20000 true true (ret 1%Z) win_shellless start)
    = Raise (RuntimeError [Lit "PowerShell not found in PATH."]).
Proof.
  destruct (scope_without_powershell "Camera Hub" 20000 true true (ret 1%Z)
              win_shellless start) as (s' & E & _).
  - reflexivity.
  - intros h exe. exists exe. reflexivity.
  - rewrite E. reflexivity.
Defined.

(** X16: which PowerShell [ps_exe] picks: powershell when its probe starts,
    whatever its exit status; pwsh when powershell is not found and the
    probe of pwsh starts; an error of a probe other than FileNotFoundError
    is not caught. *)
Theorem ps_exe_choice w s :
  (forall rc out,
     outcome (spawn w (log s) (ps_probe "powershell")) = inr (rc, out) ->
     fst (ps_exe w s) = Ok ["powershell"; "-NoProfile"; "-Command"]) /\
  (forall p rc out,
     outcome (spawn w (log s) (ps_probe "powershell")) = inl (FileNotFoundError p) ->
     outcome (spawn w (log s ++ [Spawn (ps_probe "powershell")]) (ps_probe "pwsh"))
       = inr (rc, out) ->
     fst (ps_exe w s) = Ok ["pwsh"; "-NoProfile"; "-Command"]) /\
  (forall e,
     outcome (spawn w (log s) (ps_probe "powershell")) = inl e ->
     (forall p, e <> FileNotFoundError p) ->
     fst (ps_exe w s) = Raise e).
Proof.
  unfold ps_exe, ps_try, try_except, bind, subprocess_run, ret. repeat split.
  - intros rc out E. rewrite E. reflexivity.
  - intros p rc out E1 E2. rewrite E1. cbv beta iota zeta. cbn [log clock].
    rewrite E2. reflexivity.
  - intros e E Hne. rewrite E. cbv beta iota zeta.
    destruct e; try reflexivity. exfalso. exact (Hne _ eq_refl).
Qed.

Lemma ps_exe_choice_witness :
  fst (ps_exe win_pwsh_only start) = Ok ["pwsh"; "-NoProfile"; "-Command"].
Proof.
  apply (proj1 (proj2 (ps_exe_choice win_pwsh_only start)) "powershell" 1%Z "");
    reflexivity.
Defined.

(** X17: with a finite timeout, a clock that does not go back and system
    calls that all return, a scope ends whenever the work in it ends,
    whatever the system answers. *)
Theorem scope_ends {A} search timeout force flag (body : M A) :
  converges body -> converges (scope search timeout force flag body).
Proof.
  intros Hb. unfold scope, init.
  apply converges_bind.
  - apply converges_bind; [apply converges_platform | intro; apply converges_ret].
  - intros cm. apply converges_with. exact Hb.
Qed.

Lemma scope_ends_witness :
  fst (scope "Camera Hub" 700 true false (ret 1%Z) mac_stubborn start) <> Diverge.
Proof.
  apply (scope_ends "Camera Hub" 700 true false (ret 1%Z)).
  intros w s. discriminate.
Defined.

End ScopeMore.

(** ** Reading chapters *)

Module LinesMore.
Import PyStr PrompterStore MorePred PyStrFacts ScopeFacts SlugMore.

Lemma code_is_eqb n c : (n < 256)%nat -> code_is n c = Ascii.eqb c (chr n).
Proof.
  intros Hn. unfold code_is, ord, chr.
  destruct (Ascii.eqb c (ascii_of_nat n)) eqn:E.
  - apply Ascii.eqb_eq in E. subst c. rewrite nat_ascii_embedding by exact Hn.
    apply Nat.eqb_refl.
  - apply Nat.eqb_neq. intros H. apply Ascii.eqb_neq in E. apply E.
    rewrite <- H. symmetry. apply ascii_nat_embedding.
Qed.

Lemma lstrip_with_clean {C} (p : C -> bool) (s : list C) :
  Forall (fun c => p c = false) s -> lstrip_with p s = s.
Proof. intros [|c t Hc _]; simpl; [reflexivity | rewrite Hc; reflexivity]. Qed.

Lemma Forall_rev_str {C} (P : C -> Prop) (s : list C) : Forall P s -> Forall P (rev s).
Proof.
  induction 1 as [|c t Hc _ IH]; simpl; [constructor|].
  apply Forall_app. split; [exact IH | constructor; [exact Hc | constructor]].
Qed.

Lemma lstrip_with_Forall {C} (p : C -> bool) (s : list C) :
  Forall (fun c => p c = true) (lstrip_with p s) <-> Forall (fun c => p c = true) s.
Proof.
  induction s as [|c t IH]; simpl; [reflexivity|].
  destruct (p c) eqn:E; [|reflexivity].
  rewrite IH. split; [intros H; constructor; assumption | intros H; inversion H; assumption].
Qed.

Lemma lstrip_with_nil {C} (p : C -> bool) (s : list C) :
  lstrip_with p s = [] <-> Forall (fun c => p c = true) s.
Proof.
  induction s as [|c t IH]; simpl.
  - split; [constructor | reflexivity].
  - destruct (p c) eqn:E.
    + rewrite IH. split; [intros H; constructor; assumption
                         | intros H; inversion H; assumption].
    + split; [discriminate | intros H; inversion H; congruence].
Qed.

(** A text strips to nothing exactly when it is all white space. *)
Lemma strip_with_nil {C} (p : C -> bool) (s : list C) :
  strip_with p s = [] <-> Forall (fun c => p c = true) s.
Proof.
  unfold strip_with, rstrip_with. rewrite <- (lstrip_with_Forall p s).
  set (u := lstrip_with p s). split.
  - intros H. apply (f_equal (@rev C)) in H. rewrite rev_involutive in H. simpl in H.
    apply lstrip_with_nil in H. apply Forall_rev_str in H. rewrite rev_involutive in H.
    exact H.
  - intros H. apply Forall_rev_str in H. apply lstrip_with_nil in H. rewrite H. reflexivity.
Qed.

Lemma strip_snoc_newline body :
  strip (body ++ [chr 10]) <> [] -> strip body <> [].
Proof.
  unfold strip. intros H E. apply H. apply strip_with_nil. apply strip_with_nil in E.
  apply Forall_app. split; [exact E | constructor; [reflexivity | constructor]].
Qed.

Lemma strip_newline_snoc body :
  strip body <> [] -> strip (body ++ [chr 10]) <> [].
Proof.
  unfold strip. intros H E. apply H. apply strip_with_nil. apply strip_with_nil in E.
  apply Forall_app in E. exact (proj1 E).
Qed.

Lemma one_line_no_newline body :
  one_line body -> Forall (fun c => char_in [chr 10] c = false) body.
Proof.
  intros H. eapply Forall_impl; [exact H|]. intros c [H10 _]. unfold char_in. simpl.
  rewrite <- (code_is_eqb 10) by lia. rewrite H10. reflexivity.
Qed.

Lemma rstrip_newline_line body :
  one_line body ->
  rstrip_chars [chr 10] (body ++ [chr 10]) = body /\ rstrip_chars [chr 10] body = body.
Proof.
  intros H. apply one_line_no_newline, Forall_rev_str in H.
  unfold rstrip_chars, rstrip_with. rewrite rev_app_distr. simpl.
  rewrite (lstrip_with_clean _ _ H), rev_involutive. split; reflexivity.
Qed.

Lemma one_line_rev cur : one_line cur -> one_line (rev cur).
Proof. apply Forall_rev_str. Qed.

(** Every line of a text file is on one line, with at most the line end
    after it. *)
Lemma file_lines_from_shape n : forall text cur,
  (length text <= n)%nat ->
  one_line cur ->
  Forall (fun l => exists body, one_line body /\ (l = body ++ [chr 10] \/ l = body))
    (file_lines_from cur text).
Proof.
  induction n as [|n IH]; intros text cur Hlen Hcur.
  - destruct text; [|simpl in Hlen; lia]. simpl.
    destruct cur; [constructor|]. constructor; [|constructor].
    exists (rev (a :: cur)). split; [apply one_line_rev, Hcur | right; reflexivity].
  - destruct text as [|c t].
    + simpl. destruct cur; [constructor|]. constructor; [|constructor].
      exists (rev (a :: cur)). split; [apply one_line_rev, Hcur | right; reflexivity].
    + simpl in Hlen. cbn [file_lines_from].
      assert (Hline : exists body, one_line body /\
                        (rev (chr 10 :: cur) = body ++ [chr 10] \/
                         rev (chr 10 :: cur) = body)).
      { exists (rev cur). split; [apply one_line_rev, Hcur | left; reflexivity]. }
      destruct (code_is 10 c) eqn:E10.
      * rewrite (code_is_eqb 10) in E10 by lia. apply Ascii.eqb_eq in E10. subst c.
        constructor; [exact Hline|]. apply IH; [lia | constructor].
      * destruct (code_is 13 c) eqn:E13.
        -- constructor; [exact Hline|].
           destruct t as [|d t']; [apply IH; [simpl; lia | constructor]|].
           simpl in Hlen.
           destruct (code_is 10 d); apply IH; simpl; try lia; constructor.
        -- apply IH; [lia|]. constructor; [split; assumption | exact Hcur].
Qed.

Lemma Forall_map_filter {A B} (Q : A -> Prop) (R : B -> Prop) f (g : A -> B) l :
  Forall Q l -> (forall x, Q x -> f x = true -> R (g x)) ->
  Forall R (map g (List.filter f l)).
Proof.
  intros HQ H. induction HQ as [|x t Hx _ IH]; simpl; [constructor|].
  destruct (f x) eqn:E; [|exact IH]. simpl. constructor; [apply H; assumption | exact IH].
Qed.

Lemma nonblank_true line : negb (eqb (strip line) "") = true <-> strip line <> [].
Proof.
  destruct (eqb (strip line) "") eqn:E; simpl.
  - apply eqb_eq in E. split; [discriminate | intros H; contradiction].
  - split; [|reflexivity]. intros _ H.
    assert (E' : eqb (strip line) "" = true) by (apply eqb_eq; exact H). congruence.
Qed.

(** X18: whatever the file holds, every chapter [read_lines] returns is
    not blank and holds no line end. *)
Theorem read_lines_gives_chapters text : Forall chapter (read_lines text).
Proof.
  unfold read_lines, file_lines.
  apply (Forall_map_filter
           (fun l => exists body, one_line body /\ (l = body ++ [chr 10] \/ l = body))).
  - apply (file_lines_from_shape (length text)); [lia | constructor].
  - intros l (body & Hb & Hl) Hf. apply nonblank_true in Hf.
    destruct (rstrip_newline_line body Hb) as [E1 E2].
    destruct Hl as [-> | ->].
    + rewrite E1. split; [apply strip_snoc_newline, Hf | exact Hb].
    + rewrite E2. split; [exact Hf | exact Hb].
Qed.

Lemma file_lines_from_body body : forall cur rest,
  one_line body ->
  file_lines_from cur (body ++ rest) = file_lines_from (rev body ++ cur) rest.
Proof.
  induction body as [|c body IH]; intros cur rest H; [reflexivity|].
  inversion H as [|? ? [H10 H13] Hrest]; subst.
  cbn [app file_lines_from]. rewrite H10, H13. rewrite IH by exact Hrest.
  simpl. rewrite <- app_assoc. reflexivity.
Qed.

Lemma chapter_nonempty c : chapter c -> c <> [].
Proof. intros [H _] ->. apply H. reflexivity. Qed.

Lemma file_lines_last c :
  chapter c -> file_lines c = [c].
Proof.
  intros H. unfold file_lines.
  rewrite <- (app_nil_r c) at 1. rewrite file_lines_from_body by exact (proj2 H).
  rewrite app_nil_r. simpl.
  destruct (rev c) eqn:E.
  - apply (f_equal (@rev ascii)) in E. rewrite rev_involutive in E.
    destruct (chapter_nonempty c H E).
  - rewrite <- E, rev_involutive. reflexivity.
Qed.

Lemma file_lines_next sep c rest :
  sep = [chr 10] \/ sep = [chr 13; chr 10] ->
  chapter c ->
  file_lines (c ++ sep ++ rest) = (c ++ [chr 10]) :: file_lines rest.
Proof.
  intros Hsep H. unfold file_lines.
  rewrite file_lines_from_body by exact (proj2 H). rewrite app_nil_r.
  destruct Hsep as [-> | ->]; simpl; rewrite rev_involutive; reflexivity.
Qed.

Lemma read_lines_cons c L :
  chapter c ->
  map (rstrip_chars [chr 10])
      (List.filter (fun line => negb (eqb (strip line) "")) ((c ++ [chr 10]) :: L))
  = c :: map (rstrip_chars [chr 10])
           (List.filter (fun line => negb (eqb (strip line) "")) L).
Proof.
  intros [Hs Hl]. cbn [List.filter].
  rewrite (proj2 (nonblank_true (c ++ [chr 10])) (strip_newline_snoc c Hs)).
  cbn [map]. rewrite (proj1 (rstrip_newline_line c Hl)). reflexivity.
Qed.

(** X19: [read_lines] gives back the chapters that were written one per
    line, with LF or CR LF between them and with or without a line end
    after the last one. *)
Theorem read_lines_round_trip sep chapters :
  sep = [chr 10] \/ sep = [chr 13; chr 10] ->
  Forall chapter chapters ->
  read_lines (join sep chapters) = chapters /\
  read_lines (join sep chapters ++ sep) = chapters.
Proof.
  intros Hsep H. induction H as [|c rest Hc Hrest [IH1 IH2]].
  - destruct Hsep as [-> | ->]; split; reflexivity.
  - destruct rest as [|c' rest'].
    + split.
      * unfold read_lines. cbn [join]. rewrite (file_lines_last c Hc).
        cbn [List.filter]. rewrite (proj2 (nonblank_true c) (proj1 Hc)).
        cbn [map]. rewrite (proj2 (rstrip_newline_line c (proj2 Hc))). reflexivity.
      * unfold read_lines. cbn [join].
        rewrite <- (app_nil_r sep) at 1.
        rewrite (file_lines_next sep c [] Hsep Hc), (read_lines_cons c _ Hc).
        reflexivity.
    + change (join sep (c :: c' :: rest')) with (c ++ sep ++ join sep (c' :: rest')).
      split.
      * unfold read_lines. rewrite (file_lines_next sep c _ Hsep Hc), (read_lines_cons c _ Hc).
        f_equal. exact IH1.
      * unfold read_lines. rewrite <- !app_assoc.
        rewrite (file_lines_next sep c _ Hsep Hc), (read_lines_cons c _ Hc).
        f_equal. exact IH2.
Qed.

Lemma read_lines_round_trip_witness :
  read_lines ("Chapter one" ++ [chr 13; chr 10] ++ "  two, indented ")
    = ["Chapter one"; "  two, indented "].
Proof.
  apply (proj1 (read_lines_round_trip [chr 13; chr 10]
                  ["Chapter one"; "  two, indented "] (or_intror eq_refl)
                  ltac:(repeat constructor; vm_compute; discriminate))).
Defined.

End LinesMore.

(** ** Launches over a whole scope *)

Module LaunchMore.
Import PyStr PathLib Os Restarter Pred MorePred Worlds PyStrFacts OsFacts Termination
  ScopeFacts LifecycleFacts StopMore ScopeMore.

Lemma still_ps_run script arg check :
  eqb script script_launch_exe || eqb script script_launch_uwp ||
    eqb script script_launch_alias = false ->
  emits not_launch (ps_run script arg check).
Proof.
  intros H. apply ps_run_emits.
  - intros exe. reflexivity.
  - intros exe. destruct arg as [a|]; [exact H | reflexivity].
Qed.

Lemma still_run_osascript script check :
  emits not_launch (run ["osascript"; "-e"; script] check).
Proof.
  unfold run.
  apply emits_bind; [apply emits_subprocess_run; reflexivity | intro; apply emits_ret].
Qed.

Lemma still_mac_mdfind_app search : emits not_launch (mac_mdfind_app search).
Proof.
  unfold mac_mdfind_app, run.
  apply emits_bind.
  - apply emits_bind; [apply emits_subprocess_run; reflexivity | intro; apply emits_ret].
  - intros out. destruct (bundle_hits out); [apply emits_ret|].
    destruct (sort_desc _ _); [apply emits_raise | apply emits_ret].
Qed.

Lemma still_mac_bundle_id_for p : emits not_launch (mac_bundle_id_for p).
Proof.
  unfold mac_bundle_id_for, run.
  apply emits_bind; [apply emits_subprocess_run; vm_compute; reflexivity
                    | intro; apply emits_ret].
Qed.

Lemma still_mac_count_running_procs bid : emits not_launch (mac_count_running_procs bid).
Proof.
  unfold mac_count_running_procs.
  apply emits_bind; [apply still_run_osascript | intros out].
  destruct (int out); apply emits_ret.
Qed.

Lemma still_mac_quit_app bid timeout force : emits not_launch (mac_quit_app bid timeout force).
Proof.
  apply mac_quit_app_emits; [intros script; reflexivity | reflexivity|].
  intros _ pid _. reflexivity.
Qed.

Lemma still_win_find_running_pids search : emits not_launch (win_find_running_pids search).
Proof.
  unfold win_find_running_pids.
  apply emits_bind; [apply still_ps_run; vm_compute; reflexivity
                    | intro; apply emits_ints_of].
Qed.

Lemma still_first_exec_path pids : emits not_launch (first_exec_path pids).
Proof.
  induction pids as [|pid rest IH]; simpl; [apply emits_ret|].
  apply emits_bind.
  - unfold win_exec_path_for_pid.
    apply emits_bind; [apply still_ps_run; vm_compute; reflexivity | intro; apply emits_ret].
  - intros [[|c p]|]; [exact IH | apply emits_ret | exact IH].
Qed.

Lemma still_win_wait_quit fuel deadline pids :
  emits not_launch (win_wait_quit fuel deadline pids).
Proof.
  induction fuel as [|fuel IH]; simpl.
  - apply emits_bind; [apply emits_time_time | intros now].
    destruct (now <? deadline)%Z; [apply emits_diverge | apply emits_ret].
  - apply emits_bind; [apply emits_time_time | intros now].
    destruct (now <? deadline)%Z; [|apply emits_ret].
    apply emits_bind.
    + apply emits_filter_m. intros pid. unfold win_is_pid_alive.
      apply emits_bind; [apply still_ps_run; vm_compute; reflexivity
                        | intro; apply emits_ret].
    + intros [|a alive]; [apply emits_ret|].
      apply emits_bind; [apply emits_time_sleep; [lia | reflexivity] | intro; exact IH].
Qed.

Lemma still_win_quit_pids pids timeout force :
  emits not_launch (win_quit_pids pids timeout force).
Proof.
  unfold win_quit_pids. destruct pids as [|p ps]; [apply emits_ret|].
  apply emits_bind; [apply still_ps_run; vm_compute; reflexivity | intros _].
  apply emits_bind; [apply emits_time_time | intros now].
  apply emits_bind; [apply still_win_wait_quit | intros returned].
  destruct returned; [apply emits_ret|].
  destruct force; [|apply emits_ret].
  apply emits_bind; [apply still_ps_run; vm_compute; reflexivity | intro; apply emits_ret].
Qed.

Lemma still_win_resolve_launch_target search fb :
  emits not_launch (win_resolve_launch_target search fb).
Proof.
  unfold win_resolve_launch_target.
  assert (H : emits not_launch
                (out <- ps_run script_lnk (Some search) false ;;
                 match strip out with
                 | _ :: _ => ret ("exe", strip out)
                 | [] =>
                     out <- ps_run script_uwp (Some search) false ;;
                     match strip out with
                     | _ :: _ => ret ("uwp", strip out)
                     | [] => ret ("alias", search)
                     end
                 end)).
  { apply emits_bind; [apply still_ps_run; vm_compute; reflexivity | intros out].
    destruct (strip out); [|apply emits_ret].
    apply emits_bind; [apply still_ps_run; vm_compute; reflexivity | intros out2].
    destruct (strip out2); apply emits_ret. }
  destruct fb as [[|c p]|]; [exact H | apply emits_ret | exact H].
Qed.

(** Entering a scope launches nothing. *)
Lemma still_enter self : emits not_launch (enter self).
Proof.
  unfold enter.
  destruct (eqb (_platform self) "mac").
  - apply emits_bind; [apply still_mac_mdfind_app | intros [app|]]; [|apply emits_raise].
    apply emits_bind; [apply still_mac_bundle_id_for | intros bid].
    destruct (eqb bid "" || eqb bid "(null)"); [apply emits_raise|].
    apply emits_bind; [apply still_mac_count_running_procs | intros n].
    destruct (n >? 0)%Z; [|apply emits_ret].
    apply emits_bind; [apply still_mac_quit_app | intro; apply emits_ret].
  - destruct (eqb (_platform self) "win").
    + apply emits_bind; [apply still_win_find_running_pids | intros pids].
      apply emits_bind.
      * destruct pids as [|p ps]; [apply emits_ret|].
        apply emits_bind; [apply still_first_exec_path | intros exe].
        apply emits_bind; [apply still_win_quit_pids | intro; apply emits_ret].
      * intros [exe should].
        apply emits_bind; [apply still_win_resolve_launch_target | intros [mode target]].
        apply emits_ret.
    + apply emits_bind; [apply emits_platform | intro; apply emits_raise].
Qed.

Lemma launches_nil : (launches [] <= 1)%nat.
Proof. unfold launches. simpl. lia. Qed.

(** Leaving a scope launches at most once, whatever [self] holds. *)
Lemma exit_launches self exc w s :
  exists d, log (snd (exit_ self exc w s)) = log s ++ d /\ (launches d <= 1)%nat.
Proof.
  assert (Hnone : exists d, log s = log s ++ d /\ (launches d <= 1)%nat).
  { exists []. rewrite app_nil_r. split; [reflexivity | apply launches_nil]. }
  unfold exit_, try_finally_return.
  destruct (_should_restart self); [|exact Hnone].
  destruct (_launch_info self) as [info|]; [|exact Hnone].
  destruct (eqb (_platform self) "mac").
  - destruct info as [bid|mode target]; [|exact Hnone].
    unfold unpack2, bind at 1, ret.
    pose proof (relaunch_launches (MacInfo bid) w s) as H. simpl in H.
    destruct (mac_launch_app bid w s) as [[a|e|] s1]; exact H.
  - destruct (eqb (_platform self) "win"); [|exact Hnone].
    destruct info as [bid|mode target]; [exact Hnone|].
    unfold unpack3, bind at 1, ret. simpl.
    pose proof (relaunch_launches (WinInfo mode target) w s) as H. simpl in H.
    destruct (win_launch mode target w s) as [[a|e|] s1]; exact H.
Qed.

Lemma launches_after s s1 s2 :
  appends not_launch s s1 ->
  (exists d, log s2 = log s1 ++ d /\ (launches d <= 1)%nat) ->
  exists d, log s2 = log s ++ d /\ (launches d <= 1)%nat.
Proof.
  intros (d1 & E1 & F1) (d2 & E2 & L2). exists (d1 ++ d2).
  rewrite E2, E1, app_assoc, launches_app, (launches_none d1 F1).
  split; [reflexivity | exact L2].
Qed.

Lemma launches_still s s1 :
  appends not_launch s s1 ->
  exists d, log s1 = log s ++ d /\ (launches d <= 1)%nat.
Proof.
  intros (d & E & F). exists d. rewrite (launches_none d F). split; [exact E | lia].
Qed.

(** X20: from the entry of a scope to its exit at most one launching
    command is issued, whatever the system answers and however the entry,
    the work and the exit end, as long as the work itself launches
    nothing. *)
Theorem scope_launches_at_most_once {A} search timeout force flag (body : M A) w s :
  emits not_launch body ->
  exists d,
    log (snd (scope search timeout force flag body w s)) = log s ++ d /\
    (launches d <= 1)%nat.
Proof.
  intros Hb. unfold scope, init, platform. unfold bind at 1. unfold bind at 1.
  unfold ret at 1. cbv beta iota.
  set (cm := {| search := search |}).
  unfold with_. unfold bind at 1.
  pose proof (appends_run not_launch (enter cm) w s (still_enter cm)) as A0.
  destruct (enter cm w s) as [[self'|e|] s1]; simpl in A0;
    try (apply launches_still; exact A0).
  pose proof (appends_run not_launch body w s1 Hb) as A1.
  pose proof (appends_trans _ _ _ _ A0 A1) as A01. clear A0 A1.
  destruct (body w s1) as [[v|e|] s2]; simpl in A01;
    try (apply launches_still; exact A01).
  - apply (launches_after _ _ _ A01). unfold bind, ret.
    pose proof (exit_launches self' None w s2) as H.
    destruct (exit_ self' None w s2) as [[b|e|] s3]; exact H.
  - apply (launches_after _ _ _ A01). unfold bind, ret, raise.
    pose proof (exit_launches self' (Some e) w s2) as H.
    destruct (exit_ self' (Some e) w s2) as [[[|]|e'|] s3]; exact H.
Qed.

Lemma scope_launches_witness :
  (launches (log (snd (scope "Camera Hub" 20000 true false (ret 1%Z) mac_busy start)))
   <= 1)%nat.
Proof.
  destruct (scope_launches_at_most_once "Camera Hub" 20000 true false (ret 1%Z)
              mac_busy start) as (d & E & L).
  - apply emits_ret.
  - rewrite E. exact L.
Defined.

End LaunchMore.

(** ** slugify over all code points *)

Module SlugUni.
Import PyStr Pred PyStrFacts PyUni PrompterUni UniPred.

Lemma hyphen_not_kept : slug_keep hyphen = false.
Proof. reflexivity. Qed.

Lemma is_hyphen c : char_in [hyphen] c = true <-> c = hyphen.
Proof. unfold char_in. simpl. rewrite orb_false_r. apply N.eqb_eq. Qed.

Lemma not_hyphen c : char_in [hyphen] c = false -> c <> hyphen.
Proof. intros H Hc. apply is_hyphen in Hc. congruence. Qed.

Lemma no_pair_of_absent (h : N) r :
  Forall (fun c => c <> h) r -> forall a b, r <> a ++ [h; h] ++ b.
Proof.
  intros H a b ->. apply Forall_app in H as [_ H].
  inversion H as [|? ? Hh _]. congruence.
Qed.

Lemma prompt_is_slug : well_formed_slug (widen "prompt").
Proof.
  unfold well_formed_slug. repeat split.
  - discriminate.
  - repeat constructor.
  - discriminate.
  - intros a H. apply (f_equal (@rev N)) in H.
    rewrite rev_app_distr in H. discriminate.
  - apply no_pair_of_absent. repeat constructor; discriminate.
Qed.

(** The string before truncation: class members only, hyphens single and
    not at either end. *)
Lemma runs_shape s :
  let v := strip_chars [hyphen] (sub_runs slug_keep [hyphen] false s) in
  Forall slug_char v /\
  (forall b, v <> hyphen :: b) /\
  (forall a, v <> a ++ [hyphen]) /\
  (forall a b, v <> a ++ [hyphen; hyphen] ++ b).
Proof.
  intros v. subst v. unfold strip_chars.
  set (w := sub_runs slug_keep [hyphen] false s).
  assert (Hinf : infix_of (strip_with (char_in [hyphen]) w) w) by apply strip_with_infix.
  repeat split.
  - eapply infix_Forall; [exact Hinf|]. apply sub_runs_Forall.
  - intros b H. unfold strip_with in H.
    destruct (rstrip_with_prefix (char_in [hyphen]) (lstrip_with (char_in [hyphen]) w))
      as [x Hx].
    rewrite H in Hx. simpl in Hx. apply lstrip_with_head in Hx.
    apply not_hyphen in Hx. congruence.
  - intros a H. apply rstrip_with_last in H.
    apply not_hyphen in H. congruence.
  - eapply infix_avoids; [exact Hinf|].
    intros a b. apply sub_runs_no_pair, hyphen_not_kept.
Qed.

(** The shape of the result for any bound that is not negative. *)
Lemma slugify_shape_all tables value max_len :
  (0 <= max_len)%Z ->
  well_formed_slug (slugify tables value max_len) /\
  (len (slugify tables value max_len) <= Z.max max_len 6)%Z.
Proof.
  intros Hmax. unfold slugify. change (widen "-") with [hyphen].
  destruct (runs_shape (lower tables (strip value))) as (HF & Hh & Hl & Hd).
  set (v := strip_chars [hyphen]
              (sub_runs slug_keep [hyphen] false (lower tables (strip value)))) in *.
  destruct (len v >? max_len)%Z eqn:Hlen.
  - unfold rstrip_chars, slice_to.
    assert (E0 : (0 <=? max_len)%Z = true) by (apply Z.leb_le; exact Hmax).
    rewrite E0. set (n := Z.to_nat max_len).
    set (r := rstrip_with (char_in [hyphen]) (firstn n v)).
    assert (Hinf : infix_of r v).
    { eapply infix_trans; [apply rstrip_with_infix | apply firstn_infix]. }
    assert (Hle : (length r <= n)%nat).
    { etransitivity; [apply rstrip_with_length|]. rewrite length_firstn. lia. }
    destruct r as [|c u] eqn:Er.
    + split; [apply prompt_is_slug | unfold len; simpl; lia].
    + split.
      * repeat split.
        -- discriminate.
        -- eapply infix_Forall; [exact Hinf | exact HF].
        -- intros b E. injection E as -> _.
           destruct (rstrip_with_prefix (char_in [hyphen]) (firstn n v)) as [x Hx].
           fold r in Hx. rewrite Er in Hx.
           apply (Hh (u ++ x ++ skipn n v)).
           rewrite <- (firstn_skipn n v) at 1. rewrite Hx, <- app_assoc. reflexivity.
        -- intros a E. rewrite <- Er in E. apply rstrip_with_last in E.
           apply not_hyphen in E. congruence.
        -- eapply infix_avoids; [exact Hinf | exact Hd].
      * unfold len. subst n. lia.
  - rewrite Z.gtb_ltb in Hlen. apply Z.ltb_ge in Hlen.
    destruct v as [|c t] eqn:Ev.
    + split; [apply prompt_is_slug | unfold len; simpl; lia].
    + split; [|lia]. repeat split; try assumption. discriminate.
Qed.

(** A code point that is no source of an ASCII letter or digit has none in
    its lowercase form. *)
Lemma lower_char_unkept tables before c after :
  lowercase_outside_ascii tables ->
  is_ascii_alnum c = false -> c <> dotted_I -> c <> kelvin ->
  Forall (fun d => slug_keep d = false) (lower_char tables before c after).
Proof.
  intros Ht Ha Hi Hk. unfold lower_char.
  unfold is_ascii_alnum in Ha. apply orb_false_iff in Ha as [Ha Hdec].
  apply orb_false_iff in Ha as [Hlow Hup]. rewrite Hup.
  destruct (c <? 128)%N eqn:E128.
  - constructor; [|constructor]. unfold slug_keep. rewrite Hlow, Hdec. reflexivity.
  - apply N.ltb_ge in E128.
    destruct (N.eqb_spec c dotted_I) as [->|_]; [congruence|].
    destruct (N.eqb_spec c kelvin) as [->|_]; [congruence|].
    apply Ht; assumption.
Qed.

Lemma lower_not_kept tables s :
  lowercase_outside_ascii tables -> no_alnum s ->
  forall before, Forall (fun d => slug_keep d = false) (lower_from tables before s).
Proof.
  intros Ht Hs. induction Hs as [|c t (Ha & Hi & Hk) _ IH]; intros before; simpl.
  - constructor.
  - apply Forall_app. split; [apply lower_char_unkept; assumption | apply IH].
Qed.

Lemma runs_vanish tables s :
  lowercase_outside_ascii tables -> no_alnum s ->
  strip_chars [hyphen] (sub_runs slug_keep [hyphen] false (lower tables (strip s))) = [].
Proof.
  intros Ht H.
  assert (Hs : no_alnum (strip s)).
  { eapply infix_Forall; [apply strip_with_infix | exact H]. }
  pose proof (lower_not_kept tables (strip s) Ht Hs []) as Hl. fold (lower tables (strip s)) in Hl.
  assert (Hb : forallb (fun c => negb (slug_keep c)) (lower tables (strip s)) = true).
  { induction Hl as [|c t Hc _ IH]; simpl; [reflexivity|]. rewrite Hc, IH. reflexivity. }
  destruct (sub_runs_nothing_kept slug_keep hyphen _ Hb) as [_ [E|E]];
    rewrite E; reflexivity.
Qed.

(** With an ASCII reading of "alphanumeric" the fallback would be promised
    for the Kelvin sign too, which has no ASCII letter in it and yet gives
    the slug "k". *)
Lemma slugify_kelvin tables : slugify tables [kelvin] 48 = widen "k".
Proof. reflexivity. Qed.

(** C9: for every string and the default [max_len] of 48, [slugify]
    returns a non-empty string of at most 48 characters, made of lowercase
    ASCII letters, digits and hyphens, with no hyphen first or last and no
    two hyphens in a row; for an input without alphanumeric characters it
    returns "prompt". *)
Theorem slugify_default_shape tables (value : ustr) :
  well_formed_slug (slugify tables value PrompterText.default_max_len) /\
  (len (slugify tables value PrompterText.default_max_len)
     <= PrompterText.default_max_len)%Z /\
  (lowercase_outside_ascii tables -> no_alnum value ->
   slugify tables value PrompterText.default_max_len = widen "prompt").
Proof.
  unfold PrompterText.default_max_len.
  destruct (slugify_shape_all tables value 48 ltac:(lia)) as [Hw Hl].
  split; [exact Hw|]. split; [lia|].
  intros Ht H. unfold slugify. change (widen "-") with [hyphen].
  rewrite (runs_vanish tables value Ht H). reflexivity.
Qed.

Lemma slugify_default_witness :
  slugify caseless (widen " ?!" ++ [0x416; 0xD800]%N) PrompterText.default_max_len
    = widen "prompt" /\
  well_formed_slug (slugify caseless (widen "  Hello,  World!! ")
                      PrompterText.default_max_len) /\
  slugify caseless (widen "  Hello,  World!! ") PrompterText.default_max_len
    = widen "hello-world".
Proof.
  split; [|split].
  - apply (proj2 (proj2 (slugify_default_shape caseless
                           (widen " ?!" ++ [0x416; 0xD800]%N)))).
    + intros before c after H128 _ _. constructor; [|constructor].
      unfold slug_keep, is_ascii_lower, is_decimal, between.
      destruct (N.leb_spec c 122), (N.leb_spec c 57); try lia;
        rewrite !andb_false_r; reflexivity.
    + repeat constructor; discriminate.
  - apply (proj1 (slugify_default_shape caseless (widen "  Hello,  World!! "))).
  - reflexivity.
Defined.

End SlugUni.

(** ** The two embeddings of slugify agree *)

Module SlugAgree.
Import PyStr PyStrFacts PyUni UniPred.

Section Maps.
Context {A B : Type} (f : A -> B) (p : A -> bool) (q : B -> bool).
Hypothesis agree : forall c, q (f c) = p c.

Lemma lstrip_with_map s : lstrip_with q (map f s) = map f (lstrip_with p s).
Proof.
  induction s as [|c t IH]; simpl; [reflexivity|].
  rewrite agree. destruct (p c); [exact IH | reflexivity].
Qed.

Lemma rstrip_with_map s : rstrip_with q (map f s) = map f (rstrip_with p s).
Proof.
  unfold rstrip_with. rewrite <- map_rev, lstrip_with_map, map_rev. reflexivity.
Qed.

Lemma strip_with_map s : strip_with q (map f s) = map f (strip_with p s).
Proof. unfold strip_with. rewrite lstrip_with_map, rstrip_with_map. reflexivity. Qed.

Lemma sub_runs_map rep b s :
  sub_runs q (map f rep) b (map f s) = map f (sub_runs p rep b s).
Proof.
  revert b. induction s as [|c t IH]; intros b; simpl; [reflexivity|].
  rewrite agree. destruct (p c); simpl; [rewrite IH; reflexivity|].
  destruct b; [apply IH|]. rewrite map_app, IH. reflexivity.
Qed.

Lemma slice_to_map (s : list A) n : slice_to (map f s) n = map f (slice_to s n).
Proof.
  unfold slice_to. rewrite length_map.
  destruct (0 <=? n)%Z; apply firstn_map.
Qed.

Lemma len_map (s : list A) : len (map f s) = len s.
Proof. unfold len. rewrite length_map. reflexivity. Qed.

End Maps.

Lemma is_space_widen c : PyUni.is_space (N.of_nat (ord c)) = PyStr.is_space c.
Proof. destruct c as [[] [] [] [] [] [] [] []]; reflexivity. Qed.

Lemma slug_keep_widen c :
  PrompterUni.slug_keep (N.of_nat (ord c)) = PrompterText.slug_keep c.
Proof. destruct c as [[] [] [] [] [] [] [] []]; reflexivity. Qed.

Lemma char_in_hyphen_widen c :
  PyUni.char_in (widen "-") (N.of_nat (ord c)) = PyStr.char_in "-" c.
Proof. destruct c as [[] [] [] [] [] [] [] []]; reflexivity. Qed.

Lemma lower_char_widen tables before c after :
  latin1_forms tables ->
  PyUni.lower_char tables before (N.of_nat (ord c)) after = widen [PyStr.lower_char c].
Proof.
  intros Ht.
  destruct (N.ltb_spec (N.of_nat (ord c)) 128) as [Hlt|Hge].
  - revert Hlt. destruct c as [[] [] [] [] [] [] [] []]; vm_compute; intros Hlt;
      first [reflexivity | discriminate Hlt].
  - assert (Hc : chr (N.to_nat (N.of_nat (ord c))) = c).
    { rewrite Nat2N.id. apply ascii_nat_embedding. }
    assert (Hhi : (N.of_nat (ord c) < 256)%N).
    { pose proof (nat_ascii_bounded c). unfold ord. lia. }
    rewrite <- Hc at 2. rewrite <- (Ht before (N.of_nat (ord c)) after) by lia.
    unfold PyUni.lower_char, PyUni.is_ascii_upper, PyUni.between, dotted_I, kelvin.
    destruct (N.leb_spec (N.of_nat (ord c)) 90); [lia|].
    rewrite andb_false_r.
    destruct (N.ltb_spec (N.of_nat (ord c)) 128); [lia|].
    destruct (N.eqb_spec (N.of_nat (ord c)) 304); [lia|].
    destruct (N.eqb_spec (N.of_nat (ord c)) 8490); [lia|].
    reflexivity.
Qed.

Lemma lower_widen tables s :
  latin1_forms tables ->
  forall before, PyUni.lower_from tables before (widen s) = widen (PyStr.lower s).
Proof.
  intros Ht. induction s as [|c t IH]; intros before; [reflexivity|].
  cbn [widen map PyUni.lower_from]. fold (widen t).
  rewrite lower_char_widen by exact Ht. rewrite IH. reflexivity.
Qed.

(** [PrompterText.slugify] is [PrompterUni.slugify] on the strings of code
    points below U+0100, for a database with the Latin-1 forms. *)
Lemma slugify_restricts tables (s : str) max_len :
  latin1_forms tables ->
  PrompterUni.slugify tables (widen s) max_len = widen (PrompterText.slugify s max_len).
Proof.
  intros Ht. unfold PrompterUni.slugify, PrompterText.slugify.
  unfold PyUni.strip, PyStr.strip, PyUni.strip_chars, PyStr.strip_chars,
    PyUni.rstrip_chars, PyStr.rstrip_chars, PyUni.lower, widen.
  rewrite (strip_with_map _ PyStr.is_space PyUni.is_space is_space_widen).
  fold (widen (strip_with PyStr.is_space s)).
  rewrite (lower_widen tables _ Ht). unfold widen.
  rewrite (sub_runs_map _ PrompterText.slug_keep PrompterUni.slug_keep slug_keep_widen).
  rewrite (strip_with_map _ (PyStr.char_in "-") (PyUni.char_in (map _ "-"))
             char_in_hyphen_widen).
  set (v := strip_with (PyStr.char_in "-") _).
  rewrite len_map.
  destruct (len v >? max_len)%Z.
  - rewrite slice_to_map.
    rewrite (rstrip_with_map _ (PyStr.char_in "-") (PyUni.char_in (map _ "-"))
               char_in_hyphen_widen).
    destruct (rstrip_with (PyStr.char_in "-") (slice_to v max_len)); reflexivity.
  - destruct v; reflexivity.
Qed.

(** Such a database exists, and it is one of those of the statements about
    [PrompterUni.slugify]. *)
Lemma latin1_only_forms : latin1_forms latin1_only /\ lowercase_outside_ascii latin1_only.
Proof.
  split.
  - intros before c after [_ Hc]. unfold latin1_only.
    destruct (N.ltb_spec c 256); [reflexivity | lia].
  - intros before c after Hc _ _. unfold latin1_only.
    destruct (N.ltb_spec c 256) as [Hlt|Hge].
    + assert (Hn : (N.to_nat c < 256)%nat) by lia.
      assert (Hord : (128 <= ord (chr (N.to_nat c)))%nat).
      { unfold ord, chr. rewrite nat_ascii_embedding by exact Hn. lia. }
      revert Hord. generalize (chr (N.to_nat c)). intros a.
      destruct a as [[] [] [] [] [] [] [] []]; vm_compute; intros Hord;
        first [solve [repeat constructor] | exfalso; lia].
    + constructor; [|constructor].
      unfold PrompterUni.slug_keep, is_ascii_lower, is_decimal, PyUni.between.
      destruct (N.leb_spec c 122), (N.leb_spec c 57); try lia;
        rewrite !andb_false_r; reflexivity.
Qed.

End SlugAgree.

(** ** The settings file over all code points *)

Module SettingsUni.
Import PyStr PathLib Os PrompterText PyUni PrompterUni MorePred UniPred Worlds StoreMore.


(** A document can be written when its keys and its values can. *)
Lemma members_encodable m :
  json_encodable (JObject m) = true <->
  map_Forall (fun k v => encodable k = true /\ json_encodable v = true) m.
Proof.
  simpl.
  apply (map_fold_weak_ind
           (fun r m => r = true <->
              map_Forall (fun k v => encodable k = true /\ json_encodable v = true) m)).
  - split; [intros _; apply map_Forall_empty | reflexivity].
  - intros i x m' r Hi IH. rewrite map_Forall_insert by exact Hi.
    rewrite !andb_true_iff, IH. tauto.
Qed.


(** The two ways a write ends. *)
Lemma save_settings_run p data fs :
  (json_encodable (JObject data) = true /\
   save_settings p data fs =
     (Ok tt,
      <[path_str p := Document (JObject data)]>
        (delete (path_str (with_suffix p ".json.tmp"))
           (<[path_str (with_suffix p ".json.tmp") := Document (JObject data)]> fs)))) \/
  (json_encodable (JObject data) = false /\
   save_settings p data fs =
     (Raise encode_error, <[path_str (with_suffix p ".json.tmp") := Garbage]> fs)).
Proof.
  unfold save_settings. destruct (json_encodable (JObject data)); [left | right];
    split; reflexivity.
Qed.

(** What [load_settings] reads from a readable file, and the list in it. *)
Lemma load_readable texts_dir fs :
  readable texts_dir fs ->
  exists st,
    load_settings (get_appsettings_path texts_dir) fs = Ok st /\
    library_list texts_dir fs = match st !! SETTINGS_KEY with
                                | Some (JList lst) => lst
                                | _ => []
                                end.
Proof.
  unfold readable, load_settings, library_list, Fs in *. intros Hr.
  destruct (fs !! path_str (get_appsettings_path texts_dir)) as [[|v]|]; [congruence| |].
  - destruct v; try (exists ∅; rewrite lookup_empty; split; reflexivity).
    eexists. split; reflexivity.
  - exists ∅. rewrite lookup_empty. split; reflexivity.
Qed.

Section Upper.
Variable upper : ustr -> ustr.

(** One call, spelled out: either the new document is written, or the write
    raises and the settings file stays as it is. *)
Lemma settings_add_guid_outcome texts_dir guid fs :
  readable texts_dir fs ->
  exists st,
    load_settings (get_appsettings_path texts_dir) fs = Ok st /\
    let data := <[SETTINGS_KEY := JList (added (upper guid) (library_list texts_dir fs))]> st in
    (json_encodable (JObject data) = true /\
     settings_add_guid upper texts_dir guid fs =
       (Ok (get_appsettings_path texts_dir),
        <[path_str (get_appsettings_path texts_dir) := Document (JObject data)]>
          (delete (path_str (tmp_path texts_dir))
             (<[path_str (tmp_path texts_dir) := Document (JObject data)]> fs))) /\
     library_list texts_dir (snd (settings_add_guid upper texts_dir guid fs))
       = added (upper guid) (library_list texts_dir fs)) \/
    (json_encodable (JObject data) = false /\
     settings_add_guid upper texts_dir guid fs =
       (Raise encode_error, <[path_str (tmp_path texts_dir) := Garbage]> fs) /\
     library_list texts_dir (snd (settings_add_guid upper texts_dir guid fs))
       = library_list texts_dir fs).
Proof.
  intros Hr. destruct (load_readable texts_dir fs Hr) as (st & Hload & Hlist).
  exists st. split; [exact Hload|]. intros data.
  unfold settings_add_guid. rewrite Hload. fold (added (upper guid)
    match st !! SETTINGS_KEY with Some (JList lst) => lst | _ => [] end).
  rewrite <- Hlist. fold data.
  destruct (save_settings_run (get_appsettings_path texts_dir) data fs) as [[He ->]|[He ->]].
  - left. split; [exact He|]. split; [reflexivity|].
    unfold library_list at 1. unfold Fs in *. simpl.
    rewrite lookup_insert_eq. unfold data. rewrite lookup_insert_eq. reflexivity.
  - right. split; [exact He|]. split; [reflexivity|].
    unfold library_list, Fs in *. simpl.
    rewrite lookup_insert_ne by apply tmp_path_differs. reflexivity.
Qed.


Lemma library_list_encodable texts_dir fs :
  stored_encodable texts_dir fs ->
  forallb json_encodable (library_list texts_dir fs) = true.
Proof.
  intros Hs. unfold stored_encodable, settings_of in Hs.
  unfold library_list, load_settings, Fs in *.
  destruct (fs !! path_str (get_appsettings_path texts_dir)) as [[|v]|]; try reflexivity.
  destruct v as [| | | | | |data]; try reflexivity.
  specialize (Hs data eq_refl). apply members_encodable in Hs.
  destruct (data !! SETTINGS_KEY) as [v|] eqn:E; [|reflexivity].
  destruct v; try reflexivity. exact (proj2 (Hs _ _ E)).
Qed.

(** What was read and can be written back can be written back with one
    more list under the library-list key. *)
Lemma new_document_encodable texts_dir fs st lst :
  stored_encodable texts_dir fs ->
  load_settings (get_appsettings_path texts_dir) fs = Ok st ->
  forallb json_encodable lst = true ->
  json_encodable (JObject (<[SETTINGS_KEY := JList lst]> st)) = true.
Proof.
  intros Hs Hload Hl. apply members_encodable. apply map_Forall_insert_2.
  - split; [vm_compute; reflexivity | exact Hl].
  - apply members_encodable. apply Hs. exact Hload.
Qed.





End Upper.




Section Frame.
Variable upper : ustr -> ustr.

(** X3: on a readable settings file, [settings_add_guid] changes no file
    other than the settings file and the temporary one; when it returns,
    every other key of the settings document is kept and no temporary file
    is left behind; when it raises, the settings file is as it was and the
    temporary file is left behind with the unfinished text. *)
Theorem settings_add_guid_frame texts_dir guid fs :
  readable texts_dir fs ->
  (forall p,
     p <> path_str (get_appsettings_path texts_dir) ->
     p <> path_str (tmp_path texts_dir) ->
     snd (settings_add_guid upper texts_dir guid fs) !! p = fs !! p) /\
  (fst (settings_add_guid upper texts_dir guid fs) = Ok (get_appsettings_path texts_dir) ->
   (exists st st',
      settings_of texts_dir fs = Ok st /\
      settings_of texts_dir (snd (settings_add_guid upper texts_dir guid fs)) = Ok st' /\
      forall k, k <> SETTINGS_KEY -> st' !! k = st !! k) /\
   snd (settings_add_guid upper texts_dir guid fs) !! path_str (tmp_path texts_dir) = None) /\
  (fst (settings_add_guid upper texts_dir guid fs) <> Ok (get_appsettings_path texts_dir) ->
   fst (settings_add_guid upper texts_dir guid fs) = Raise encode_error /\
   snd (settings_add_guid upper texts_dir guid fs)
     !! path_str (get_appsettings_path texts_dir)
     = fs !! path_str (get_appsettings_path texts_dir) /\
   snd (settings_add_guid upper texts_dir guid fs) !! path_str (tmp_path texts_dir)
     = Some Garbage).
Proof.
  intros Hr.
  destruct (settings_add_guid_outcome upper texts_dir guid fs Hr) as (st & Hload & Hrun).
  cbv zeta in Hrun. pose proof (tmp_path_differs texts_dir) as Hne.
  set (sp := path_str (get_appsettings_path texts_dir)) in *.
  set (tmp := path_str (tmp_path texts_dir)) in *.
  unfold Fs in *.
  destruct Hrun as [(_ & -> & _)|(_ & -> & _)]; simpl.
  - split; [|split].
    + intros p H1 H2. rewrite lookup_insert_ne by congruence.
      rewrite lookup_delete_ne by congruence. apply lookup_insert_ne. congruence.
    + intros _. split.
      * exists st. eexists. split; [exact Hload|]. split.
        -- unfold settings_of, load_settings, Fs. fold sp. rewrite lookup_insert_eq.
           reflexivity.
        -- intros k Hk. apply lookup_insert_ne. congruence.
      * rewrite lookup_insert_ne by congruence. apply lookup_delete_eq.
    + intros H. contradiction H. reflexivity.
  - split; [|split].
    + intros p H1 H2. apply lookup_insert_ne. congruence.
    + intros H. discriminate H.
    + intros _. split; [reflexivity|]. split.
      * apply lookup_insert_ne. exact Hne.
      * apply lookup_insert_eq.
Qed.

(** One run of [settings_remove_guids], spelled out. *)
Lemma settings_remove_guids_outcome other texts_dir guids fs :
  readable texts_dir fs ->
  exists st,
    load_settings (get_appsettings_path texts_dir) fs = Ok st /\
    let data :=
      <[SETTINGS_KEY := JList (without_guids upper other guids (library_list texts_dir fs))]>
        st in
    (json_encodable (JObject data) = true /\
     fst (settings_remove_guids upper other texts_dir guids fs)
       = Ok (get_appsettings_path texts_dir) /\
     library_list texts_dir (snd (settings_remove_guids upper other texts_dir guids fs))
       = without_guids upper other guids (library_list texts_dir fs)) \/
    (json_encodable (JObject data) = false /\
     fst (settings_remove_guids upper other texts_dir guids fs) = Raise encode_error /\
     library_list texts_dir (snd (settings_remove_guids upper other texts_dir guids fs))
       = library_list texts_dir fs).
Proof.
  intros Hr. destruct (load_readable texts_dir fs Hr) as (st & Hload & Hlist).
  exists st. split; [exact Hload|]. intros data.
  unfold settings_remove_guids. rewrite Hload. rewrite <- Hlist. fold data.
  destruct (save_settings_run (get_appsettings_path texts_dir) data fs) as [[He ->]|[He ->]].
  - left. split; [exact He|]. split; [reflexivity|].
    unfold library_list at 1. unfold Fs in *. simpl.
    rewrite lookup_insert_eq. unfold data. rewrite lookup_insert_eq. reflexivity.
  - right. split; [exact He|]. split; [reflexivity|].
    unfold library_list, Fs in *. simpl.
    rewrite lookup_insert_ne by apply tmp_path_differs. reflexivity.
Qed.

Lemma in_upper_set_iff x guids :
  in_upper_set upper x guids = true <-> exists g, In g guids /\ x = upper g.
Proof.
  unfold in_upper_set. rewrite existsb_exists. split.
  - intros (y & Hy & E). apply in_map_iff in Hy as (g & <- & Hg).
    apply bool_decide_eq_true in E. eauto.
  - intros (g & Hg & ->). exists (upper g).
    split; [apply in_map, Hg | apply bool_decide_eq_true; reflexivity].
Qed.

Lemma without_guids_same other guids lst :
  (forall g, In g guids -> unlisted upper other g lst) ->
  without_guids upper other guids lst = lst.
Proof.
  intros H. unfold without_guids. induction lst as [|e lst IH]; [reflexivity|].
  simpl. destruct (in_upper_set upper (upper (py_str other e)) guids) eqn:E.
  - apply in_upper_set_iff in E as (g & Hg & E).
    specialize (H g Hg). inversion H; subst. contradiction.
  - simpl. f_equal. apply IH. intros g Hg. specialize (H g Hg).
    inversion H; subst. assumption.
Qed.

Lemma without_guids_encodable other guids lst :
  forallb json_encodable lst = true ->
  forallb json_encodable (without_guids upper other guids lst) = true.
Proof.
  intros H. unfold without_guids. apply forallb_forall. intros e He.
  apply List.filter_In in He as [He _]. rewrite forallb_forall in H. exact (H e He).
Qed.

(** X4: on a readable settings file, [settings_remove_guids] returns the
    path of the file when what was read holds no lone surrogate; when it
    returns, no entry of the library list prints as one of the given guids
    in any letter case; in any case every entry left was there before, and
    when none of the guids was listed the list is as it was. *)
Theorem settings_remove_guids_clears other texts_dir guids fs :
  readable texts_dir fs ->
  (stored_encodable texts_dir fs ->
   fst (settings_remove_guids upper other texts_dir guids fs)
     = Ok (get_appsettings_path texts_dir)) /\
  (fst (settings_remove_guids upper other texts_dir guids fs)
     = Ok (get_appsettings_path texts_dir) ->
   forall g,
     In g guids ->
     unlisted upper other g
       (library_list texts_dir
          (snd (settings_remove_guids upper other texts_dir guids fs)))) /\
  (forall e,
     In e (library_list texts_dir
             (snd (settings_remove_guids upper other texts_dir guids fs))) ->
     In e (library_list texts_dir fs)) /\
  ((forall g, In g guids -> unlisted upper other g (library_list texts_dir fs)) ->
   library_list texts_dir (snd (settings_remove_guids upper other texts_dir guids fs))
     = library_list texts_dir fs).
Proof.
  intros Hr.
  destruct (settings_remove_guids_outcome other texts_dir guids fs Hr) as (st & Hload & Hrun).
  cbv zeta in Hrun. split; [|split; [|split]].
  - intros Hs.
    destruct Hrun as [(_ & H & _)|(Hf & _)]; [exact H|].
    rewrite (new_document_encodable texts_dir fs st _ Hs Hload) in Hf; [discriminate|].
    apply without_guids_encodable, library_list_encodable, Hs.
  - intros Hok g Hg.
    destruct Hrun as [(_ & _ & ->)|(_ & Hf & _)]; [|congruence].
    unfold unlisted, without_guids.
    apply Forall_forall. intros e He Heq.
    apply list_elem_of_In, List.filter_In in He as [_ He].
    apply negb_true_iff in He.
    assert (Hin : in_upper_set upper (upper (py_str other e)) guids = true)
      by (apply in_upper_set_iff; eauto).
    congruence.
  - intros e He.
    destruct Hrun as [(_ & _ & E)|(_ & _ & E)]; rewrite E in He; [|exact He].
    apply List.filter_In in He as [He _]. exact He.
  - intros Hu.
    destruct Hrun as [(_ & _ & ->)|(_ & _ & ->)]; [|reflexivity].
    apply without_guids_same, Hu.
Qed.

End Frame.

Lemma settings_add_guid_frame_witness :
  snd (settings_add_guid ascii_upper texts (widen "ab-12")
         (<["/Users/me/AppSettings.json.tmp" := Garbage]>
            (<["/Users/me/Texts/A.json" := Document JNull]> ∅)))
    !! "/Users/me/AppSettings.json.tmp" = None /\
  snd (settings_add_guid ascii_upper texts (widen "ab-12")
         (<["/Users/me/AppSettings.json.tmp" := Garbage]>
            (<["/Users/me/Texts/A.json" := Document JNull]> ∅)))
    !! "/Users/me/Texts/A.json" = Some (Document JNull) /\
  snd (settings_add_guid ascii_upper texts (widen "ab-12")
         (settings_with [JStr [0xD800%N]]))
    !! "/Users/me/AppSettings.json.tmp" = Some Garbage.
Proof.
  set (fs := <["/Users/me/AppSettings.json.tmp" := Garbage]>
               (<["/Users/me/Texts/A.json" := Document JNull]> (∅ : Fs))).
  assert (Hr : readable texts fs) by (vm_compute; discriminate).
  destruct (settings_add_guid_frame ascii_upper texts (widen "ab-12") fs Hr)
    as (Hrest & Hok & _).
  assert (Hr2 : readable texts (settings_with [JStr [0xD800%N]]))
    by (vm_compute; intros H; discriminate H).
  destruct (settings_add_guid_frame ascii_upper texts (widen "ab-12") _ Hr2)
    as (_ & _ & Hfail).
  split; [|split].
  - apply Hok. vm_compute. reflexivity.
  - refine (eq_trans (Hrest "/Users/me/Texts/A.json" _ _) _);
      [discriminate | discriminate | vm_compute; reflexivity].
  - apply Hfail. vm_compute. intros H. discriminate H.
Defined.

Lemma settings_remove_guids_witness :
  fst (settings_remove_guids ascii_upper blank texts [widen "ab-12"]
         (settings_with [JStr (widen "Ab-12"); JStr (widen "CD-34"); JStr (widen "AB-12")]))
    = Ok (get_appsettings_path texts) /\
  library_list texts
    (snd (settings_remove_guids ascii_upper blank texts [widen "ab-12"]
            (settings_with [JStr (widen "Ab-12"); JStr (widen "CD-34");
                            JStr (widen "AB-12")])))
    = [JStr (widen "CD-34")] /\
  unlisted ascii_upper blank (widen "ab-12")
    (library_list texts
       (snd (settings_remove_guids ascii_upper blank texts [widen "ab-12"]
               (settings_with [JStr (widen "Ab-12"); JStr (widen "CD-34");
                               JStr (widen "AB-12")])))).
Proof.
  set (fs := settings_with [JStr (widen "Ab-12"); JStr (widen "CD-34"); JStr (widen "AB-12")]).
  assert (Hr : readable texts fs) by (vm_compute; intros H; discriminate H).
  assert (Hs : stored_encodable texts fs).
  { intros data H. vm_compute in H. injection H as <-. vm_compute. reflexivity. }
  destruct (settings_remove_guids_clears ascii_upper blank texts [widen "ab-12"] fs Hr)
    as (Hok & Hclear & _).
  split; [exact (Hok Hs)|]. split; [vm_compute; reflexivity|].
  apply (Hclear (Hok Hs)). left. reflexivity.
Defined.

End SettingsUni.
